(** * SignaKit [tools/converter.py]: header <-> YAML signal converter

    A shallow embedding of the converter and the properties of its four
    passes: [parse_header_file], [generate_yaml], [parse_yaml_file] and
    [generate_header].

    Modelling conventions.
    - A Python [str] is a [list ascii]: characters are the code points
      0..255, and the character classes ([str.isspace], the regex classes
      [\s], [\w], [\d] of a [str] pattern) are Python's on that range.
    - Python integers are [Z].
    - A file opened for reading is the text it holds; [readlines] is the
      universal-newline line splitting of [open(..., 'r')].
    - A file opened for writing is the list of the strings passed to
      [f.write], in order; its content is their concatenation.
    - A YAML document is the value [yaml.safe_load] returns for it, with
      the keys the converter reads; a key that may be absent is an
      [option].  [yaml.dump] followed by [yaml.safe_load] is the identity
      on these values.
    - A [KeyError] is [None] in the [option] monad.  [generate_header]
      raises nothing of its own.  [parse_header_file] can raise in one
      place, [int] on an array length of more than 4300 digits: it is
      modelled twice, as the total function [parse_header_file], which
      takes [int] as defined on every digit string, and as
      [parse_header_file_checked], where that [ValueError] is [None];
      the two agree wherever the checked one returns.
    - [list.sort] is a stable sort. *)

From Stdlib Require Import String.
From Stdlib Require Import List Ascii ZArith Bool Arith Lia.
From Stdlib Require Import Sorting.Sorted Sorting.Permutation.
Import ListNotations.
Open Scope list_scope.

(** ** Python strings *)

Definition str := list ascii.

(** A string literal. *)
Definition lit (s : String.string) : str := String.list_ascii_of_string s.

Module PyStr.

Definition NUL : ascii := ascii_of_nat 0.
Definition LF : ascii := ascii_of_nat 10.
Definition CR : ascii := ascii_of_nat 13.
Definition SP : ascii := ascii_of_nat 32.
Definition QUOTE : ascii := ascii_of_nat 39.

Definition code (c : ascii) : nat := nat_of_ascii c.

Definition between (lo hi : nat) (c : ascii) : bool :=
  (lo <=? code c)%nat && (code c <=? hi)%nat.

(** [str.isspace] of one character, which is also the regex class [\s]:
    TAB..CR, FS..US, space, NEL and NBSP. *)
Definition isspace (c : ascii) : bool :=
  between 9 13 c || between 28 32 c
  || (code c =? 133)%nat || (code c =? 160)%nat.

(** The regex class [\d] of a [str] pattern: decimal digits. *)
Definition isdigit (c : ascii) : bool := between 48 57 c.

(** The regex class [\w] of a [str] pattern: alphanumerics and the
    underscore.  Above 127 the alphanumerics are the letters and number
    characters of Latin-1. *)
Definition isword (c : ascii) : bool :=
  between 48 57 c || between 65 90 c || between 97 122 c
  || (code c =? 95)%nat
  || (code c =? 170)%nat || (code c =? 178)%nat || (code c =? 179)%nat
  || (code c =? 181)%nat || (code c =? 185)%nat || (code c =? 186)%nat
  || between 188 190 c
  || between 192 214 c || between 216 246 c || between 248 255 c.

Definition eqs (a b : str) : bool :=
  if list_eq_dec ascii_dec a b then true else false.

Definition is_empty (s : str) : bool :=
  match s with [] => true | _ => false end.

(** [s.startswith(p)] *)
Fixpoint startswith (p s : str) : bool :=
  match p, s with
  | [], _ => true
  | _ :: _, [] => false
  | a :: p', b :: s' => Ascii.eqb a b && startswith p' s'
  end.

(** [s.endswith(p)] *)
Definition endswith (p s : str) : bool := startswith (rev p) (rev s).

(** [sub in s] *)
Fixpoint contains (sub s : str) : bool :=
  startswith sub s
  || match s with [] => false | _ :: s' => contains sub s' end.

(** [s.count(c)] for a one-character [c] *)
Definition count (c : ascii) (s : str) : Z :=
  Z.of_nat (List.length (filter (Ascii.eqb c) s)).

(** [s.find(c)] for a one-character [c]; [None] is Python's [-1]. *)
Fixpoint find (c : ascii) (s : str) : option nat :=
  match s with
  | [] => None
  | x :: s' =>
      if Ascii.eqb x c then Some 0%nat
      else match find c s' with Some i => Some (S i) | None => None end
  end.

(** [s.rfind(c)] for a one-character [c] *)
Fixpoint rfind (c : ascii) (s : str) : option nat :=
  match s with
  | [] => None
  | x :: s' =>
      match rfind c s' with
      | Some i => Some (S i)
      | None => if Ascii.eqb x c then Some 0%nat else None
      end
  end.

(** [s[i:j]] for indices within the string *)
Definition slice (i j : nat) (s : str) : str := firstn (j - i) (skipn i s).

Fixpoint lstrip (s : str) : str :=
  match s with
  | c :: s' => if isspace c then lstrip s' else s
  | [] => []
  end.

Definition rstrip (s : str) : str := rev (lstrip (rev s)).

(** [s.strip()] *)
Definition strip (s : str) : str := rstrip (lstrip s).

(** [s.split(c)] for a one-character separator [c] *)
Fixpoint split (c : ascii) (s : str) : list str :=
  match s with
  | [] => [[]]
  | x :: s' =>
      if Ascii.eqb x c then [] :: split c s'
      else match split c s' with
           | h :: t => (x :: h) :: t
           | [] => [[x]]
           end
  end.

(** [s.split(sep)[0]]: the text before the first occurrence of [sep] *)
Fixpoint split_head (sep s : str) : str :=
  match s with
  | [] => []
  | x :: s' => if startswith sep s then [] else x :: split_head sep s'
  end.

(** [s.split()]: the maximal runs of characters that are not
    whitespace *)
Fixpoint split_ws (s : str) : list str :=
  match s with
  | [] => []
  | x :: s' =>
      if isspace x then split_ws s'
      else match s' with
           | [] => [[x]]
           | y :: _ =>
               if isspace y then [x] :: split_ws s'
               else match split_ws s' with
                    | h :: t => (x :: h) :: t
                    | [] => [[x]]
                    end
           end
  end.

(** [sep.join(l)] *)
Fixpoint join (sep : str) (l : list str) : str :=
  match l with
  | [] => []
  | [a] => a
  | a :: l' => a ++ sep ++ join sep l'
  end.

(** [s.replace(a, b)] for one-character [a] and [b] *)
Definition replace (a b : ascii) (s : str) : str :=
  map (fun c => if Ascii.eqb c a then b else c) s.

(** [s.replace(a, '')] for a one-character [a] *)
Definition remove (a : ascii) (s : str) : str :=
  filter (fun c => negb (Ascii.eqb c a)) s.

(** The value of [int(s)] for a string of decimal digits, where [int]
    returns; [int_checked] below has its error. *)
Definition int (s : str) : Z :=
  fold_left (fun n c => 10 * n + (Z.of_nat (code c) - 48))%Z s 0%Z.

(** CPython's default limit on the digits of a string that [int]
    converts, [sys.int_info.default_max_str_digits]; leading zeros
    count. *)
Definition max_str_digits : nat := 4300.

(** [int(s)] for a string of decimal digits, with its error: above the
    limit it raises [ValueError], which is [None]. *)
Definition int_checked (s : str) : option Z :=
  if (List.length s <=? max_str_digits)%nat then Some (int s) else None.

(** The longest prefix whose characters satisfy [p], and the rest. *)
Fixpoint span (p : ascii -> bool) (s : str) : str * str :=
  match s with
  | c :: s' =>
      if p c then let (a, b) := span p s' in (c :: a, b) else ([], s)
  | [] => ([], [])
  end.

(** [s] without its prefix [p], when it starts with it. *)
Fixpoint drop_prefix (p s : str) : option str :=
  match p, s with
  | [], _ => Some s
  | _ :: _, [] => None
  | a :: p', b :: s' => if Ascii.eqb a b then drop_prefix p' s' else None
  end.

(** The text a file holds, as [open(..., 'r')] hands it over: every
    line end is a line feed. *)
Fixpoint universal_newlines (s : str) : str :=
  match s with
  | [] => []
  | c :: s' =>
      if Ascii.eqb c CR then
        match s' with
        | d :: s'' =>
            if Ascii.eqb d LF then LF :: universal_newlines s''
            else LF :: universal_newlines s'
        | [] => [LF]
        end
      else c :: universal_newlines s'
  end.

(** The lines of a text, each with its line feed. *)
Fixpoint splitlines (s : str) : list str :=
  match s with
  | [] => []
  | c :: s' =>
      if Ascii.eqb c LF then [LF] :: splitlines s'
      else match splitlines s' with
           | l :: ls => (c :: l) :: ls
           | [] => [[c]]
           end
  end.

(** [f.readlines()] *)
Definition readlines (content : str) : list str :=
  splitlines (universal_newlines content).

End PyStr.

Import PyStr.

(** ** The data model *)

(** [TYPE_SIZES]: type sizes in bytes. *)
Definition TYPE_SIZES : list (str * Z) :=
  [ (lit "char", 1);
    (lit "int8_t", 1); (lit "uint8_t", 1);
    (lit "short", 2); (lit "unsigned short", 2);
    (lit "int16_t", 2); (lit "uint16_t", 2);
    (lit "int", 4); (lit "unsigned int", 4);
    (lit "int32_t", 4); (lit "uint32_t", 4); (lit "float", 4);
    (lit "long", 8); (lit "unsigned long", 8);
    (lit "int64_t", 8); (lit "uint64_t", 8); (lit "double", 8) ]%Z.

(** [d.get(k, default)] on a dict with string keys. *)
Fixpoint dict_get {V : Type} (d : list (str * V)) (k : str) (default : V) : V :=
  match d with
  | [] => default
  | (k', v) :: d' => if eqs k' k then v else dict_get d' k default
  end.

Module Field.

Record t : Type := mk {
  name : str;
  type_name : str;
  is_array : bool;
  array_size : Z;
  offset : Z
}.

(** The [size] property. *)
Definition size (f : t) : Z :=
  let base_size := dict_get TYPE_SIZES (type_name f) 1%Z in
  (base_size * (if is_array f then array_size f else 1))%Z.

End Field.

Module StructDef.

Record t : Type := mk {
  name : str;
  fields : list Field.t;
  header_string : str;
  size : Z
}.

(** [StructDef(name)] *)
Definition init (name : str) : t := mk name [] [] 0%Z.

End StructDef.

(** ** The three regular expressions *)

Module Re.

(** A match of [struct\s+__attribute__\(\(packed\)\)\s+(\w+)] at the
    start of [s]: its group 1.  A whitespace run is followed by a
    character that is not whitespace, and the word run ends the pattern,
    so each run is the longest one. *)
Definition struct_start_at (s : str) : option str :=
  match drop_prefix (lit "struct") s with
  | None => None
  | Some r1 =>
      let (ws1, r2) := span isspace r1 in
      if is_empty ws1 then None else
      match drop_prefix (lit "__attribute__((packed))") r2 with
      | None => None
      | Some r3 =>
          let (ws2, r4) := span isspace r3 in
          if is_empty ws2 then None else
          let (w, _) := span isword r4 in
          if is_empty w then None else Some w
      end
  end.

(** [struct_start_pattern.search(s)]: group 1 of the leftmost match. *)
Fixpoint struct_start_search (s : str) : option str :=
  match struct_start_at s with
  | Some w => Some w
  | None =>
      match s with
      | [] => None
      | _ :: s' => struct_start_search s'
      end
  end.

(** [re.findall(r"'([^'])'", s)]: the matches from left to right, none
    overlapping another. *)
Fixpoint findall_char_literals (s : str) : list ascii :=
  match s with
  | [] => []
  | q :: tl =>
      match tl with
      | c :: q' :: rest =>
          if Ascii.eqb q QUOTE && negb (Ascii.eqb c QUOTE)
             && Ascii.eqb q' QUOTE
          then c :: findall_char_literals rest
          else findall_char_literals tl
      | _ => []
      end
  end.

(** A match of [(\w+)\[(\d+)\]] at the start of [s]: groups 1 and 2.
    The word run is followed by a bracket and the digit run by a
    bracket, neither of its class, so each run is the longest one. *)
Definition array_name_at (s : str) : option (str * str) :=
  let (w, r) := span isword s in
  if is_empty w then None else
  match r with
  | b :: r' =>
      if Ascii.eqb b "["%char then
        let (d, r'') := span isdigit r' in
        if is_empty d then None else
        match r'' with
        | e :: _ => if Ascii.eqb e "]"%char then Some (w, d) else None
        | [] => None
        end
      else None
  | [] => None
  end.

(** [re.search(r'(\w+)\[(\d+)\]', s)] *)
Fixpoint array_name_search (s : str) : option (str * str) :=
  match array_name_at s with
  | Some m => Some m
  | None =>
      match s with
      | [] => None
      | _ :: s' => array_name_search s'
      end
  end.

End Re.

(** ** [parse_header_file] *)

(** The part of [parse_header_file] that reads one statement of a struct
    body: the state is the struct built so far and [current_offset]. *)
Definition parse_statement (acc : StructDef.t * Z) (stmt : str)
  : StructDef.t * Z :=
  let (s, current_offset) := acc in
  if is_empty stmt then acc else
  let stmt := replace LF SP stmt in
  let s :=
    if contains (lit "header[") stmt && contains (lit "=") stmt then
      let chars := Re.findall_char_literals stmt in
      StructDef.mk (StructDef.name s) (StructDef.fields s)
                   (remove NUL chars) (StructDef.size s)
    else s in
  let decl_part := strip (hd [] (split "="%char stmt)) in
  let parts := split_ws decl_part in
  if (List.length parts <? 2)%nat then (s, current_offset) else
  let field_name_full := last parts [] in
  let field_type := join [SP] (removelast parts) in
  let '(is_array, array_size, field_name) :=
    if contains (lit "[") field_name_full then
      match Re.array_name_search field_name_full with
      | Some (g1, g2) => (true, int g2, g1)
      | None => (true, 0%Z, field_name_full)
      end
    else (false, 0%Z, field_name_full) in
  let field :=
    Field.mk field_name field_type is_array array_size current_offset in
  (StructDef.mk (StructDef.name s) (StructDef.fields s ++ [field])
                (StructDef.header_string s) (StructDef.size s),
   (current_offset + Field.size field)%Z).

(** [[stmt.strip() for stmt in body.split(';') if stmt.strip()]] *)
Definition statements_of (body : str) : list str :=
  map strip (filter (fun stmt => negb (is_empty (strip stmt)))
                    (split ";"%char body)).

(** The part of [parse_header_file] that reads a struct body. *)
Definition parse_body (current_struct_name body : str) : StructDef.t :=
  let s := StructDef.init current_struct_name in
  let statements := statements_of body in
  let current_offset := 0%Z in
  let (s, current_offset) :=
    fold_left parse_statement statements (s, current_offset) in
  StructDef.mk (StructDef.name s) (StructDef.fields s)
               (StructDef.header_string s) current_offset.

(** The variables of the line loop of [parse_header_file]. *)
Record parser : Type := mk_parser {
  structs : list StructDef.t;
  in_struct : bool;
  current_struct_name : str;
  brace_count : Z;
  buffer : str
}.

Definition parser_init : parser := mk_parser [] false [] 0%Z [].

(** The line without the white space around it and without its
    comment. *)
Definition stripped_of (line : str) : str :=
  let stripped := strip line in
  if contains (lit "//") stripped
  then strip (split_head (lit "//") stripped) else stripped.

(** One turn of the line loop. *)
Definition parse_line (p : parser) (line : str) : parser :=
  let stripped := stripped_of line in
  if is_empty stripped then p else
  let p :=
    if negb (in_struct p) then
      match Re.struct_start_search line with
      | Some name =>
          let brace_count := 0%Z in
          let brace_count :=
            if contains (lit "{") line
            then (brace_count + count "{"%char line - count "}"%char line)%Z
            else brace_count in
          mk_parser (structs p) true name brace_count []
      | None => p
      end
    else p in
  if in_struct p then
    let brace_count :=
      if is_empty (buffer p) && contains (current_struct_name p) line
      then (brace_count p + count "{"%char line - count "}"%char line)%Z
      else (brace_count p + count "{"%char line - count "}"%char line)%Z in
    let buffer := buffer p ++ line in
    if (brace_count =? 0)%Z
       && (contains (lit "};") line || endswith (lit "};") (strip buffer))
    then
      let structs :=
        match find "{"%char buffer, rfind "}"%char buffer with
        | Some start, Some end_ =>
            let body := slice (start + 1) end_ buffer in
            structs p ++ [parse_body (current_struct_name p) body]
        | _, _ => structs p
        end in
      mk_parser structs false (current_struct_name p) brace_count buffer
    else
      mk_parser (structs p) true (current_struct_name p) brace_count buffer
  else p.

(** The line loop, from the first line on. *)
Definition parse_lines (lines : list str) : parser :=
  fold_left parse_line lines parser_init.

(** [parse_header_file], on the text of the file. *)
Definition parse_header_file (content : str) : list StructDef.t :=
  structs (parse_lines (readlines content)).

(** *** [parse_header_file] with the error of [int]

    The only call of [parse_header_file] that can raise on a text is
    [int(name_match.group(2))]: [ValueError] on an array length of more
    than [max_str_digits] digits.  The definitions below are the parser
    again with that error as [None]; where they return, they return what
    the total definitions above return. *)

Definition parse_statement_checked (acc : StructDef.t * Z) (stmt : str)
  : option (StructDef.t * Z) :=
  let (s, current_offset) := acc in
  if is_empty stmt then Some acc else
  let stmt := replace LF SP stmt in
  let s :=
    if contains (lit "header[") stmt && contains (lit "=") stmt then
      let chars := Re.findall_char_literals stmt in
      StructDef.mk (StructDef.name s) (StructDef.fields s)
                   (remove NUL chars) (StructDef.size s)
    else s in
  let decl_part := strip (hd [] (split "="%char stmt)) in
  let parts := split_ws decl_part in
  if (List.length parts <? 2)%nat then Some (s, current_offset) else
  let field_name_full := last parts [] in
  let field_type := join [SP] (removelast parts) in
  match
    (if contains (lit "[") field_name_full then
       match Re.array_name_search field_name_full with
       | Some (g1, g2) =>
           match int_checked g2 with
           | Some n => Some (true, n, g1)
           | None => None
           end
       | None => Some (true, 0%Z, field_name_full)
       end
     else Some (false, 0%Z, field_name_full))
  with
  | None => None
  | Some (is_array, array_size, field_name) =>
      let field :=
        Field.mk field_name field_type is_array array_size current_offset in
      Some (StructDef.mk (StructDef.name s) (StructDef.fields s ++ [field])
                         (StructDef.header_string s) (StructDef.size s),
            (current_offset + Field.size field)%Z)
  end.

(** The statement loop: it stops at the first statement that raises. *)
Fixpoint parse_statements_checked (statements : list str)
         (acc : StructDef.t * Z) : option (StructDef.t * Z) :=
  match statements with
  | [] => Some acc
  | stmt :: statements' =>
      match parse_statement_checked acc stmt with
      | Some acc' => parse_statements_checked statements' acc'
      | None => None
      end
  end.

Definition parse_body_checked (current_struct_name body : str)
  : option StructDef.t :=
  let s := StructDef.init current_struct_name in
  let statements := statements_of body in
  let current_offset := 0%Z in
  match parse_statements_checked statements (s, current_offset) with
  | Some (s, current_offset) =>
      Some (StructDef.mk (StructDef.name s) (StructDef.fields s)
                         (StructDef.header_string s) current_offset)
  | None => None
  end.

(** One turn of the line loop; it raises where the body of the
    declaration it closes raises. *)
Definition parse_line_checked (p : parser) (line : str) : option parser :=
  let stripped := stripped_of line in
  if is_empty stripped then Some p else
  let p :=
    if negb (in_struct p) then
      match Re.struct_start_search line with
      | Some name =>
          let brace_count := 0%Z in
          let brace_count :=
            if contains (lit "{") line
            then (brace_count + count "{"%char line - count "}"%char line)%Z
            else brace_count in
          mk_parser (structs p) true name brace_count []
      | None => p
      end
    else p in
  if in_struct p then
    let brace_count :=
      if is_empty (buffer p) && contains (current_struct_name p) line
      then (brace_count p + count "{"%char line - count "}"%char line)%Z
      else (brace_count p + count "{"%char line - count "}"%char line)%Z in
    let buffer := buffer p ++ line in
    if (brace_count =? 0)%Z
       && (contains (lit "};") line || endswith (lit "};") (strip buffer))
    then
      match find "{"%char buffer, rfind "}"%char buffer with
      | Some start, Some end_ =>
          let body := slice (start + 1) end_ buffer in
          match parse_body_checked (current_struct_name p) body with
          | Some s =>
              Some (mk_parser (structs p ++ [s]) false
                              (current_struct_name p) brace_count buffer)
          | None => None
          end
      | _, _ =>
          Some (mk_parser (structs p) false (current_struct_name p)
                          brace_count buffer)
      end
    else
      Some (mk_parser (structs p) true (current_struct_name p) brace_count
                      buffer)
  else Some p.

(** The line loop from the state [p]; it stops at the first line that
    raises. *)
Fixpoint parse_lines_from (lines : list str) (p : parser) : option parser :=
  match lines with
  | [] => Some p
  | line :: lines' =>
      match parse_line_checked p line with
      | Some p' => parse_lines_from lines' p'
      | None => None
      end
  end.

Definition parse_lines_checked (lines : list str) : option parser :=
  parse_lines_from lines parser_init.

(** [parse_header_file] with its error: [None] is the [ValueError] of
    [int]. *)
Definition parse_header_file_checked (content : str)
  : option (list StructDef.t) :=
  option_map structs (parse_lines_checked (readlines content)).

(** ** [generate_yaml] and [parse_yaml_file] *)

Module Yaml.

(** An entry of a packet's [fields] list. *)
Record field_def : Type := mk_field_def {
  name : option str;
  type : option str;
  offset : option Z
}.

(** An entry of the [packets] list. *)
Record packet : Type := mk_packet {
  id : option str;
  header_string : option str;
  size_check : option Z;
  time_field : option str;
  fields : option (list field_def)
}.

(** The document. *)
Record document : Type := mk_document {
  packets : option (list packet)
}.

End Yaml.

(** [d.get(k, default)] on a key that may be absent. *)
Definition get {V : Type} (v : option V) (default : V) : V :=
  match v with Some x => x | None => default end.

Notation "x <- a ;; b" :=
  (match a with Some x => b | None => None end)
  (at level 61, a at next level, right associativity).

(** All the results, or [None] when one element raises. *)
Fixpoint for_each {A B : Type} (f : A -> option B) (l : list A)
  : option (list B) :=
  match l with
  | [] => Some []
  | a :: l' => b <- f a ;; bs <- for_each f l' ;; Some (b :: bs)
  end.

(** The packet identifier [generate_yaml] gives a struct name. *)
Definition pkt_id_of (name : str) : str :=
  let pkt_id := name in
  if endswith (lit "Data") pkt_id
  then firstn (List.length pkt_id - 4) pkt_id
  else pkt_id.

(** The body of the loop of [generate_yaml]: the packet of one struct. *)
Definition packet_of (s : StructDef.t) : Yaml.packet :=
  let pkt_id := pkt_id_of (StructDef.name s) in
  Yaml.mk_packet
    (Some pkt_id)
    (Some (if is_empty (StructDef.header_string s) then pkt_id
           else StructDef.header_string s))
    (Some (StructDef.size s))
    (Some (lit "time"))
    (Some (map (fun f => Yaml.mk_field_def (Some (Field.name f))
                                            (Some (Field.type_name f))
                                            (Some (Field.offset f)))
               (filter (fun f => negb (eqs (Field.name f) (lit "header")))
                       (StructDef.fields s)))).

(** [generate_yaml]: the document handed to [yaml.dump]. *)
Definition generate_yaml (structs : list StructDef.t) : Yaml.document :=
  Yaml.mk_document (Some (map packet_of structs)).

(** [list.sort(key=lambda x: x.offset)]: a stable sort; here by insertion
    from the right, which keeps equal keys in their order. *)
Fixpoint insert_by_offset (f : Field.t) (l : list Field.t) : list Field.t :=
  match l with
  | [] => [f]
  | g :: l' =>
      if (Field.offset f <=? Field.offset g)%Z then f :: l
      else g :: insert_by_offset f l'
  end.

Definition sort_by_offset (l : list Field.t) : list Field.t :=
  fold_right insert_by_offset [] l.

(** [Field(f["name"], f["type"], offset=f["offset"])] *)
Definition field_of_def (f : Yaml.field_def) : option Field.t :=
  name <- Yaml.name f ;;
  type <- Yaml.type f ;;
  offset <- Yaml.offset f ;;
  Some (Field.mk name type false 0%Z offset).

(** The body of the loop of [parse_yaml_file]: the struct of one
    packet. *)
Definition struct_of_packet (pkt : Yaml.packet) : option StructDef.t :=
  id <- Yaml.id pkt ;;
  let s := StructDef.init (id ++ lit "Data") in
  let header_string := get (Yaml.header_string pkt) [] in
  fields <- for_each field_of_def (get (Yaml.fields pkt) []) ;;
  Some (StructDef.mk (StructDef.name s) (sort_by_offset fields)
                     header_string (StructDef.size s)).

(** [parse_yaml_file], on the document [yaml.safe_load] returns. *)
Definition parse_yaml_file (data : Yaml.document)
  : option (list StructDef.t) :=
  for_each struct_of_packet (get (Yaml.packets data) []).

(** ** [generate_header] *)

(** The initializer list of the header member. *)
Definition header_initializers (header_string : str) : list str :=
  map (fun c => [QUOTE] ++ [c] ++ [QUOTE]) header_string
  ++ repeat (lit "'\0'") (4 - List.length header_string).

(** What the header branch of [generate_header] writes. *)
Definition header_lines (s : StructDef.t) : list str :=
  let first_offset :=
    match StructDef.fields s with
    | f :: _ => Field.offset f
    | [] => 0%Z
    end in
  if (4 <=? first_offset)%Z && negb (is_empty (StructDef.header_string s))
  then
    let chars :=
      join (lit ", ") (header_initializers (StructDef.header_string s)) in
    [lit "    char header[4] = {" ++ chars ++ lit "};" ++ [LF]]
  else [].

(** What [generate_header] writes for one struct. *)
Definition struct_lines (s : StructDef.t) : list str :=
  [lit "struct __attribute__((packed)) " ++ StructDef.name s ++ [LF];
   lit "{" ++ [LF]]
  ++ header_lines s
  ++ map (fun field => lit "    " ++ Field.type_name field ++ [SP]
                       ++ Field.name field ++ lit ";" ++ [LF])
         (StructDef.fields s)
  ++ [lit "};" ++ [LF; LF]].

(** [generate_header]: the strings written, in order. *)
Definition generate_header_writes (structs : list StructDef.t) : list str :=
  [lit "#pragma once" ++ [LF]; lit "#include <cstdint>" ++ [LF; LF]]
  ++ flat_map struct_lines structs.

(** [generate_header]: the text of the file written. *)
Definition generate_header (structs : list StructDef.t) : str :=
  concat (generate_header_writes structs).

(** ** The round trip of a header through a schema and back *)

Definition round_trip (content : str) : option (list StructDef.t) :=
  ss <- parse_yaml_file (generate_yaml (parse_header_file content)) ;;
  Some (parse_header_file (generate_header ss)).

(** ** Notions the properties are stated with *)

(** The sum of the sizes of a list of fields. *)
Definition sum_sizes (l : list Field.t) : Z :=
  fold_right (fun f a => (Field.size f + a)%Z) 0%Z l.

(** The field is named [header]. *)
Definition is_header (f : Field.t) : bool := eqs (Field.name f) (lit "header").

(** Each field starts where the one before it ends, the first one at
    [o]. *)
Fixpoint packed_from (o : Z) (l : list Field.t) : Prop :=
  match l with
  | [] => True
  | f :: l' => Field.offset f = o /\ packed_from (o + Field.size f)%Z l'
  end.

(** The fields at a given offset, in their order. *)
Definition at_offset (o : Z) (l : list Field.t) : list Field.t :=
  filter (fun f => (Field.offset f =? o)%Z) l.

(** The input ends inside a declaration. *)
Definition unterminated (content : str) : Prop :=
  in_struct (parse_lines (readlines content)) = true.

(** The first field starts at byte 4 or later. *)
Definition first_offset_ge_4 (s : StructDef.t) : Prop :=
  exists f rest, StructDef.fields s = f :: rest /\ (4 <= Field.offset f)%Z.

(** What [parse_yaml_file] reads back of a struct that [generate_yaml]
    wrote. *)
Definition through_schema (s : StructDef.t) : StructDef.t :=
  let pkt_id := pkt_id_of (StructDef.name s) in
  StructDef.mk
    (pkt_id ++ lit "Data")
    (sort_by_offset
       (map (fun f => Field.mk (Field.name f) (Field.type_name f) false 0%Z
                               (Field.offset f))
            (filter (fun f => negb (is_header f)) (StructDef.fields s))))
    (if is_empty (StructDef.header_string s) then pkt_id
     else StructDef.header_string s)
    0%Z.

(** The size the specification gives a parsed record: 4 for the header
    when there is a tag, and the fields that are not the header. *)
Definition spec_total_size (s : StructDef.t) : Z :=
  ((if is_empty (StructDef.header_string s) then 0 else 4)
   + sum_sizes (filter (fun f => negb (is_header f)) (StructDef.fields s)))%Z.

(** *** The statement loop *)

(** The statement passes the header test of the statement loop. *)
Definition sets_header (stmt : str) : bool :=
  negb (is_empty stmt)
  && contains (lit "header[") (replace LF SP stmt)
  && contains (lit "=") (replace LF SP stmt).

(** The tag a statement holds: its one-character literals between single
    quotes, joined, without null characters. *)
Definition tag_of (stmt : str) : str :=
  remove NUL (Re.findall_char_literals (replace LF SP stmt)).

(** The statement without its initializer. *)
Definition declarator (stmt : str) : str :=
  hd [] (split "="%char (replace LF SP stmt)).

(** *** What the parser builds *)

(** A token of [str.split()]: not empty, no white space. *)
Definition token_ok (t : str) : Prop :=
  t <> [] /\ Forall (fun c => isspace c = false) t.

(** A type name as the parser builds it: tokens joined by one space. *)
Definition type_ok (ty : str) : Prop :=
  exists tokens,
    tokens <> [] /\ Forall token_ok tokens /\ ty = join [SP] tokens.

(** The field the parser builds from the tokens of a declarator. *)
Definition field_of_parts (parts : list str) (current_offset : Z) : Field.t :=
  let field_name_full := last parts [] in
  let field_type := join [SP] (removelast parts) in
  if contains (lit "[") field_name_full then
    match Re.array_name_search field_name_full with
    | Some (g1, g2) => Field.mk g1 field_type true (int g2) current_offset
    | None => Field.mk field_name_full field_type true 0%Z current_offset
    end
  else Field.mk field_name_full field_type false 0%Z current_offset.

(** What holds of every field the parser builds. *)
Definition field_parsed (f : Field.t) : Prop :=
  type_ok (Field.type_name f)
  /\ Forall (fun c => c <> ";"%char /\ c <> "="%char) (Field.type_name f)
  /\ Forall (fun c => c <> ";"%char /\ c <> "="%char) (Field.name f)
  /\ (Field.is_array f = false ->
      token_ok (Field.name f)
      /\ contains (lit "[") (Field.name f) = false
      /\ Field.array_size f = 0%Z).

(** What holds of every tag the parser extracts. *)
Definition tag_parsed (tag : str) : Prop :=
  Forall (fun c => c <> QUOTE /\ c <> NUL /\ c <> ";"%char
                   /\ c <> LF /\ c <> CR) tag.

(** What holds of every struct name the parser captures. *)
Definition name_parsed (name : str) : Prop :=
  name <> [] /\ Forall (fun c => isword c = true) name.

(** What holds of every struct the parser returns. *)
Definition struct_parsed (s : StructDef.t) : Prop :=
  name_parsed (StructDef.name s)
  /\ Forall field_parsed (StructDef.fields s)
  /\ tag_parsed (StructDef.header_string s)
  /\ packed_from 0 (StructDef.fields s)
  /\ StructDef.size s = sum_sizes (StructDef.fields s)
  /\ Forall (fun f => (0 <= Field.size f)%Z) (StructDef.fields s).

(** *** The written file, line by line *)

(** The line [generate_header] writes to open a struct. *)
Definition struct_line (name : str) : str :=
  lit "struct __attribute__((packed)) " ++ name ++ [LF].

(** The line [generate_header] writes for a member. *)
Definition stmt_line (x : str) : str := lit "    " ++ x ++ lit ";" ++ [LF].

(** The lines [generate_header] writes for a struct, given its
    members. *)
Definition block_lines (name : str) (stmts : list str) : list str :=
  [struct_line name; lit "{" ++ [LF]]
  ++ map stmt_line stmts
  ++ [lit "};" ++ [LF]; [LF]].

(** A member that reads back as one statement: it starts and ends with
    a character that is not white space, does not start a comment, holds
    no statement or line end, and as many opening as closing braces. *)
Definition stmt_ok (x : str) : Prop :=
  (exists c t, x = c :: t /\ isspace c = false)
  /\ rstrip x = x
  /\ startswith (lit "//") x = false
  /\ Forall (fun c => c <> ";"%char /\ c <> LF /\ c <> CR) x
  /\ count "{"%char x = count "}"%char x.

(** The statement of a field, as [generate_header] writes it. *)
Definition decl_stmt (f : Field.t) : str :=
  Field.type_name f ++ [SP] ++ Field.name f.

(** The statement of the header member, as [generate_header] writes
    it. *)
Definition header_stmt (tag : str) : str :=
  lit "char header[4] = {" ++ join (lit ", ") (header_initializers tag)
  ++ lit "}".

(** A line, as a file holds it. *)
Definition line_ok (line : str) : Prop :=
  exists l, line = l ++ [LF] /\ Forall (fun c => c <> LF /\ c <> CR) l.

(** The members [generate_header] writes for a struct: the header
    member when it writes one, then the fields. *)
Definition members (s : StructDef.t) : list str :=
  match header_lines s with
  | [] => []
  | _ :: _ => [header_stmt (StructDef.header_string s)]
  end
  ++ map decl_stmt (StructDef.fields s).

(** What the parser reads in the lines of a written struct. *)
Definition reparsed (s : StructDef.t) : StructDef.t :=
  parse_body (StructDef.name s) (LF :: concat (map stmt_line (members s))).

(** The lines of the file [generate_header] writes. *)
Definition generated_lines (structs : list StructDef.t) : list str :=
  [lit "#pragma once" ++ [LF]; lit "#include <cstdint>" ++ [LF]; [LF]]
  ++ flat_map (fun s => block_lines (StructDef.name s) (members s)) structs.

(** *** The structs that survive the round trip *)

(** No brace in the string. *)
Definition brace_free (s : str) : bool :=
  forallb (fun c => negb (Ascii.eqb c "{") && negb (Ascii.eqb c "}")) s.

(** A field that survives the round trip: not an array, not named
    [header], its type not starting a comment, no brace in its type or
    its name. *)
Definition plain_field (f : Field.t) : bool :=
  negb (Field.is_array f) && negb (is_header f)
  && negb (startswith (lit "//") (Field.type_name f))
  && brace_free (Field.type_name f) && brace_free (Field.name f).

(** The header member as the round trip restores it: an array named
    [header] of 4 bytes. *)
Definition leading_header (f : Field.t) : bool :=
  is_header f && Field.is_array f && (Field.size f =? 4)%Z.

(** A struct that survives the round trip: its name ends in [Data];
    without a tag all its fields are plain; with a tag, which holds no
    brace, its first field is the header member and the others, at least
    one, are plain. *)
Definition round_trip_ready (s : StructDef.t) : bool :=
  endswith (lit "Data") (StructDef.name s)
  && if is_empty (StructDef.header_string s)
     then forallb plain_field (StructDef.fields s)
     else match StructDef.fields s with
          | h :: rest =>
              leading_header h
              && negb (match rest with [] => true | _ :: _ => false end)
              && forallb plain_field rest
              && brace_free (StructDef.header_string s)
          | [] => false
          end.

(** What the round trip is to keep of a field that is not an array. *)
Definition field_key (f : Field.t) : str * str * Z :=
  (Field.name f, Field.type_name f, Field.offset f).

Definition plain_keys (s : StructDef.t) : list (str * str * Z) :=
  map field_key (filter (fun f => negb (Field.is_array f)) (StructDef.fields s)).

(** What the round trip is to keep of a struct. *)
Definition same_layout (s s' : StructDef.t) : Prop :=
  StructDef.name s = StructDef.name s'
  /\ StructDef.header_string s = StructDef.header_string s'
  /\ plain_keys s = plain_keys s'
  /\ StructDef.size s = StructDef.size s'.

(** *** Loop invariants *)

(** What the statement loop keeps true of the struct being built. *)
Definition body_inv (acc : StructDef.t * Z) : Prop :=
  let (s, current_offset) := acc in
  packed_from 0 (StructDef.fields s)
  /\ current_offset = sum_sizes (StructDef.fields s)
  /\ Forall (fun f => (0 <= Field.size f)%Z) (StructDef.fields s).

(** The order of [list.sort(key=lambda x: x.offset)]. *)
Definition le_offset (f g : Field.t) : Prop :=
  (Field.offset f <= Field.offset g)%Z.

(** What the line loop keeps true. *)
Definition loop_parsed (p : parser) : Prop :=
  Forall struct_parsed (structs p)
  /\ (in_struct p = true ->
      name_parsed (current_struct_name p)
      /\ Forall (fun c => c <> CR) (buffer p)).

(** *** Sample inputs *)

Definition frame_header : str :=
  lit "struct __attribute__((packed)) Frame { char header[4] = {'F','R','M','\0'}; uint8_t payload[8]; uint32_t crc; };".

Definition my_header_header : str :=
  lit "struct __attribute__((packed)) TagData { char header[4] = {'X'}; char my_header[2] = {'A','B'}; int x; };".

Definition shuffled_document : Yaml.document :=
  Yaml.mk_document (Some [
    Yaml.mk_packet (Some (lit "S")) None (Some 12%Z) None
      (Some [ Yaml.mk_field_def (Some (lit "c")) (Some (lit "int")) (Some 8%Z);
              Yaml.mk_field_def (Some (lit "a")) (Some (lit "int")) (Some 4%Z);
              Yaml.mk_field_def (Some (lit "b")) (Some (lit "int"))
                                (Some 4%Z) ]) ]).

Definition shuffled_struct : StructDef.t :=
  StructDef.mk (lit "SData")
    [ Field.mk (lit "a") (lit "int") false 0%Z 4%Z;
      Field.mk (lit "b") (lit "int") false 0%Z 4%Z;
      Field.mk (lit "c") (lit "int") false 0%Z 8%Z ] [] 0%Z.

Definition imu_header : str :=
  lit "struct __attribute__((packed)) IMUData { char header[4] = {'I','M','U','\0'}; float accel_x; float accel_y; uint32_t timestamp; };".

Definition ping_header : str :=
  lit "struct __attribute__((packed)) PingData { char header[4]; float x; };".

Definition open_header : str :=
  lit "struct __attribute__((packed)) AData" ++ [LF]
  ++ lit "{" ++ [LF]
  ++ lit "    int x;" ++ [LF]
  ++ lit "};" ++ [LF]
  ++ lit "struct __attribute__((packed)) BData" ++ [LF]
  ++ lit "{" ++ [LF]
  ++ lit "    int y;" ++ [LF].

Definition gps_document : Yaml.document :=
  Yaml.mk_document (Some [
    Yaml.mk_packet (Some (lit "GPS")) None (Some 16%Z) None
      (Some [ Yaml.mk_field_def (Some (lit "lat")) (Some (lit "double"))
                                (Some 0%Z);
              Yaml.mk_field_def (Some (lit "lon")) (Some (lit "double"))
                                (Some 8%Z) ]) ]).

Definition brace_on_struct_line_header : str :=
  lit "struct __attribute__((packed)) IMUData {" ++ [LF]
  ++ lit "    float x;" ++ [LF]
  ++ lit "};" ++ [LF].

Definition comment_header : str :=
  lit "struct __attribute__((packed)) IMUData" ++ [LF]
  ++ lit "{" ++ [LF]
  ++ lit "    float x; // first" ++ [LF]
  ++ lit "    float y;" ++ [LF]
  ++ lit "};" ++ [LF].

Definition lone_header_header : str :=
  lit "struct __attribute__((packed)) TagData { char header[4] = {'T'}; };".

Definition two_structs_header : str :=
  lit "#pragma once" ++ [LF]
  ++ lit "// telemetry" ++ [LF]
  ++ lit "struct __attribute__((packed)) IMUData" ++ [LF]
  ++ lit "{" ++ [LF]
  ++ lit "    char header[4] = {'I', 'M', 'U', '\0'};" ++ [LF]
  ++ lit "    unsigned int seq;" ++ [LF]
  ++ lit "    float x;" ++ [LF]
  ++ lit "};" ++ [LF]
  ++ [LF]
  ++ lit "struct __attribute__((packed)) GPSData" ++ [LF]
  ++ lit "{" ++ [LF]
  ++ lit "    double lat;" ++ [LF]
  ++ lit "    double lon;" ++ [LF]
  ++ lit "};" ++ [LF].

Definition imu_struct : StructDef.t :=
  hd (StructDef.init []) (parse_header_file imu_header).

Definition gps_struct : StructDef.t :=
  StructDef.mk (lit "GPSData")
    [ Field.mk (lit "lat") (lit "double") false 0%Z 0%Z;
      Field.mk (lit "lon") (lit "double") false 0%Z 8%Z ] [] 0%Z.

Definition sensor_header : str :=
  lit "struct __attribute__((packed)) SensorData { char header[4]; float x; };".

(** The struct [parse_yaml_file] reads back from the schema of
    [sensor_header]: without a tag, [generate_yaml] writes the packet
    identifier as the header string. *)
Definition sensor_struct : StructDef.t :=
  StructDef.mk (lit "SensorData")
    [Field.mk (lit "x") (lit "float") false 0%Z 4%Z] (lit "Sensor") 0%Z.

(** Every key that [parse_yaml_file] subscripts is there. *)
Definition well_keyed (data : Yaml.document) : Prop :=
  forall pkt, In pkt (get (Yaml.packets data) []) ->
    Yaml.id pkt <> None
    /\ forall d, In d (get (Yaml.fields pkt) []) ->
          Yaml.name d <> None /\ Yaml.type d <> None
          /\ Yaml.offset d <> None.

(** *** Notions of the further properties *)

(** The names the loop holds are captures of the start pattern in lines
    it has read. *)
Definition names_from (seen : list str) (p : parser) : Prop :=
  (forall s, In s (structs p) ->
     exists line, In line seen
                  /\ Re.struct_start_search line = Some (StructDef.name s))
  /\ (in_struct p = true ->
      exists line, In line seen
                   /\ Re.struct_start_search line
                      = Some (current_struct_name p)).

Definition plain_struct_header : str :=
  lit "struct GPSData" ++ [LF]
  ++ lit "{" ++ [LF]
  ++ lit "    double lat;" ++ [LF]
  ++ lit "};" ++ [LF].

(** The text is empty or ends with a line feed. *)
Definition ends_with_newline (a : str) : Prop := last a LF = LF.

(** The line is blank, or a comment from its first character that is not
    white space. *)
Definition blank_or_comment (line : str) : bool :=
  forallb isspace line || startswith (lit "//") (lstrip line).



(** A struct as [generate_header] sees it: it reads neither the array
    shape of a field nor the size of the struct. *)
Definition forget_arrays (s : StructDef.t) : StructDef.t :=
  StructDef.mk (StructDef.name s)
    (map (fun f => Field.mk (Field.name f) (Field.type_name f) false 0%Z
                            (Field.offset f)) (StructDef.fields s))
    (StructDef.header_string s) 0%Z.

(** The fields as [parse_header_file] lays them out again from [o]:
    scalars of the width of their type, one after the other. *)
Fixpoint repack (o : Z) (l : list Field.t) : list Field.t :=
  match l with
  | [] => []
  | f :: l' =>
      let g := Field.mk (Field.name f) (Field.type_name f) false 0%Z o in
      g :: repack (o + Field.size g)%Z l'
  end.

(** What reads back from the declaration [generate_header] writes for a
    struct: with the header member and the tag where it wrote one, and
    without a tag where it did not. *)
Definition read_back (s : StructDef.t) : StructDef.t :=
  match header_lines s with
  | [] =>
      let l := repack 0 (StructDef.fields s) in
      StructDef.mk (StructDef.name s) l [] (sum_sizes l)
  | _ :: _ =>
      let l := Field.mk (lit "header") (lit "char") true 4%Z 0%Z
               :: repack 4 (StructDef.fields s) in
      StructDef.mk (StructDef.name s) l (StructDef.header_string s)
                   (sum_sizes l)
  end.

(** No character of [s] is one of [cs]. *)
Definition none_of (cs : list ascii) (s : str) : bool :=
  forallb (fun c => negb (existsb (Ascii.eqb c) cs)) s.

(** A type and a name that a member declaration can carry: the type is
    words with one space between them, the name is one word, and
    neither holds a character that ends or splits the declaration. *)
Definition field_writable (f : Field.t) : bool :=
  let ty := Field.type_name f in
  let n := Field.name f in
  negb (is_empty ty)
  && eqs (join [SP] (split_ws ty)) ty
  && negb (startswith (lit "//") ty)
  && none_of [";"; "="; "{"; "}"]%char ty
  && negb (is_empty n)
  && forallb (fun c => negb (isspace c)) n
  && none_of [";"; "="; "{"; "}"; "["]%char n.

(** A struct whose declaration reads back: a name of word characters,
    fields that can be written, and, where the header member is
    written, a tag whose characters can stand in a character literal. *)
Definition struct_writable (s : StructDef.t) : bool :=
  negb (is_empty (StructDef.name s))
  && forallb isword (StructDef.name s)
  && forallb field_writable (StructDef.fields s)
  && match header_lines s with
     | [] => true
     | _ :: _ =>
         none_of [QUOTE; NUL; ";"; LF; CR; "{"; "}"]%char
                 (StructDef.header_string s)
     end.

(** A schema struct with a gap before its second field and an array. *)
Definition gapped_struct : StructDef.t :=
  StructDef.mk (lit "GPSData")
    [ Field.mk (lit "lat") (lit "double") false 0%Z 4%Z;
      Field.mk (lit "raw") (lit "unsigned char") true 8%Z 16%Z;
      Field.mk (lit "fix") (lit "int") false 0%Z 24%Z ]
    (lit "GPS") 0%Z.

(** A header member in the style of the specification's example, with a
    tag of two characters and two null-character literals. *)
Definition escaped_nul_header : str :=
  lit "struct __attribute__((packed)) ABData" ++ [LF]
  ++ lit "{" ++ [LF]
  ++ lit "    char header[4] = {'A','B','\0','\0'};" ++ [LF]
  ++ lit "    float x;" ++ [LF]
  ++ lit "};" ++ [LF].

(** ** Lemmas on the parser *)

Section ParserInvariants.

Lemma span_forall (p : ascii -> bool) (s a b : str) :
  span p s = (a, b) -> Forall (fun c => p c = true) a /\ s = a ++ b.
Proof.
  revert a b; induction s as [|c s IH]; simpl; intros a b H.
  - inversion H; subst; split; [constructor | reflexivity].
  - destruct (p c) eqn:Hc.
    + destruct (span p s) as [a' b'] eqn:Hs.
      inversion H; subst.
      destruct (IH _ _ eq_refl) as [Ha ->].
      split; [constructor; assumption | reflexivity].
    + inversion H; subst; split; [constructor | reflexivity].
Qed.

Lemma int_digits_nonneg_from (s : str) (n : Z) :
  Forall (fun c => isdigit c = true) s -> (0 <= n)%Z ->
  (0 <= fold_left (fun n c => 10 * n + (Z.of_nat (code c) - 48)) s n)%Z.
Proof.
  intros H; revert n; induction H as [|c s Hc _ IH];
    cbn [fold_left]; intros n Hn.
  - assumption.
  - apply IH.
    unfold isdigit, between in Hc.
    apply andb_prop in Hc; destruct Hc as [Hlo _].
    apply Nat.leb_le in Hlo. lia.
Qed.

Lemma int_digits_nonneg (s : str) :
  Forall (fun c => isdigit c = true) s -> (0 <= int s)%Z.
Proof. intros H; apply int_digits_nonneg_from; [assumption | lia]. Qed.

Lemma array_name_at_digits (s g1 g2 : str) :
  Re.array_name_at s = Some (g1, g2) ->
  Forall (fun c => isdigit c = true) g2.
Proof.
  unfold Re.array_name_at.
  destruct (span isword s) as [w r] eqn:Hw.
  destruct (is_empty w); [discriminate|].
  destruct r as [|b r']; [discriminate|].
  destruct (Ascii.eqb b "[")%char; [|discriminate].
  destruct (span isdigit r') as [d r''] eqn:Hd.
  destruct (is_empty d); [discriminate|].
  destruct r'' as [|e r3]; [discriminate|].
  destruct (Ascii.eqb e "]")%char; [|discriminate].
  intros H; inversion H; subst.
  apply (span_forall _ _ _ _ Hd).
Qed.

Lemma array_name_search_digits (s g1 g2 : str) :
  Re.array_name_search s = Some (g1, g2) ->
  Forall (fun c => isdigit c = true) g2.
Proof.
  induction s as [|c s IH]; cbn [Re.array_name_search].
  - discriminate.
  - destruct (Re.array_name_at (c :: s)) as [[a b]|] eqn:H.
    + intros E; inversion E; subst. eapply array_name_at_digits; eassumption.
    + assumption.
Qed.

Lemma dict_get_pos (d : list (str * Z)) (k : str) (default : Z) :
  Forall (fun kv => (0 < snd kv)%Z) d -> (0 < default)%Z ->
  (0 < dict_get d k default)%Z.
Proof.
  intros H Hd; induction H as [|[k' v] d Hv _ IH]; simpl.
  - assumption.
  - destruct (eqs k' k); [exact Hv | exact IH].
Qed.

Lemma base_size_pos (ty : str) : (0 < dict_get TYPE_SIZES ty 1)%Z.
Proof.
  apply dict_get_pos; [|lia].
  unfold TYPE_SIZES; repeat constructor.
Qed.

Lemma sum_sizes_app (l1 l2 : list Field.t) :
  sum_sizes (l1 ++ l2) = (sum_sizes l1 + sum_sizes l2)%Z.
Proof.
  induction l1 as [|f l1 IH]; simpl; [reflexivity|].
  unfold sum_sizes in *; simpl; rewrite IH; lia.
Qed.

Lemma packed_from_app (o : Z) (l1 l2 : list Field.t) :
  packed_from o (l1 ++ l2) <->
  packed_from o l1 /\ packed_from (o + sum_sizes l1)%Z l2.
Proof.
  revert o; induction l1 as [|f l1 IH]; simpl; intros o.
  - replace (o + 0)%Z with o by lia. tauto.
  - rewrite IH.
    replace (o + Field.size f + sum_sizes l1)%Z
      with (o + (Field.size f + sum_sizes l1))%Z by lia.
    unfold sum_sizes at 2; simpl. fold (sum_sizes l1). tauto.
Qed.

Lemma parse_statement_inv (acc : StructDef.t * Z) (stmt : str) :
  body_inv acc -> body_inv (parse_statement acc stmt).
Proof.
  destruct acc as [s off]. unfold parse_statement.
  destruct (is_empty stmt); [tauto|].
  set (st := replace LF SP stmt).
  set (s1 := if contains (lit "header[") st && contains (lit "=") st
             then _ else s).
  assert (Hf : StructDef.fields s1 = StructDef.fields s)
    by (unfold s1; destruct (_ && _); reflexivity).
  set (parts := split_ws _).
  intros (Hp & Ho & Hs).
  destruct (List.length parts <? 2)%nat.
  - unfold body_inv. rewrite Hf. tauto.
  - set (full := last parts []).
    assert (Hsz : forall nm ty (b : bool) (n : Z), (0 <= n)%Z ->
               (0 <= Field.size (Field.mk nm ty b n off))%Z).
    { intros nm ty b n Hn. unfold Field.size.
      cbn [Field.type_name Field.is_array Field.array_size].
      pose proof (base_size_pos ty). destruct b; nia. }
    assert (Hgen : forall f, Field.offset f = off -> (0 <= Field.size f)%Z ->
               body_inv
                 (StructDef.mk (StructDef.name s1)
                    (StructDef.fields s1 ++ [f])
                    (StructDef.header_string s1) (StructDef.size s1),
                  (off + Field.size f)%Z)).
    { intros f Hfo Hfs. unfold body_inv; simpl. rewrite Hf.
      split; [|split].
      - apply packed_from_app. split; [assumption|].
        simpl. split; [lia | exact I].
      - rewrite sum_sizes_app. unfold sum_sizes at 2; simpl.
        fold (sum_sizes (StructDef.fields s)). lia.
      - apply Forall_app; split; [assumption|].
        constructor; [assumption | constructor]. }
    destruct (contains (lit "[") full).
    + destruct (Re.array_name_search full) as [[g1 g2]|] eqn:Hm.
      * apply Hgen; [reflexivity|]. apply Hsz.
        apply int_digits_nonneg.
        eapply array_name_search_digits; eassumption.
      * apply Hgen; [reflexivity|]. apply Hsz. lia.
    + apply Hgen; [reflexivity|]. apply Hsz. lia.
Qed.

Lemma parse_statements_inv (stmts : list str) (acc : StructDef.t * Z) :
  body_inv acc -> body_inv (fold_left parse_statement stmts acc).
Proof.
  revert acc; induction stmts as [|st stmts IH]; simpl; intros acc H.
  - assumption.
  - apply IH, parse_statement_inv, H.
Qed.

(** The struct of a body: its fields are packed from 0, its size is the
    sum of their sizes, and no size is negative. *)
Lemma parse_body_inv (name body : str) :
  let s := parse_body name body in
  packed_from 0 (StructDef.fields s)
  /\ StructDef.size s = sum_sizes (StructDef.fields s)
  /\ Forall (fun f => (0 <= Field.size f)%Z) (StructDef.fields s).
Proof.
  unfold parse_body.
  pose proof (@parse_statements_inv (statements_of body)
                (StructDef.init name, 0%Z)) as H.
  destruct (fold_left parse_statement (statements_of body)
              (StructDef.init name, 0%Z)) as [s off].
  simpl. apply H. unfold body_inv; simpl.
  split; [exact I | split; [reflexivity | constructor]].
Qed.

End ParserInvariants.

Section LineLoop.

Ltac break_if :=
  match goal with
  | |- context [if ?b then _ else _] => destruct b eqn:?
  | |- context [match ?x with Some _ => _ | None => _ end] =>
      destruct x eqn:?
  end.

(** A turn of the loop leaves the structs alone or adds the struct of a
    body, and it adds one only when it leaves the declaration. *)
Lemma parse_line_structs (p : parser) (line : str) :
  structs (parse_line p line) = structs p
  \/ (in_struct (parse_line p line) = false
      /\ exists name body,
           structs (parse_line p line) = structs p ++ [parse_body name body]).
Proof.
  unfold parse_line.
  repeat (break_if; cbn [structs in_struct current_struct_name buffer
                         brace_count]);
    try (left; reflexivity);
    right; (split; [reflexivity | eauto]).
Qed.

Lemma parse_line_open (p : parser) (line : str) :
  in_struct (parse_line p line) = true ->
  structs (parse_line p line) = structs p.
Proof.
  intros H. destruct (parse_line_structs p line) as [E | [E _]].
  - exact E.
  - congruence.
Qed.

Lemma fold_parse_line_snoc (lines : list str) (line : str) (p : parser) :
  fold_left parse_line (lines ++ [line]) p
  = parse_line (fold_left parse_line lines p) line.
Proof. rewrite fold_left_app. reflexivity. Qed.

(** Every struct the loop returns was there before or is the struct of
    a body. *)
Lemma parse_lines_structs (lines : list str) (p : parser) (s : StructDef.t) :
  In s (structs (fold_left parse_line lines p)) ->
  In s (structs p) \/ exists name body, s = parse_body name body.
Proof.
  revert p; induction lines as [|line lines IH]; simpl; intros p H.
  - left; assumption.
  - destruct (IH _ H) as [Hin | Hex]; [|right; assumption].
    destruct (parse_line_structs p line) as [E | [_ (n & b & E)]].
    + rewrite E in Hin. left; assumption.
    + rewrite E in Hin. apply in_app_or in Hin.
      destruct Hin as [Hin | [<- | []]]; [left; assumption|].
      right; eauto.
Qed.

Lemma parse_header_file_structs (content : str) (s : StructDef.t) :
  In s (parse_header_file content) ->
  exists name body, s = parse_body name body.
Proof.
  intros H. apply parse_lines_structs in H.
  destruct H as [[] | H]. exact H.
Qed.

(** When the loop ends inside a declaration, the lines split before the
    line that opened it, and the structs are those of the lines before
    it. *)
Lemma open_at_end (lines : list str) :
  in_struct (parse_lines lines) = true ->
  exists before opening rest,
    lines = before ++ opening :: rest
    /\ in_struct (parse_lines before) = false
    /\ Re.struct_start_search opening <> None
    /\ structs (parse_lines lines) = structs (parse_lines before).
Proof.
  unfold parse_lines.
  induction lines as [|line lines IH] using rev_ind; simpl.
  - discriminate.
  - rewrite fold_parse_line_snoc. intros H.
    pose proof (parse_line_open _ _ H) as Hs.
    destruct (in_struct (fold_left parse_line lines parser_init)) eqn:Hin.
    + destruct (IH eq_refl) as (b & o & r & -> & Hb & Ho & Hst).
      exists b, o, (r ++ [line]).
      rewrite <- app_assoc. simpl.
      repeat split; try assumption. congruence.
    + exists lines, line, [].
      repeat split; try assumption.
      intros Hnone. revert H.
      set (q := fold_left parse_line lines parser_init) in *.
      unfold parse_line.
      rewrite Hin, Hnone. cbn [negb]. rewrite ?Hin.
      break_if; congruence.
Qed.

End LineLoop.

(** ** Lemmas on strings *)

Section Strings.

Lemma startswith_app (p s : str) :
  startswith p s = true <-> exists r, s = p ++ r.
Proof.
  revert s; induction p as [|a p IH]; intros s; simpl.
  - split; [intros _; exists s; reflexivity | reflexivity].
  - destruct s as [|b s].
    + split; [discriminate | intros [r H]; discriminate].
    + rewrite andb_true_iff, IH. split.
      * intros [Hab [r ->]]. apply Ascii.eqb_eq in Hab. subst.
        exists r; reflexivity.
      * intros [r H]. inversion H; subst.
        split; [apply Ascii.eqb_refl | exists r; reflexivity].
Qed.

Lemma endswith_app (p s : str) :
  endswith p s = true <-> exists r, s = r ++ p.
Proof.
  unfold endswith. rewrite startswith_app. split.
  - intros [r H]. exists (rev r).
    rewrite <- (rev_involutive s), H, rev_app_distr, rev_involutive.
    reflexivity.
  - intros [r ->]. exists (rev r). apply rev_app_distr.
Qed.

Lemma eqs_eq (a b : str) : eqs a b = true <-> a = b.
Proof.
  unfold eqs. destruct (list_eq_dec ascii_dec a b); split;
    congruence || discriminate.
Qed.

(** Stripping the suffix and putting it back. *)
Lemma pkt_id_of_Data (name : str) :
  pkt_id_of name ++ lit "Data"
  = if endswith (lit "Data") name then name else name ++ lit "Data".
Proof.
  unfold pkt_id_of. destruct (endswith (lit "Data") name) eqn:E.
  - apply endswith_app in E. destruct E as [r ->].
    rewrite length_app. simpl List.length.
    replace (List.length r + 4 - 4)%nat with (List.length r + 0)%nat by lia.
    rewrite firstn_app_2. simpl. rewrite app_nil_r. reflexivity.
  - reflexivity.
Qed.

End Strings.

(** ** Lemmas on the schema passes *)

Section Schema.

Lemma insert_by_offset_perm (f : Field.t) (l : list Field.t) :
  Permutation (f :: l) (insert_by_offset f l).
Proof.
  induction l as [|g l IH]; simpl.
  - apply Permutation_refl.
  - destruct (Field.offset f <=? Field.offset g)%Z.
    + apply Permutation_refl.
    + eapply Permutation_trans; [apply perm_swap|].
      apply perm_skip, IH.
Qed.

Lemma insert_by_offset_sorted (f : Field.t) (l : list Field.t) :
  Sorted le_offset l -> Sorted le_offset (insert_by_offset f l).
Proof.
  induction l as [|g l IH]; simpl; intros H.
  - repeat constructor.
  - destruct (Field.offset f <=? Field.offset g)%Z eqn:E.
    + constructor; [assumption|]. constructor.
      apply Z.leb_le in E. exact E.
    + apply Z.leb_gt in E. inversion H as [|? ? Hs Hh]; subst.
      constructor; [apply IH; assumption|].
      destruct l as [|h l]; simpl.
      * constructor. unfold le_offset; lia.
      * destruct (Field.offset f <=? Field.offset h)%Z.
        -- constructor. unfold le_offset; lia.
        -- inversion Hh; subst. constructor; assumption.
Qed.

Lemma insert_by_offset_at (o : Z) (f : Field.t) (l : list Field.t) :
  at_offset o (insert_by_offset f l) = at_offset o (f :: l).
Proof.
  induction l as [|g l IH]; simpl; [reflexivity|].
  destruct (Field.offset f <=? Field.offset g)%Z eqn:E; [reflexivity|].
  apply Z.leb_gt in E. simpl in *. rewrite IH.
  destruct (Field.offset f =? o)%Z eqn:Ef;
    destruct (Field.offset g =? o)%Z eqn:Eg; try reflexivity.
  apply Z.eqb_eq in Ef, Eg. lia.
Qed.

Lemma sort_by_offset_perm (l : list Field.t) :
  Permutation l (sort_by_offset l).
Proof.
  induction l as [|f l IH]; simpl; [constructor|].
  eapply Permutation_trans; [apply perm_skip, IH|].
  apply insert_by_offset_perm.
Qed.

Lemma sort_by_offset_sorted (l : list Field.t) :
  Sorted le_offset (sort_by_offset l).
Proof.
  induction l as [|f l IH]; simpl; [constructor|].
  apply insert_by_offset_sorted, IH.
Qed.

Lemma sort_by_offset_stable (o : Z) (l : list Field.t) :
  at_offset o (sort_by_offset l) = at_offset o l.
Proof.
  induction l as [|f l IH]; simpl; [reflexivity|].
  rewrite insert_by_offset_at. simpl. rewrite IH. reflexivity.
Qed.

Lemma for_each_Forall2 {A B : Type} (f : A -> option B) (l : list A)
      (bs : list B) :
  for_each f l = Some bs -> Forall2 (fun a b => f a = Some b) l bs.
Proof.
  revert bs; induction l as [|a l IH]; simpl; intros bs H.
  - inversion H; constructor.
  - destruct (f a) as [b|] eqn:Ea; [|discriminate].
    destruct (for_each f l) as [bs'|]; [|discriminate].
    inversion H; subst. constructor; [assumption | apply IH; reflexivity].
Qed.

Lemma for_each_map {A B : Type} (f : A -> option B) (g : A -> B)
      (l : list A) :
  (forall a, In a l -> f a = Some (g a)) -> for_each f l = Some (map g l).
Proof.
  induction l as [|a l IH]; simpl; intros H; [reflexivity|].
  rewrite (H a (or_introl eq_refl)), IH by auto. reflexivity.
Qed.

Lemma for_each_returns {A B : Type} (f : A -> option B) (l : list A) :
  (forall a, In a l -> f a <> None) -> for_each f l <> None.
Proof.
induction l as [|a l IH]; simpl; intros H; [discriminate|].
destruct (f a) eqn:Ea; [|destruct (H a (or_introl eq_refl) Ea)].
destruct (for_each f l); [discriminate|].
apply IH. intros x Hx. apply H. right; exact Hx.
Qed.

(** [parse_yaml_file] returns when the keys it subscripts are there. *)
Lemma parse_yaml_file_returns (data : Yaml.document) :
  well_keyed data -> parse_yaml_file data <> None.
Proof.
intros H. unfold parse_yaml_file. apply for_each_returns.
intros pkt Hp. destruct (H pkt Hp) as [Hid Hf].
unfold struct_of_packet.
destruct (Yaml.id pkt); [|congruence].
destruct (for_each field_of_def (get (Yaml.fields pkt) [])) eqn:E;
  [discriminate|].
exfalso. revert E. apply for_each_returns.
intros d Hd. destruct (Hf d Hd) as (H1 & H2 & H3).
unfold field_of_def.
destruct (Yaml.name d), (Yaml.type d), (Yaml.offset d);
  congruence || discriminate.
Qed.

End Schema.

Section SchemaRoundTrip.

Lemma struct_of_packet_of (s : StructDef.t) :
  struct_of_packet (packet_of s) = Some (through_schema s).
Proof.
  unfold struct_of_packet, packet_of, through_schema.
  cbn [Yaml.id Yaml.header_string Yaml.fields get].
  rewrite (for_each_map field_of_def
             (fun d => Field.mk (get (Yaml.name d) []) (get (Yaml.type d) [])
                                false 0%Z (get (Yaml.offset d) 0%Z))).
  - rewrite map_map. reflexivity.
  - intros d Hd. apply in_map_iff in Hd. destruct Hd as (f & <- & _).
    reflexivity.
Qed.

Lemma parse_yaml_generate (ss : list StructDef.t) :
  parse_yaml_file (generate_yaml ss) = Some (map through_schema ss).
Proof.
  unfold parse_yaml_file, generate_yaml. cbn [Yaml.packets get].
  induction ss as [|s ss IH]; simpl; [reflexivity|].
  rewrite struct_of_packet_of.
  simpl in IH. rewrite IH. reflexivity.
Qed.

Lemma sum_sizes_partition (p : Field.t -> bool) (l : list Field.t) :
  sum_sizes l
  = (sum_sizes (filter p l) + sum_sizes (filter (fun f => negb (p f)) l))%Z.
Proof.
  induction l as [|f l IH]; [reflexivity|].
  cbn [filter]. destruct (p f); cbn [negb];
    unfold sum_sizes in *; cbn [fold_right]; rewrite IH; lia.
Qed.

Lemma packed_from_first (o : Z) (l : list Field.t) (f : Field.t) :
  packed_from o l -> nth_error l 0 = Some f -> Field.offset f = o.
Proof.
  destruct l as [|g l]; simpl; [discriminate|].
  intros [H _] E; congruence.
Qed.

Lemma packed_from_next (o : Z) (l : list Field.t) (i : nat)
      (f g : Field.t) :
  packed_from o l -> nth_error l i = Some f -> nth_error l (S i) = Some g ->
  Field.offset g = (Field.offset f + Field.size f)%Z.
Proof.
  revert o i; induction l as [|h l IH]; intros o i Hp Hf Hg.
  - destruct i; discriminate.
  - destruct Hp as [Ho Hp]. destruct i as [|i].
    + simpl in Hf. inversion Hf; subst.
      rewrite (packed_from_first _ _ _ Hp Hg). reflexivity.
    + exact (IH _ i Hp Hf Hg).
Qed.

End SchemaRoundTrip.

Section HeaderStatement.

Lemma split_cons (c : ascii) (s : str) :
  exists h t, split c s = h :: t.
Proof.
  destruct s as [|x s]; simpl; [eauto|].
  destruct (Ascii.eqb x c); [eauto|].
  destruct (split c s); eauto.
Qed.

Lemma split_head_free (c : ascii) (s : str) :
  Forall (fun x => x <> c) (hd [] (split c s)) /\
  exists r, s = hd [] (split c s) ++ r.
Proof.
  induction s as [|x s [IH1 [r IH2]]]; simpl.
  - split; [constructor | exists []; reflexivity].
  - destruct (Ascii.eqb x c) eqn:E; simpl.
    + split; [constructor | eexists; reflexivity].
    + destruct (split_cons c s) as (h & t & Hs). rewrite Hs in *. simpl in *.
      split.
      * constructor; [|assumption]. intros ->.
        rewrite Ascii.eqb_refl in E. discriminate.
      * exists r. rewrite IH2 at 1. reflexivity.
Qed.

Lemma split_free (c : ascii) (s : str) :
  Forall (fun x => x <> c) s -> split c s = [s].
Proof.
  induction 1 as [|x s Hx _ IH]; simpl; [reflexivity|].
  destruct (Ascii.eqb x c) eqn:E.
  - apply Ascii.eqb_eq in E. contradiction.
  - rewrite IH. reflexivity.
Qed.

Lemma contains_free (c : ascii) (s : str) :
  Forall (fun x => x <> c) s -> contains [c] s = false.
Proof.
  induction 1 as [|x s Hx _ IH]; simpl; [reflexivity|].
  rewrite IH. destruct (Ascii.eqb c x) eqn:E; [|reflexivity].
  apply Ascii.eqb_eq in E. congruence.
Qed.

Lemma replace_free (a b : ascii) (s : str) :
  Forall (fun x => x <> a) s -> replace a b s = s.
Proof.
  unfold replace.
  induction 1 as [|x s Hx _ IH]; simpl; [reflexivity|].
  rewrite IH.
  destruct (Ascii.eqb x a) eqn:E; [|reflexivity].
  apply Ascii.eqb_eq in E. contradiction.
Qed.

Lemma replace_is_free (a b : ascii) (s : str) :
  a <> b -> Forall (fun x => x <> a) (replace a b s).
Proof.
  intros Hab. unfold replace.
  induction s as [|x s IH]; simpl; constructor; [|exact IH].
  destruct (Ascii.eqb x a) eqn:E; [congruence|].
  intros ->. rewrite Ascii.eqb_refl in E. discriminate.
Qed.

Lemma declarator_fixed (stmt : str) :
  replace LF SP (declarator stmt) = declarator stmt
  /\ contains (lit "=") (declarator stmt) = false
  /\ hd [] (split "="%char (declarator stmt)) = declarator stmt.
Proof.
  unfold declarator.
  destruct (split_head_free "="%char (replace LF SP stmt)) as [Hf [r Hr]].
  split; [|split].
  - apply replace_free.
    assert (Hl : Forall (fun x => x <> LF) (replace LF SP stmt))
      by (apply replace_is_free; discriminate).
    rewrite Hr in Hl. apply Forall_app in Hl. tauto.
  - apply (contains_free _ _ Hf).
  - rewrite (split_free _ _ Hf). reflexivity.
Qed.

(** The header test decides the tag of the struct, and nothing else
    does. *)
Lemma parse_statement_header (acc : StructDef.t * Z) (stmt : str) :
  StructDef.header_string (fst (parse_statement acc stmt))
  = if sets_header stmt then tag_of stmt
    else StructDef.header_string (fst acc).
Proof.
  destruct acc as [s off]. unfold parse_statement, sets_header, tag_of.
  destruct (is_empty stmt); cbn [negb andb fst]; [reflexivity|].
  set (st := replace LF SP stmt).
  destruct (contains (lit "header[") st && contains (lit "=") st);
    destruct (List.length _ <? 2)%nat; try reflexivity;
    destruct (contains (lit "[") _); try reflexivity;
    destruct (Re.array_name_search _) as [[g1 g2]|]; reflexivity.
Qed.

(** The fields and the offset after a statement are those after its
    declarator alone. *)
Lemma parse_statement_declarator (acc : StructDef.t * Z) (stmt : str) :
  StructDef.fields (fst (parse_statement acc stmt))
  = StructDef.fields (fst (parse_statement acc (declarator stmt)))
  /\ snd (parse_statement acc stmt)
     = snd (parse_statement acc (declarator stmt)).
Proof.
  destruct acc as [s off].
  destruct (declarator_fixed stmt) as (Hr & Hc & Hh).
  unfold parse_statement at 2 4. rewrite Hr, Hc, Hh, andb_false_r.
  unfold parse_statement.
  destruct (is_empty stmt) eqn:Es.
  { destruct stmt; [|discriminate]. split; reflexivity. }
  fold (declarator stmt).
  set (s1 := if contains (lit "header[") _ && contains (lit "=") _
             then _ else s).
  assert (Hf : StructDef.fields s1 = StructDef.fields s)
    by (unfold s1; destruct (_ && _); reflexivity).
  destruct (is_empty (declarator stmt)) eqn:Ed.
  { destruct (declarator stmt); [|discriminate].
    cbn. rewrite Hf. split; reflexivity. }
  destruct (List.length _ <? 2)%nat; cbn [fst snd];
    [rewrite Hf; split; reflexivity|].
  destruct (contains (lit "[") _); [destruct (Re.array_name_search _)
    as [[g1 g2]|]|]; cbn [fst snd StructDef.fields]; rewrite Hf;
    split; reflexivity.
Qed.

Lemma parse_statements_header (stmts : list str) (acc : StructDef.t * Z) :
  forallb (fun st => negb (sets_header st)) stmts = true ->
  StructDef.header_string (fst (fold_left parse_statement stmts acc))
  = StructDef.header_string (fst acc).
Proof.
  revert acc; induction stmts as [|st stmts IH]; simpl; intros acc H;
    [reflexivity|].
  apply andb_prop in H. destruct H as [H1 H2].
  rewrite (IH _ H2), parse_statement_header.
  destruct (sets_header st); [discriminate | reflexivity].
Qed.

End HeaderStatement.

(** ** Characters kept by the string operations *)

Section Characters.

Variable P : ascii -> Prop.

Lemma lstrip_suffix (s : str) : exists w, s = w ++ lstrip s
  /\ Forall (fun c => isspace c = true) w.
Proof.
induction s as [|c s (w & IH & Hw)]; simpl.
- exists []. split; [reflexivity | constructor].
- destruct (isspace c) eqn:E.
  + exists (c :: w). split; [simpl; f_equal; exact IH|].
    constructor; assumption.
  + exists []. split; [reflexivity | constructor].
Qed.

Lemma rstrip_prefix (s : str) : exists w, s = rstrip s ++ w
  /\ Forall (fun c => isspace c = true) w.
Proof.
unfold rstrip. destruct (lstrip_suffix (rev s)) as (w & E & Hw).
exists (rev w). split.
- rewrite <- (rev_involutive s) at 1. rewrite E at 1.
  apply rev_app_distr.
- apply Forall_rev, Hw.
Qed.

Lemma Forall_lstrip (s : str) : Forall P s -> Forall P (lstrip s).
Proof.
intros H. destruct (lstrip_suffix s) as (w & E & _).
rewrite E in H. apply Forall_app in H. tauto.
Qed.

Lemma Forall_rstrip (s : str) : Forall P s -> Forall P (rstrip s).
Proof.
intros H. destruct (rstrip_prefix s) as (w & E & _).
rewrite E in H. apply Forall_app in H. tauto.
Qed.

Lemma Forall_strip (s : str) : Forall P s -> Forall P (strip s).
Proof. intros H. apply Forall_rstrip, Forall_lstrip, H. Qed.

Lemma Forall_split (c : ascii) (s : str) :
  Forall P s -> Forall (Forall P) (split c s).
Proof.
induction 1 as [|x s Hx _ IH]; simpl.
- repeat constructor.
- destruct (Ascii.eqb x c).
  + constructor; [constructor | exact IH].
  + destruct (split c s) as [|h t].
    * repeat constructor. exact Hx.
    * inversion IH; subst. constructor; [constructor|]; assumption.
Qed.

Lemma Forall_split_ws (s : str) :
  Forall P s -> Forall (Forall P) (split_ws s).
Proof.
induction 1 as [|x s Hx Hs IH]; simpl.
- constructor.
- destruct (isspace x); [exact IH|].
  destruct s as [|y s'].
  + repeat constructor. exact Hx.
  + destruct (isspace y).
    * constructor; [repeat constructor; exact Hx | exact IH].
    * destruct (split_ws (y :: s')) as [|h t].
      -- repeat constructor. exact Hx.
      -- inversion IH; subst. constructor; [constructor|]; assumption.
Qed.

Lemma Forall_remove (a : ascii) (s : str) :
  Forall P s -> Forall P (remove a s).
Proof.
unfold remove. induction 1 as [|x s Hx _ IH]; simpl.
- constructor.
- destruct (negb (Ascii.eqb x a)); [constructor|]; assumption.
Qed.

Lemma Forall_join (sep : str) (l : list str) :
  Forall P sep -> Forall (Forall P) l -> Forall P (join sep l).
Proof.
intros Hsep. induction 1 as [|a l Ha Hl IH]; simpl.
- constructor.
- destruct l as [|b l]; [exact Ha|].
  apply Forall_app; split; [exact Ha|].
  apply Forall_app; split; [exact Hsep | exact IH].
Qed.

Lemma Forall_last {A : Type} (Q : A -> Prop) (l : list A) (d : A) :
  Forall Q l -> Q d -> Q (last l d).
Proof.
induction 1 as [|a l Ha Hl IH]; simpl; intros Hd; [exact Hd|].
destruct l; [exact Ha | apply IH, Hd].
Qed.

Lemma Forall_removelast {A : Type} (Q : A -> Prop) (l : list A) :
  Forall Q l -> Forall Q (removelast l).
Proof.
induction 1 as [|a l Ha Hl IH]; simpl; [constructor|].
destruct l; [constructor | constructor; assumption].
Qed.

Lemma Forall_skipn_str (n : nat) (s : str) :
  Forall P s -> Forall P (skipn n s).
Proof.
intros H. rewrite <- (firstn_skipn n s) in H.
apply Forall_app in H. tauto.
Qed.

Lemma Forall_firstn_str (n : nat) (s : str) :
  Forall P s -> Forall P (firstn n s).
Proof.
intros H. rewrite <- (firstn_skipn n s) in H.
apply Forall_app in H. tauto.
Qed.

Lemma Forall_slice (i j : nat) (s : str) :
  Forall P s -> Forall P (slice i j s).
Proof. intros H. apply Forall_firstn_str, Forall_skipn_str, H. Qed.

Lemma findall_step (q c q' : ascii) (rest : str) :
  Re.findall_char_literals (q :: c :: q' :: rest)
  = if Ascii.eqb q QUOTE && negb (Ascii.eqb c QUOTE) && Ascii.eqb q' QUOTE
    then c :: Re.findall_char_literals rest
    else Re.findall_char_literals (c :: q' :: rest).
Proof. reflexivity. Qed.

Lemma Forall_findall (s : str) :
  Forall P s -> Forall P (Re.findall_char_literals s).
Proof.
assert (G : forall n (s : str), (List.length s <= n)%nat -> Forall P s ->
            Forall P (Re.findall_char_literals s)).
{ induction n as [|n IH]; intros t Hn Ht.
  - destruct t; [constructor | simpl in Hn; lia].
  - destruct t as [|q [|c [|q' rest]]]; try (simpl; constructor).
    rewrite findall_step.
    inversion Ht as [|? ? _ Ht1]; subst.
    inversion Ht1 as [|? ? Hc Ht2]; subst.
    inversion Ht2 as [|? ? _ Ht3]; subst.
    simpl in Hn.
    destruct (_ && _).
    + constructor; [exact Hc | apply IH; [lia | exact Ht3]].
    + apply IH; [simpl; lia | exact Ht1]. }
apply (G (List.length s)). lia.
Qed.

Lemma Forall_span (p : ascii -> bool) (s a b : str) :
  span p s = (a, b) -> Forall P s -> Forall P a /\ Forall P b.
Proof.
intros E H. destruct (span_forall _ _ _ _ E) as [_ ->].
apply Forall_app in H. exact H.
Qed.

Lemma Forall_array_name_at (s g1 g2 : str) :
  Re.array_name_at s = Some (g1, g2) -> Forall P s -> Forall P g1.
Proof.
unfold Re.array_name_at.
destruct (span isword s) as [w r] eqn:Hw.
destruct (is_empty w); [discriminate|].
destruct r as [|b r']; [discriminate|].
destruct (Ascii.eqb b "[")%char; [|discriminate].
destruct (span isdigit r') as [d r''] eqn:Hd.
destruct (is_empty d); [discriminate|].
destruct r'' as [|e r3]; [discriminate|].
destruct (Ascii.eqb e "]")%char; [|discriminate].
intros H Hs; inversion H; subst.
apply (Forall_span _ _ _ _ Hw Hs).
Qed.

Lemma Forall_array_name_search (s g1 g2 : str) :
  Re.array_name_search s = Some (g1, g2) -> Forall P s -> Forall P g1.
Proof.
induction s as [|c s IH]; cbn [Re.array_name_search].
- discriminate.
- destruct (Re.array_name_at (c :: s)) as [[a b]|] eqn:H.
  + intros E Hs; inversion E; subst.
    eapply Forall_array_name_at; eassumption.
  + intros E Hs. inversion Hs; subst. apply IH; assumption.
Qed.

End Characters.

(** ** What the parser returns *)

Section ParsedStructs.

Lemma split_ws_tokens (s : str) : Forall token_ok (split_ws s).
Proof.
induction s as [|x s IH]; simpl; [constructor|].
destruct (isspace x) eqn:Ex; [exact IH|].
assert (Hx : token_ok [x]).
{ split; [discriminate | repeat constructor; exact Ex]. }
destruct s as [|y s'].
- constructor; [exact Hx | constructor].
- destruct (isspace y).
  + constructor; [exact Hx | exact IH].
  + destruct (split_ws (y :: s')) as [|h t].
    * constructor; [exact Hx | constructor].
    * inversion IH as [|? ? [_ Hh] Ht]; subst.
      constructor; [|exact Ht].
      split; [discriminate | constructor; assumption].
Qed.

Lemma parse_statement_eq (s : StructDef.t) (off : Z) (stmt : str) :
  is_empty stmt = false ->
  parse_statement (s, off) stmt
  = let tag := if sets_header stmt then tag_of stmt
               else StructDef.header_string s in
    let parts := split_ws (strip (declarator stmt)) in
    if (List.length parts <? 2)%nat
    then (StructDef.mk (StructDef.name s) (StructDef.fields s) tag
                       (StructDef.size s), off)
    else
      let f := field_of_parts parts off in
      (StructDef.mk (StructDef.name s) (StructDef.fields s ++ [f]) tag
                    (StructDef.size s),
       (off + Field.size f)%Z).
Proof.
intros Hne. unfold parse_statement, sets_header, tag_of, declarator,
  field_of_parts.
rewrite Hne. cbn [negb andb].
destruct s as [n fs hs sz]. cbn [StructDef.name StructDef.fields
  StructDef.header_string StructDef.size].
set (st := replace LF SP stmt).
destruct (contains (lit "header[") st && contains (lit "=") st);
  cbv zeta; cbn [StructDef.name StructDef.fields
                 StructDef.header_string StructDef.size];
  destruct (List.length _ <? 2)%nat; try reflexivity;
  destruct (contains (lit "[") _); try reflexivity;
  destruct (Re.array_name_search _) as [[g1 g2]|]; reflexivity.
Qed.

Lemma parts_last_removelast (parts : list str) :
  (2 <= List.length parts)%nat ->
  removelast parts <> [] /\ parts = removelast parts ++ [last parts []].
Proof.
intros H. split.
- destruct parts as [|a [|b l]]; simpl in *; try lia. discriminate.
- apply app_removelast_last. destruct parts; [simpl in H; lia | discriminate].
Qed.

(** The field of a declarator with two tokens or more. *)
Lemma field_of_parts_parsed (parts : list str) (off : Z) :
  Forall token_ok parts ->
  Forall (Forall (fun c => c <> ";"%char /\ c <> "="%char)) parts ->
  (2 <= List.length parts)%nat ->
  field_parsed (field_of_parts parts off).
Proof.
intros Htok Hch Hlen.
destruct (parts_last_removelast parts Hlen) as [Hne Hsplit].
assert (Hty : type_ok (join [SP] (removelast parts))).
{ exists (removelast parts). split; [exact Hne|].
  split; [apply Forall_removelast, Htok | reflexivity]. }
assert (Htych : Forall (fun c => c <> ";"%char /\ c <> "="%char)
                  (join [SP] (removelast parts))).
{ apply Forall_join.
  - repeat constructor; discriminate.
  - apply Forall_removelast, Hch. }
assert (Hlast : token_ok (last parts [])).
{ rewrite Hsplit in Htok. apply Forall_app in Htok.
  destruct Htok as [_ Ht]. inversion Ht; assumption. }
assert (Hlch : Forall (fun c => c <> ";"%char /\ c <> "="%char)
                 (last parts [])).
{ apply Forall_last; [exact Hch | constructor]. }
unfold field_of_parts.
destruct (contains (lit "[") (last parts [])) eqn:Eb.
- destruct (Re.array_name_search (last parts [])) as [[g1 g2]|] eqn:Em;
    unfold field_parsed; cbn [Field.name Field.type_name Field.is_array];
    (split; [exact Hty|]); (split; [exact Htych|]);
    (split; [|discriminate]).
  + eapply Forall_array_name_search; eassumption.
  + exact Hlch.
- unfold field_parsed;
    cbn [Field.name Field.type_name Field.is_array Field.array_size].
  split; [exact Hty|]. split; [exact Htych|]. split; [exact Hlch|].
  intros _. split; [exact Hlast|]. split; [exact Eb | reflexivity].
Qed.

Lemma split_pieces_free (c : ascii) (s : str) :
  Forall (Forall (fun x => x <> c)) (split c s).
Proof.
induction s as [|x s IH]; simpl.
- repeat constructor.
- destruct (Ascii.eqb x c) eqn:E.
  + constructor; [constructor | exact IH].
  + assert (Hx : x <> c)
      by (intros ->; rewrite Ascii.eqb_refl in E; discriminate).
    destruct (split c s) as [|h t].
    * repeat constructor. exact Hx.
    * inversion IH; subst. constructor; [constructor|]; assumption.
Qed.

Lemma findall_not_quote (s : str) :
  Forall (fun c => c <> QUOTE) (Re.findall_char_literals s).
Proof.
assert (G : forall n (s : str), (List.length s <= n)%nat ->
            Forall (fun c => c <> QUOTE) (Re.findall_char_literals s)).
{ induction n as [|n IH]; intros t Hn.
  - destruct t; [constructor | simpl in Hn; lia].
  - destruct t as [|q [|c [|q' rest]]]; try (simpl; constructor).
    rewrite findall_step. simpl in Hn.
    destruct (Ascii.eqb q QUOTE && negb (Ascii.eqb c QUOTE)
              && Ascii.eqb q' QUOTE) eqn:E.
    + constructor; [|apply IH; lia].
      apply andb_prop in E. destruct E as [E _].
      apply andb_prop in E. destruct E as [_ E].
      intros ->. rewrite Ascii.eqb_refl in E. discriminate.
    + apply IH. simpl. lia. }
apply (G (List.length s)). lia.
Qed.

Lemma remove_free (a : ascii) (s : str) :
  Forall (fun c => c <> a) (remove a s).
Proof.
unfold remove. induction s as [|x s IH]; simpl; [constructor|].
destruct (Ascii.eqb x a) eqn:E; cbn [negb]; [exact IH|].
constructor; [|exact IH].
intros ->. rewrite Ascii.eqb_refl in E. discriminate.
Qed.

Lemma replace_LF_chars (s : str) :
  Forall (fun c => c <> ";"%char /\ c <> CR) s ->
  Forall (fun c => c <> ";"%char /\ c <> LF /\ c <> CR) (replace LF SP s).
Proof.
unfold replace. induction 1 as [|x s [H1 H2] _ IH]; simpl; constructor;
  try exact IH.
destruct (Ascii.eqb x LF) eqn:E.
- repeat split; discriminate.
- repeat split; try assumption.
  intros ->. rewrite Ascii.eqb_refl in E. discriminate.
Qed.

Lemma tag_of_parsed (stmt : str) :
  Forall (fun c => c <> ";"%char /\ c <> CR) stmt -> tag_parsed (tag_of stmt).
Proof.
intros H. unfold tag_parsed, tag_of.
pose proof (Forall_remove _ NUL _
              (Forall_findall _ _ (replace_LF_chars _ H))) as H1.
pose proof (Forall_remove _ NUL _
              (findall_not_quote (replace LF SP stmt))) as H2.
pose proof (remove_free NUL
              (Re.findall_char_literals (replace LF SP stmt))) as H3.
rewrite Forall_forall in *. intros c Hc.
specialize (H1 c Hc). specialize (H2 c Hc). specialize (H3 c Hc).
cbv beta in *. tauto.
Qed.

Lemma declarator_chars (stmt : str) :
  Forall (fun c => c <> ";"%char /\ c <> CR) stmt ->
  Forall (fun c => c <> ";"%char /\ c <> "="%char) (declarator stmt).
Proof.
intros H. unfold declarator.
destruct (split_head_free "="%char (replace LF SP stmt)) as [Hf [r Hr]].
pose proof (replace_LF_chars _ H) as Hs.
rewrite Hr in Hs. apply Forall_app in Hs. destruct Hs as [Hs _].
rewrite Forall_forall in *. intros c Hc.
specialize (Hs c Hc). specialize (Hf c Hc). cbv beta in *. tauto.
Qed.

(** What the statement loop keeps true of the fields and the tag. *)
Lemma parse_statement_parsed (acc : StructDef.t * Z) (stmt : str) :
  Forall (fun c => c <> ";"%char /\ c <> CR) stmt ->
  Forall field_parsed (StructDef.fields (fst acc))
  /\ tag_parsed (StructDef.header_string (fst acc)) ->
  Forall field_parsed (StructDef.fields (fst (parse_statement acc stmt)))
  /\ tag_parsed (StructDef.header_string (fst (parse_statement acc stmt))).
Proof.
intros Hst [Hf Ht]. destruct acc as [s off].
destruct (is_empty stmt) eqn:Ee.
{ destruct stmt; [|discriminate]. split; assumption. }
rewrite (parse_statement_eq _ _ _ Ee). cbv zeta.
assert (Htag : tag_parsed (if sets_header stmt then tag_of stmt
                           else StructDef.header_string s)).
{ destruct (sets_header stmt); [apply tag_of_parsed, Hst | exact Ht]. }
set (parts := split_ws (strip (declarator stmt))).
destruct (List.length parts <? 2)%nat eqn:El; cbn [fst StructDef.fields
  StructDef.header_string]; (split; [|exact Htag]); [exact Hf|].
apply Forall_app. split; [exact Hf|]. constructor; [|constructor].
apply field_of_parts_parsed.
- apply split_ws_tokens.
- apply Forall_split_ws, Forall_strip, declarator_chars, Hst.
- apply Nat.ltb_ge in El. exact El.
Qed.

Lemma parse_statements_parsed (stmts : list str) (acc : StructDef.t * Z) :
  Forall (Forall (fun c => c <> ";"%char /\ c <> CR)) stmts ->
  Forall field_parsed (StructDef.fields (fst acc))
  /\ tag_parsed (StructDef.header_string (fst acc)) ->
  Forall field_parsed
    (StructDef.fields (fst (fold_left parse_statement stmts acc)))
  /\ tag_parsed
       (StructDef.header_string (fst (fold_left parse_statement stmts acc))).
Proof.
intros H; revert acc; induction H as [|st stmts Hst _ IH]; simpl;
  intros acc Hacc; [exact Hacc|].
apply IH, parse_statement_parsed; assumption.
Qed.

Lemma statements_of_chars (body : str) :
  Forall (fun c => c <> CR) body ->
  Forall (Forall (fun c => c <> ";"%char /\ c <> CR)) (statements_of body).
Proof.
intros H. unfold statements_of.
pose proof (split_pieces_free ";"%char body) as H1.
pose proof (Forall_split _ ";"%char _ H) as H2.
rewrite Forall_forall in *. intros st Hst.
apply in_map_iff in Hst. destruct Hst as (piece & <- & Hp).
apply filter_In in Hp. destruct Hp as [Hp _].
specialize (H1 piece Hp). specialize (H2 piece Hp).
apply Forall_strip. rewrite Forall_forall in *.
intros c Hc. split; [apply H1 | apply H2]; exact Hc.
Qed.

Lemma parse_body_parsed (name body : str) :
  name_parsed name -> Forall (fun c => c <> CR) body ->
  struct_parsed (parse_body name body).
Proof.
intros Hn Hb.
destruct (parse_body_inv name body) as (Hp & Hs & Hz).
assert (Hname : StructDef.name (parse_body name body) = name).
{ unfold parse_body.
  assert (G : forall stmts acc,
             StructDef.name (fst (fold_left parse_statement stmts acc))
             = StructDef.name (fst acc)).
  { induction stmts as [|st stmts IH]; intros acc; simpl; [reflexivity|].
    rewrite IH. destruct acc as [s off].
    destruct (is_empty st) eqn:Ee.
    - destruct st; [reflexivity | discriminate].
    - rewrite (parse_statement_eq _ _ _ Ee). cbv zeta.
      destruct (_ <? _)%nat; reflexivity. }
  specialize (G (statements_of body) (StructDef.init name, 0%Z)).
  destruct (fold_left parse_statement _ _) as [s off]. exact G. }
pose proof (parse_statements_parsed (statements_of body)
              (StructDef.init name, 0%Z) (statements_of_chars _ Hb)) as Hf.
assert (Hfields :
  Forall field_parsed (StructDef.fields (parse_body name body))
  /\ tag_parsed (StructDef.header_string (parse_body name body))).
{ unfold parse_body.
  destruct (fold_left parse_statement _ _) as [s off].
  apply Hf. split; constructor. }
unfold struct_parsed. rewrite Hname. tauto.
Qed.

Lemma struct_start_at_parsed (s name : str) :
  Re.struct_start_at s = Some name -> name_parsed name.
Proof.
unfold Re.struct_start_at.
destruct (drop_prefix (lit "struct") s) as [r1|]; [|discriminate].
destruct (span isspace r1) as [ws1 r2].
destruct (is_empty ws1); [discriminate|].
destruct (drop_prefix (lit "__attribute__((packed))") r2) as [r3|];
  [|discriminate].
destruct (span isspace r3) as [ws2 r4].
destruct (is_empty ws2); [discriminate|].
destruct (span isword r4) as [w r5] eqn:Hw.
destruct (is_empty w) eqn:Ew; [discriminate|].
intros H; inversion H; subst. split.
- destruct name; [discriminate Ew | discriminate].
- apply (span_forall _ _ _ _ Hw).
Qed.

Lemma struct_start_search_parsed (s name : str) :
  Re.struct_start_search s = Some name -> name_parsed name.
Proof.
induction s as [|c s IH]; cbn [Re.struct_start_search].
- destruct (Re.struct_start_at []) eqn:E; [|discriminate].
  intros H; inversion H; subst. eapply struct_start_at_parsed, E.
- destruct (Re.struct_start_at (c :: s)) eqn:E; [|exact IH].
  intros H; inversion H; subst. eapply struct_start_at_parsed, E.
Qed.

Lemma universal_newlines_free (s : str) :
  Forall (fun c => c <> CR) (universal_newlines s).
Proof.
assert (G : Forall (fun c => c <> CR) (universal_newlines s)
            /\ Forall (fun c => c <> CR) (universal_newlines (tl s))).
{ induction s as [|c s [IH1 IH2]]; [split; constructor|].
  split; [|exact IH1].
  cbn [universal_newlines].
  destruct (Ascii.eqb c CR) eqn:E.
  - destruct s as [|d s'].
    + repeat constructor. discriminate.
    + destruct (Ascii.eqb d LF);
        (constructor; [discriminate | assumption]).
  - constructor; [|exact IH1].
    intros ->. rewrite Ascii.eqb_refl in E. discriminate. }
apply G.
Qed.

Lemma Forall_splitlines (P : ascii -> Prop) (s : str) :
  Forall P s -> Forall (Forall P) (splitlines s).
Proof.
induction 1 as [|x s Hx _ IH]; simpl; [constructor|].
destruct (Ascii.eqb x LF) eqn:E.
- apply Ascii.eqb_eq in E. subst x. constructor; [|exact IH].
  constructor; [exact Hx | constructor].
- destruct (splitlines s) as [|l ls].
  + repeat constructor. exact Hx.
  + inversion IH; subst. constructor; [constructor|]; assumption.
Qed.

Lemma readlines_free (content : str) :
  Forall (Forall (fun c => c <> CR)) (readlines content).
Proof. apply Forall_splitlines, universal_newlines_free. Qed.

Lemma parse_line_parsed (p : parser) (line : str) :
  Forall (fun c => c <> CR) line ->
  loop_parsed p -> loop_parsed (parse_line p line).
Proof.
intros Hl Hp. unfold parse_line.
destruct (is_empty (stripped_of line)); [exact Hp|].
set (p1 := if negb (in_struct p) then _ else p).
assert (H1 : loop_parsed p1).
{ unfold p1. destruct (negb (in_struct p)); [|exact Hp].
  destruct (Re.struct_start_search line) as [name|] eqn:Em; [|exact Hp].
  split; [apply Hp|]. cbn [in_struct current_struct_name buffer].
  intros _. split; [|constructor].
  eapply struct_start_search_parsed, Em. }
clearbody p1. destruct H1 as [Hs1 Hin1].
destruct (in_struct p1) eqn:Ei1; [|split; [exact Hs1 | congruence]].
destruct (Hin1 eq_refl) as [Hn Hb].
assert (Hbuf : Forall (fun c => c <> CR) (buffer p1 ++ line))
  by (apply Forall_app; split; assumption).
destruct (_ && _).
- split; [|cbn [in_struct]; discriminate]. cbn [structs].
  destruct (find _ _); [|exact Hs1].
  destruct (rfind _ _); [|exact Hs1].
  apply Forall_app. split; [exact Hs1|].
  constructor; [|constructor].
  apply parse_body_parsed; [exact Hn|].
  apply Forall_slice, Hbuf.
- split; [exact Hs1|]. cbn [in_struct current_struct_name buffer].
  intros _. split; assumption.
Qed.

(** Every struct [parse_header_file] returns is well formed. *)
Lemma parse_header_file_parsed (content : str) :
  Forall struct_parsed (parse_header_file content).
Proof.
unfold parse_header_file, parse_lines.
assert (G : forall lines p,
           Forall (Forall (fun c => c <> CR)) lines -> loop_parsed p ->
           loop_parsed (fold_left parse_line lines p)).
{ induction lines as [|l lines IH]; intros p Hl Hp; simpl; [exact Hp|].
  inversion Hl; subst. apply IH; [assumption|].
  apply parse_line_parsed; assumption. }
apply G.
- apply readlines_free.
- split; [constructor | discriminate].
Qed.

End ParsedStructs.

(** ** Reading back what [generate_header] writes *)

Section LineCases.

Lemma contains_absent (c : ascii) (sub s : str) :
  Forall (fun x => x <> c) s -> contains (c :: sub) s = false.
Proof.
induction 1 as [|x s Hx _ IH]; simpl; [reflexivity|].
rewrite IH. destruct (Ascii.eqb c x) eqn:E; [|reflexivity].
apply Ascii.eqb_eq in E. congruence.
Qed.

Lemma contains_app_l (sub a b : str) :
  contains sub a = true -> contains sub (a ++ b) = true.
Proof.
assert (S : forall p x y, startswith p x = true ->
                          startswith p (x ++ y) = true).
{ induction p as [|u p IHp]; intros x y; [reflexivity|].
  destruct x as [|v x]; simpl; [discriminate|].
  intros H. apply andb_prop in H. destruct H as [H1 H2].
  rewrite H1, (IHp _ _ H2). reflexivity. }
induction a as [|x a IH]; simpl.
- rewrite orb_false_r. intros H.
  destruct sub; [destruct b; reflexivity | discriminate].
- intros H. apply orb_prop in H. destruct H as [H | H].
  + change (x :: a ++ b) with ((x :: a) ++ b).
    rewrite (S _ _ _ H). reflexivity.
  + rewrite (IH H). apply orb_true_r.
Qed.

Lemma count_app (c : ascii) (a b : str) :
  count c (a ++ b) = (count c a + count c b)%Z.
Proof. unfold count. rewrite filter_app, length_app. lia. Qed.

Lemma count_free (c : ascii) (s : str) :
  Forall (fun x => x <> c) s -> count c s = 0%Z.
Proof.
unfold count. induction 1 as [|x s Hx _ IH]; simpl; [reflexivity|].
destruct (Ascii.eqb c x) eqn:E; [|exact IH].
apply Ascii.eqb_eq in E. congruence.
Qed.

Lemma endswith_absent (c : ascii) (p s : str) :
  In c p -> Forall (fun x => x <> c) s -> endswith p s = false.
Proof.
intros Hc Hs. destruct (endswith p s) eqn:E; [|reflexivity].
apply endswith_app in E. destruct E as [r ->].
apply Forall_app in Hs. destruct Hs as [_ Hs].
rewrite Forall_forall in Hs. destruct (Hs c Hc eq_refl).
Qed.

Lemma find_app (c : ascii) (a b : str) :
  Forall (fun x => x <> c) a -> find c (a ++ c :: b) = Some (List.length a).
Proof.
induction 1 as [|x a Hx _ IH]; simpl.
- rewrite Ascii.eqb_refl. reflexivity.
- destruct (Ascii.eqb x c) eqn:E.
  + apply Ascii.eqb_eq in E. contradiction.
  + rewrite IH. reflexivity.
Qed.

Lemma rfind_free (c : ascii) (s : str) :
  Forall (fun x => x <> c) s -> rfind c s = None.
Proof.
induction 1 as [|x s Hx _ IH]; simpl; [reflexivity|].
rewrite IH. destruct (Ascii.eqb x c) eqn:E; [|reflexivity].
apply Ascii.eqb_eq in E. contradiction.
Qed.

Lemma rfind_app (c : ascii) (a b : str) :
  Forall (fun x => x <> c) b -> rfind c (a ++ c :: b) = Some (List.length a).
Proof.
intros Hb. induction a as [|x a IH]; simpl.
- rewrite (rfind_free _ _ Hb), Ascii.eqb_refl. reflexivity.
- rewrite IH. reflexivity.
Qed.

Lemma slice_middle (a m rest : str) (c : ascii) :
  slice (List.length a + 1) (List.length a + 1 + List.length m)
        (a ++ c :: m ++ rest) = m.
Proof.
unfold slice.
replace (List.length a + 1 + List.length m - (List.length a + 1))%nat
  with (List.length m) by lia.
replace (a ++ c :: m ++ rest) with ((a ++ [c]) ++ m ++ rest)
  by (rewrite <- app_assoc; reflexivity).
replace (List.length a + 1)%nat with (List.length (a ++ [c]))
  by (rewrite length_app; simpl; lia).
rewrite skipn_app, skipn_all, Nat.sub_diag. simpl skipn. simpl app.
replace (List.length m) with (List.length m + 0)%nat by lia.
rewrite firstn_app_2. simpl. apply app_nil_r.
Qed.

Lemma parse_line_skip (p : parser) (line : str) :
  is_empty (stripped_of line) = true -> parse_line p line = p.
Proof. intros H. unfold parse_line. rewrite H. reflexivity. Qed.

Lemma parse_line_start (p : parser) (line name : str) :
  in_struct p = false ->
  is_empty (stripped_of line) = false ->
  Re.struct_start_search line = Some name ->
  Forall (fun c => c <> "{"%char) line ->
  Forall (fun c => c <> "}"%char) line ->
  parse_line p line = mk_parser (structs p) true name 0%Z line.
Proof.
intros Hi He Hm Ho Hc. unfold parse_line.
rewrite He, Hi, Hm. cbn [negb in_struct buffer brace_count structs
  current_struct_name is_empty andb app].
change (lit "{") with ["{"%char]. rewrite (contains_absent _ _ _ Ho).
rewrite (count_free _ _ Ho), (count_free _ _ Hc).
change (lit "};") with ("}"%char :: [";"%char]).
rewrite (contains_absent _ _ _ Hc).
rewrite (endswith_absent "}"%char); [|left; reflexivity|].
- destruct (contains name line); reflexivity.
- apply Forall_strip, Hc.
Qed.

Lemma parse_line_continue (p : parser) (line : str) :
  in_struct p = true ->
  is_empty (stripped_of line) = false ->
  (brace_count p + count "{"%char line - count "}"%char line)%Z <> 0%Z ->
  parse_line p line
  = mk_parser (structs p) true (current_struct_name p)
      (brace_count p + count "{"%char line - count "}"%char line)%Z
      (buffer p ++ line).
Proof.
intros Hi He Hb. unfold parse_line. rewrite He, Hi. cbn [negb]. rewrite Hi.
assert (E : (if is_empty (buffer p) && contains (current_struct_name p) line
             then (brace_count p + count "{" line - count "}" line)%Z
             else (brace_count p + count "{" line - count "}" line)%Z)
            = (brace_count p + count "{" line - count "}" line)%Z)
  by (destruct (_ && _); reflexivity).
rewrite E. apply Z.eqb_neq in Hb. rewrite Hb. reflexivity.
Qed.

Lemma parse_line_close (p : parser) (line : str) (start end_ : nat) :
  in_struct p = true ->
  is_empty (stripped_of line) = false ->
  (brace_count p + count "{"%char line - count "}"%char line)%Z = 0%Z ->
  contains (lit "};") line = true ->
  find "{"%char (buffer p ++ line) = Some start ->
  rfind "}"%char (buffer p ++ line) = Some end_ ->
  parse_line p line
  = mk_parser
      (structs p ++ [parse_body (current_struct_name p)
                       (slice (start + 1) end_ (buffer p ++ line))])
      false (current_struct_name p) 0%Z (buffer p ++ line).
Proof.
intros Hi He Hb Hc Hf Hr. unfold parse_line.
rewrite He, Hi. cbn [negb]. rewrite Hi.
assert (E : (if is_empty (buffer p) && contains (current_struct_name p) line
             then (brace_count p + count "{" line - count "}" line)%Z
             else (brace_count p + count "{" line - count "}" line)%Z)
            = 0%Z)
  by (destruct (_ && _); exact Hb).
rewrite E, Hc, Hf, Hr. reflexivity.
Qed.

End LineCases.

Section Blocks.

Lemma Forall_neq (c : ascii) (l : str) :
  forallb (fun x => negb (Ascii.eqb x c)) l = true ->
  Forall (fun x => x <> c) l.
Proof.
intros H. rewrite forallb_forall in H. apply Forall_forall.
intros x Hx ->. specialize (H _ Hx). rewrite Ascii.eqb_refl in H.
discriminate.
Qed.

Lemma isword_neq (c : ascii) (l : str) :
  isword c = false -> Forall (fun x => isword x = true) l ->
  Forall (fun x => x <> c) l.
Proof.
intros Hc H. eapply Forall_impl; [|exact H].
intros x Hx ->. congruence.
Qed.

Lemma lstrip_app_space (w s : str) :
  Forall (fun c => isspace c = true) w -> lstrip (w ++ s) = lstrip s.
Proof.
induction 1 as [|c w Hc _ IH]; simpl; [reflexivity|].
rewrite Hc. exact IH.
Qed.

Lemma lstrip_snoc (a : str) (c : ascii) :
  isspace c = false -> lstrip (a ++ [c]) = lstrip a ++ [c].
Proof.
intros Hc. induction a as [|x a IH]; simpl.
- rewrite Hc. reflexivity.
- destruct (isspace x); [exact IH | reflexivity].
Qed.

Lemma rstrip_cons (c : ascii) (t : str) :
  isspace c = false -> rstrip (c :: t) = c :: rstrip t.
Proof.
intros Hc. unfold rstrip. simpl rev.
rewrite (lstrip_snoc _ _ Hc), rev_app_distr. reflexivity.
Qed.

Lemma strip_cons_nonempty (c : ascii) (t : str) :
  isspace c = false -> is_empty (strip (c :: t)) = false.
Proof.
intros Hc. unfold strip. simpl lstrip. rewrite Hc.
rewrite (rstrip_cons _ _ Hc). reflexivity.
Qed.

Lemma stripped_nonempty (line : str) (c : ascii) (t : str) :
  lstrip line = c :: t -> isspace c = false ->
  startswith (lit "//") (c :: t) = false ->
  is_empty (stripped_of line) = false.
Proof.
intros Hl Hc Hs. unfold stripped_of, strip. rewrite Hl.
rewrite (rstrip_cons _ _ Hc).
destruct (contains _ _); [|reflexivity].
assert (Hs' : startswith (lit "//") (c :: rstrip t) = false).
{ destruct (startswith (lit "//") (c :: rstrip t)) eqn:E; [|reflexivity].
  apply startswith_app in E. destruct E as [r E].
  destruct (rstrip_prefix t) as (w & Ht & _).
  assert (X : startswith (lit "//") (c :: t) = true).
  { apply startswith_app. exists (r ++ w).
    rewrite Ht, app_comm_cons, E, app_assoc. reflexivity. }
  congruence. }
cbn [split_head]. rewrite Hs'.
apply strip_cons_nonempty, Hc.
Qed.

Lemma span_app (p : ascii -> bool) (a b : str) :
  Forall (fun c => p c = true) a ->
  match b with [] => True | c :: _ => p c = false end ->
  span p (a ++ b) = (a, b).
Proof.
intros Ha Hb. induction Ha as [|c a Hc _ IH].
- destruct b as [|c b]; [reflexivity|]. simpl. rewrite Hb. reflexivity.
- simpl. rewrite Hc, IH. reflexivity.
Qed.

Lemma isword_not_space (c : ascii) : isword c = true -> isspace c = false.
Proof.
intros Hc. destruct (isspace c) eqn:E; [|reflexivity].
revert Hc E. unfold isword, isspace, between.
generalize (code c). intros n Hc E.
repeat (apply orb_prop in E; destruct E as [E | E]);
  repeat match goal with
         | H : (_ && _) = true |- _ => apply andb_prop in H; destruct H
         | H : (_ <=? _)%nat = true |- _ => apply Nat.leb_le in H
         | H : (_ =? _)%nat = true |- _ => apply Nat.eqb_eq in H
         end;
  exfalso; revert Hc;
  repeat match goal with H : (_ <= _)%nat |- _ => revert H end;
  try subst n; intros;
  repeat (apply orb_prop in Hc; destruct Hc as [Hc | Hc]);
  repeat match goal with
         | H : (_ && _) = true |- _ => apply andb_prop in H; destruct H
         | H : (_ <=? _)%nat = true |- _ => apply Nat.leb_le in H
         | H : (_ =? _)%nat = true |- _ => apply Nat.eqb_eq in H
         end; lia.
Qed.

Lemma struct_line_search (name : str) :
  name_parsed name -> Re.struct_start_search (struct_line name) = Some name.
Proof.
intros [Hne Hw]. unfold struct_line.
destruct name as [|c name]; [congruence|].
assert (Hc : isword c = true) by (inversion Hw; assumption).
assert (Hsp : isspace c = false) by (apply isword_not_space, Hc).
assert (E : Re.struct_start_at
              (lit "struct __attribute__((packed)) " ++ (c :: name) ++ [LF])
            = Some (c :: name)).
{ unfold Re.struct_start_at. cbn [lit list_ascii_of_string app drop_prefix
    Ascii.eqb Bool.eqb].
  cbn [span]. change (isspace " ") with true. change (isspace "_") with false.
  cbv iota beta. cbn [is_empty drop_prefix Ascii.eqb Bool.eqb].
  cbn [span]. change (isspace " ") with true. rewrite Hsp.
  cbv iota beta. cbn [is_empty].
  change (c :: name ++ [LF]) with ((c :: name) ++ [LF]).
  rewrite (span_app isword (c :: name) [LF] Hw eq_refl).
  reflexivity. }
revert E. generalize (lit "struct __attribute__((packed)) "
                      ++ (c :: name) ++ [LF]).
intros l E. destruct l; cbn [Re.struct_start_search]; rewrite E; reflexivity.
Qed.

Lemma stmt_line_stripped (x : str) :
  stmt_ok x -> is_empty (stripped_of (stmt_line x)) = false.
Proof.
intros ((c & t & -> & Hc) & _ & Hs & _).
apply (stripped_nonempty _ c (t ++ lit ";" ++ [LF])).
- unfold stmt_line. rewrite lstrip_app_space.
  + simpl. rewrite Hc. reflexivity.
  + repeat constructor.
- exact Hc.
- destruct t as [|d t]; simpl in *.
  + apply andb_false_r.
  + exact Hs.
Qed.

Lemma stmt_line_count (c : ascii) (x : str) :
  c <> " "%char -> c <> ";"%char -> c <> LF ->
  count c (stmt_line x) = count c x.
Proof.
intros H1 H2 H3. unfold stmt_line. rewrite !count_app.
rewrite (count_free c (lit "    ")), (count_free c (lit ";")),
  (count_free c [LF]); [lia | | |];
  repeat constructor; congruence.
Qed.

Lemma stmt_line_continue (S : list StructDef.t) (name buf x : str) :
  stmt_ok x ->
  parse_line (mk_parser S true name 1%Z buf) (stmt_line x)
  = mk_parser S true name 1%Z (buf ++ stmt_line x).
Proof.
intros Hx.
pose proof (stmt_line_stripped _ Hx) as He.
destruct Hx as (_ & _ & _ & _ & Hb).
assert (E : (1 + count "{" (stmt_line x) - count "}" (stmt_line x))%Z = 1%Z).
{ rewrite !stmt_line_count by discriminate. lia. }
rewrite parse_line_continue; cbn [in_struct brace_count structs
  current_struct_name buffer]; try assumption; try reflexivity.
- rewrite E. reflexivity.
- rewrite E. discriminate.
Qed.

Lemma stmt_lines_continue (S : list StructDef.t) (name : str)
      (stmts : list str) (buf : str) :
  Forall stmt_ok stmts ->
  fold_left parse_line (map stmt_line stmts) (mk_parser S true name 1%Z buf)
  = mk_parser S true name 1%Z (buf ++ concat (map stmt_line stmts)).
Proof.
intros H; revert buf; induction H as [|x stmts Hx _ IH]; intros buf; simpl.
- rewrite app_nil_r. reflexivity.
- rewrite (stmt_line_continue _ _ _ _ Hx), IH, <- app_assoc. reflexivity.
Qed.

Lemma struct_line_free (c : ascii) (name : str) :
  isword c = false -> c <> LF ->
  forallb (fun x => negb (Ascii.eqb x c))
          (lit "struct __attribute__((packed)) ") = true ->
  name_parsed name ->
  Forall (fun x => x <> c) (struct_line name).
Proof.
intros Hc Hlf Hp [_ Hn]. unfold struct_line.
apply Forall_app. split; [apply Forall_neq, Hp|].
apply Forall_app. split; [apply (isword_neq _ _ Hc Hn)|].
repeat constructor. congruence.
Qed.

(** The loop on the lines of a struct. *)
Lemma block_parsed (p : parser) (name : str) (stmts : list str) :
  in_struct p = false -> name_parsed name -> Forall stmt_ok stmts ->
  exists p',
    fold_left parse_line (block_lines name stmts) p = p'
    /\ in_struct p' = false
    /\ structs p'
       = structs p ++ [parse_body name (LF :: concat (map stmt_line stmts))].
Proof.
intros Hi Hn Hs. unfold block_lines.
assert (Ho : Forall (fun x => x <> "{"%char) (struct_line name))
  by (apply struct_line_free; try reflexivity; [discriminate | exact Hn]).
assert (Hc : Forall (fun x => x <> "}"%char) (struct_line name))
  by (apply struct_line_free; try reflexivity; [discriminate | exact Hn]).
cbn [app fold_left].
rewrite (parse_line_start p (struct_line name) name Hi); try assumption.
2:{ apply (stripped_nonempty _ "s"%char
             (lit "truct __attribute__((packed)) " ++ name ++ [LF]));
      reflexivity. }
2:{ apply struct_line_search, Hn. }
rewrite parse_line_continue; cbn [in_struct brace_count structs
  current_struct_name buffer]; try reflexivity; try discriminate.
change (0 + count "{" (lit "{" ++ [LF]) - count "}" (lit "{" ++ [LF]))%Z
  with 1%Z.
rewrite fold_left_app, (stmt_lines_continue _ _ _ _ Hs).
set (m := LF :: concat (map stmt_line stmts)).
assert (Eb : (struct_line name ++ lit "{" ++ [LF])
             ++ concat (map stmt_line stmts) ++ lit "};" ++ [LF]
             = struct_line name ++ "{"%char :: m ++ "}"%char :: lit ";" ++ [LF]).
{ unfold m. rewrite <- !app_assoc. reflexivity. }
cbn [fold_left].
rewrite (parse_line_close _ (lit "};" ++ [LF])
           (List.length (struct_line name))
           (List.length (struct_line name ++ "{"%char :: m)));
  cbn [in_struct brace_count structs current_struct_name buffer];
  try reflexivity.
- rewrite parse_line_skip by reflexivity.
  eexists. split; [reflexivity|]. cbn [in_struct structs].
  split; [reflexivity|]. f_equal. f_equal. f_equal.
  rewrite <- app_assoc, Eb.
  replace (List.length (struct_line name ++ "{"%char :: m))
    with (List.length (struct_line name) + 1 + List.length m)%nat
    by (rewrite length_app; simpl; lia).
  apply slice_middle.
- rewrite <- app_assoc, Eb. apply find_app, Ho.
- rewrite <- app_assoc, Eb.
  replace (struct_line name ++ "{"%char :: m ++ "}"%char :: lit ";" ++ [LF])
    with ((struct_line name ++ "{"%char :: m) ++ "}"%char :: lit ";" ++ [LF])
    by (rewrite <- app_assoc; reflexivity).
  apply rfind_app. repeat constructor; discriminate.
Qed.

Lemma split_app_sep (c : ascii) (a b : str) :
  Forall (fun x => x <> c) a -> split c (a ++ c :: b) = a :: split c b.
Proof.
induction 1 as [|x a Hx _ IH]; simpl.
- rewrite Ascii.eqb_refl. reflexivity.
- destruct (Ascii.eqb x c) eqn:E.
  + apply Ascii.eqb_eq in E. contradiction.
  + rewrite IH. reflexivity.
Qed.

Lemma stmt_ok_strip (w x : str) :
  Forall (fun c => isspace c = true) w -> stmt_ok x -> strip (w ++ x) = x.
Proof.
intros Hw ((c & t & Hx & Hc) & Hr & _). unfold strip.
rewrite (lstrip_app_space _ _ Hw). subst x. simpl lstrip. rewrite Hc.
exact Hr.
Qed.

(** The statements of the body of a written struct are its members. *)
Lemma statements_of_block (stmts : list str) :
  Forall stmt_ok stmts ->
  statements_of (LF :: concat (map stmt_line stmts)) = stmts.
Proof.
induction 1 as [|x stmts Hx _ IH].
- reflexivity.
- assert (E : LF :: concat (map stmt_line (x :: stmts))
              = (LF :: lit "    " ++ x)
                ++ ";"%char :: (LF :: concat (map stmt_line stmts))).
  { simpl. unfold stmt_line. simpl. rewrite <- !app_assoc. reflexivity. }
  rewrite E. unfold statements_of in *.
  rewrite split_app_sep.
  + assert (Es : strip (LF :: lit "    " ++ x) = x).
    { apply (stmt_ok_strip (LF :: lit "    ") x); [|exact Hx].
      repeat constructor. }
    cbn [filter map]. rewrite Es.
    destruct Hx as ((c & t & -> & _) & _). cbn [is_empty negb map].
    rewrite Es, IH. reflexivity.
  + destruct Hx as (_ & _ & _ & Hch & _).
    constructor; [discriminate|].
    apply Forall_app. split; [repeat constructor; discriminate|].
    eapply Forall_impl; [|exact Hch]. intros a Ha. apply Ha.
Qed.

Lemma universal_newlines_id (s : str) :
  Forall (fun c => c <> CR) s -> universal_newlines s = s.
Proof.
induction 1 as [|c s Hc _ IH]; [reflexivity|].
cbn [universal_newlines].
destruct (Ascii.eqb c CR) eqn:E.
- apply Ascii.eqb_eq in E. contradiction.
- rewrite IH. reflexivity.
Qed.

Lemma splitlines_line (l rest : str) :
  Forall (fun c => c <> LF) l ->
  splitlines (l ++ LF :: rest) = (l ++ [LF]) :: splitlines rest.
Proof.
induction 1 as [|c l Hc _ IH]; simpl.
- reflexivity.
- destruct (Ascii.eqb c LF) eqn:E.
  + apply Ascii.eqb_eq in E. contradiction.
  + rewrite IH. reflexivity.
Qed.

Lemma readlines_lines (lines : list str) :
  Forall line_ok lines -> readlines (concat lines) = lines.
Proof.
intros H. unfold readlines. rewrite universal_newlines_id.
- induction H as [|line lines (l & -> & Hl) _ IH]; [reflexivity|].
  simpl concat. rewrite <- app_assoc. simpl app.
  rewrite splitlines_line, IH; [reflexivity|].
  eapply Forall_impl; [|exact Hl]. intros a Ha. apply Ha.
- apply Forall_concat.
  eapply Forall_impl; [|exact H].
  intros line (l & -> & Hl). apply Forall_app. split.
  + eapply Forall_impl; [|exact Hl]. intros a Ha. apply Ha.
  + repeat constructor. discriminate.
Qed.

Lemma split_ws_cons2 (x y : ascii) (r : str) :
  isspace x = false -> isspace y = false ->
  split_ws (x :: y :: r)
  = match split_ws (y :: r) with
    | h :: t => (x :: h) :: t
    | [] => [[x]]
    end.
Proof.
intros Hx Hy.
change (split_ws (x :: y :: r))
  with (if isspace x then split_ws (y :: r)
        else if isspace y then [x] :: split_ws (y :: r)
             else match split_ws (y :: r) with
                  | h :: t => (x :: h) :: t
                  | [] => [[x]]
                  end).
rewrite Hx, Hy. reflexivity.
Qed.

Lemma split_ws_token_app (a r : str) (sp : ascii) :
  token_ok a -> isspace sp = true ->
  split_ws (a ++ sp :: r) = a :: split_ws r.
Proof.
intros [Hne Ha] Hsp. induction a as [|x a IH]; [congruence|].
inversion Ha as [|? ? Hx Ha']; subst.
destruct a as [|y a'].
- simpl. rewrite Hx, Hsp. reflexivity.
- assert (Hy : isspace y = false) by (inversion Ha'; assumption).
  change (((x :: y :: a') ++ sp :: r)) with (x :: y :: a' ++ sp :: r).
  rewrite (split_ws_cons2 _ _ _ Hx Hy).
  change (y :: a' ++ sp :: r) with ((y :: a') ++ sp :: r).
  rewrite IH; [reflexivity | discriminate | exact Ha'].
Qed.

Lemma split_ws_token (a : str) : token_ok a -> split_ws a = [a].
Proof.
intros [Hne Ha]. induction a as [|x a IH]; [congruence|].
inversion Ha as [|? ? Hx Ha']; subst.
destruct a as [|y a'].
- simpl. rewrite Hx. reflexivity.
- assert (Hy : isspace y = false) by (inversion Ha'; assumption).
  rewrite (split_ws_cons2 _ _ _ Hx Hy).
  rewrite IH; [reflexivity | discriminate | exact Ha'].
Qed.

Lemma join_cons (sep a : str) (l : list str) :
  l <> [] -> join sep (a :: l) = a ++ sep ++ join sep l.
Proof. destruct l; [congruence | reflexivity]. Qed.

Lemma join_snoc (sep a : str) (l : list str) :
  l <> [] -> join sep (l ++ [a]) = join sep l ++ sep ++ a.
Proof.
induction l as [|b l IH]; [congruence|]. intros _.
destruct l as [|c l].
- reflexivity.
- change ((b :: c :: l) ++ [a]) with (b :: (c :: l) ++ [a]).
  rewrite join_cons by (destruct l; discriminate).
  rewrite IH by discriminate.
  rewrite (join_cons sep b (c :: l)) by discriminate.
  rewrite <- !app_assoc. reflexivity.
Qed.

Lemma split_ws_join (l : list str) :
  Forall token_ok l -> split_ws (join [SP] l) = l.
Proof.
induction 1 as [|a l Ha Hl IH]; [reflexivity|].
destruct l as [|b l].
- apply split_ws_token, Ha.
- rewrite join_cons by discriminate. cbn [app].
  rewrite (split_ws_token_app a _ SP Ha eq_refl), IH. reflexivity.
Qed.

Lemma rstrip_snoc (y : str) (c : ascii) :
  isspace c = false -> rstrip (y ++ [c]) = y ++ [c].
Proof.
intros Hc. unfold rstrip. rewrite rev_app_distr. simpl.
rewrite Hc. simpl. rewrite rev_involutive. reflexivity.
Qed.

Lemma token_last (a : str) :
  token_ok a -> exists y c, a = y ++ [c] /\ isspace c = false.
Proof.
intros [Hne Ha].
destruct (exists_last Hne) as (y & c & ->).
exists y, c. split; [reflexivity|].
apply Forall_app in Ha. destruct Ha as [_ Ha]. inversion Ha; assumption.
Qed.

Lemma type_ok_first (ty : str) :
  type_ok ty -> exists c t, ty = c :: t /\ isspace c = false.
Proof.
intros (tokens & Hne & Htok & ->).
destruct tokens as [|a l]; [congruence|].
inversion Htok as [|? ? [Hane Ha] _]; subst.
destruct a as [|c a]; [congruence|].
inversion Ha; subst.
destruct l; simpl; eauto.
Qed.

Lemma type_ok_chars (ty : str) :
  type_ok ty -> Forall (fun c => c <> LF /\ c <> CR) ty.
Proof.
intros (tokens & _ & Htok & ->).
apply Forall_join.
- repeat constructor; discriminate.
- eapply Forall_impl; [|exact Htok].
  intros a [_ Ha]. eapply Forall_impl; [|exact Ha].
  intros c Hc. split; intros ->; discriminate.
Qed.

Lemma token_ok_chars (a : str) :
  token_ok a -> Forall (fun c => c <> LF /\ c <> CR) a.
Proof.
intros [_ Ha]. eapply Forall_impl; [|exact Ha].
intros c Hc. split; intros ->; discriminate.
Qed.

Lemma decl_stmt_ok (f : Field.t) :
  field_parsed f -> Field.is_array f = false ->
  startswith (lit "//") (Field.type_name f) = false ->
  Forall (fun c => c <> "{"%char /\ c <> "}"%char) (Field.type_name f) ->
  Forall (fun c => c <> "{"%char /\ c <> "}"%char) (Field.name f) ->
  stmt_ok (decl_stmt f).
Proof.
intros (Hty & Htc & Hnc & Hna) Harr Hcom Htb Hnb.
destruct (Hna Harr) as (Htok & _ & _).
unfold decl_stmt, stmt_ok.
destruct (type_ok_first _ Hty) as (c & t & Et & Hc).
destruct (token_last _ Htok) as (y & d & En & Hd).
split; [|split; [|split; [|split]]].
- rewrite Et. exists c, (t ++ [SP] ++ Field.name f).
  split; [reflexivity | exact Hc].
- rewrite En. rewrite !app_assoc. apply rstrip_snoc, Hd.
- rewrite Et in *. destruct t as [|e t]; simpl in *.
  + apply andb_false_r.
  + exact Hcom.
- pose proof (type_ok_chars _ Hty) as H1.
  pose proof (token_ok_chars _ Htok) as H2.
  apply Forall_app. split; [|apply Forall_app; split].
  + rewrite Forall_forall in *. intros a Ha.
    specialize (H1 a Ha). specialize (Htc a Ha). cbv beta in *. tauto.
  + repeat constructor; discriminate.
  + rewrite Forall_forall in *. intros a Ha.
    specialize (H2 a Ha). specialize (Hnc a Ha). cbv beta in *. tauto.
- rewrite !count_app.
  assert (Z : forall b, b = "{"%char \/ b = "}"%char ->
                count b (Field.type_name f) = 0%Z
                /\ count b [SP] = 0%Z /\ count b (Field.name f) = 0%Z).
  { intros b Hb. split; [|split]; apply count_free.
    - eapply Forall_impl; [|exact Htb]. intros a [A1 A2].
      destruct Hb; congruence.
    - repeat constructor. destruct Hb; subst; discriminate.
    - eapply Forall_impl; [|exact Hnb]. intros a [A1 A2].
      destruct Hb; congruence. }
  destruct (Z "{"%char (or_introl eq_refl)) as (-> & -> & ->).
  destruct (Z "}"%char (or_intror eq_refl)) as (-> & -> & ->).
  reflexivity.
Qed.

(** Reading the statement of a field gives the field back. *)
Lemma parse_statement_field (s : StructDef.t) (off : Z) (f : Field.t) :
  field_parsed f -> Field.is_array f = false ->
  parse_statement (s, off) (decl_stmt f)
  = let g := Field.mk (Field.name f) (Field.type_name f) false 0%Z off in
    (StructDef.mk (StructDef.name s) (StructDef.fields s ++ [g])
                  (StructDef.header_string s) (StructDef.size s),
     (off + Field.size g)%Z).
Proof.
intros (Hty & Htc & Hnc & Hna) Harr.
destruct (Hna Harr) as (Htok & Hbr & _).
pose proof (type_ok_first _ Hty) as (c & t & Et & Hc).
pose proof (token_last _ Htok) as (y & d & En & Hd).
assert (Hne : is_empty (decl_stmt f) = false)
  by (unfold decl_stmt; rewrite Et; reflexivity).
assert (Hlf : Forall (fun a => a <> LF) (decl_stmt f)).
{ unfold decl_stmt. apply Forall_app. split; [|apply Forall_app; split].
  - eapply Forall_impl; [|exact (type_ok_chars _ Hty)]. intros a Ha; apply Ha.
  - repeat constructor; discriminate.
  - eapply Forall_impl; [|exact (token_ok_chars _ Htok)].
    intros a Ha; apply Ha. }
assert (Heq : Forall (fun a => a <> "="%char) (decl_stmt f)).
{ unfold decl_stmt. apply Forall_app. split; [|apply Forall_app; split].
  - eapply Forall_impl; [|exact Htc]. intros a Ha; apply Ha.
  - repeat constructor; discriminate.
  - eapply Forall_impl; [|exact Hnc]. intros a Ha; apply Ha. }
assert (Hrep : replace LF SP (decl_stmt f) = decl_stmt f)
  by (apply replace_free, Hlf).
assert (Hdecl : declarator (decl_stmt f) = decl_stmt f).
{ unfold declarator. rewrite Hrep, (split_free _ _ Heq). reflexivity. }
assert (Hhdr : sets_header (decl_stmt f) = false).
{ unfold sets_header. rewrite Hrep.
  change (lit "=") with ["="%char].
  rewrite (contains_free _ _ Heq). apply andb_false_r. }
assert (Hstrip : strip (decl_stmt f) = decl_stmt f).
{ unfold strip.
  replace (lstrip (decl_stmt f)) with (decl_stmt f)
    by (unfold decl_stmt; rewrite Et; simpl; rewrite Hc; reflexivity).
  unfold decl_stmt. rewrite En, !app_assoc. apply rstrip_snoc, Hd. }
destruct Hty as (tokens & Htne & Htoks & Ety).
assert (Hparts : split_ws (decl_stmt f) = tokens ++ [Field.name f]).
{ unfold decl_stmt. rewrite Ety, <- (join_snoc _ _ _ Htne).
  apply split_ws_join. apply Forall_app. split; [exact Htoks|].
  constructor; [exact Htok | constructor]. }
rewrite (parse_statement_eq _ _ _ Hne). cbv zeta.
rewrite Hhdr, Hdecl, Hstrip, Hparts.
assert (Hlen : (List.length (tokens ++ [Field.name f]) <? 2)%nat = false).
{ apply Nat.ltb_ge. rewrite length_app. simpl.
  destruct tokens; [congruence | simpl; lia]. }
rewrite Hlen. unfold field_of_parts.
rewrite last_last, removelast_last, Hbr, <- Ety. reflexivity.
Qed.

Lemma findall_skip (x : ascii) (t : str) :
  x <> QUOTE ->
  Re.findall_char_literals (x :: t) = Re.findall_char_literals t.
Proof.
intros Hx. destruct t as [|c [|q' rest]]; try reflexivity.
rewrite findall_step.
destruct (Ascii.eqb x QUOTE) eqn:E; [|reflexivity].
apply Ascii.eqb_eq in E. contradiction.
Qed.

Lemma findall_prefix (a t : str) :
  Forall (fun x => x <> QUOTE) a ->
  Re.findall_char_literals (a ++ t) = Re.findall_char_literals t.
Proof.
induction 1 as [|x a Hx _ IH]; [reflexivity|].
simpl app. rewrite (findall_skip _ _ Hx). exact IH.
Qed.

Lemma findall_padding (k : nat) :
  (k <= 4)%nat ->
  Re.findall_char_literals (join (lit ", ") (repeat (lit "'\0'") k) ++ lit "}")
  = [].
Proof.
intros H.
destruct k as [|[|[|[|[|k]]]]]; try lia; reflexivity.
Qed.

Lemma findall_initializers (tag : str) (k : nat) :
  (k <= 4)%nat -> Forall (fun c => c <> QUOTE) tag ->
  Re.findall_char_literals
    (join (lit ", ")
       (map (fun c => [QUOTE] ++ [c] ++ [QUOTE]) tag ++ repeat (lit "'\0'") k)
     ++ lit "}")
  = tag.
Proof.
intros Hk. induction 1 as [|c tag Hc _ IH].
- apply findall_padding, Hk.
- cbn [map app].
  set (l := map _ tag ++ repeat _ k) in *.
  assert (Eq : Ascii.eqb c QUOTE = false).
  { destruct (Ascii.eqb c QUOTE) eqn:E; [|reflexivity].
    apply Ascii.eqb_eq in E. contradiction. }
  destruct l as [|b l'] eqn:El.
  + destruct tag; [|discriminate]. cbn [join app lit list_ascii_of_string].
    rewrite findall_step, Eq. reflexivity.
  + rewrite join_cons by discriminate.
    cbn [app lit list_ascii_of_string].
    rewrite findall_step, Eq. cbn [Ascii.eqb_refl negb andb].
    change (Ascii.eqb QUOTE QUOTE) with true. cbn [negb andb].
    f_equal.
    rewrite (findall_skip ","%char) by discriminate.
    rewrite (findall_skip " "%char) by discriminate.
    exact IH.
Qed.

Lemma header_initializers_chars (P : ascii -> Prop) (tag : str) :
  P QUOTE -> P "\"%char -> P "0"%char -> Forall P tag ->
  Forall (Forall P) (header_initializers tag).
Proof.
intros Hq Hb H0 Ht. unfold header_initializers. apply Forall_app. split.
- apply Forall_map. eapply Forall_impl; [|exact Ht].
  intros c Hc. repeat constructor; assumption.
- apply Forall_forall. intros x Hx. apply repeat_spec in Hx. subst x.
  repeat constructor; assumption.
Qed.

Lemma header_stmt_chars (P : ascii -> Prop) (tag : str) :
  Forall P (lit "char header[4] = {', \0}") -> Forall P tag ->
  Forall P (header_stmt tag).
Proof.
intros Hp Ht. rewrite Forall_forall in Hp. unfold header_stmt.
assert (In' : forall c, In c (lit "char header[4] = {', \0}") -> P c)
  by exact Hp.
apply Forall_app. split; [|apply Forall_app; split].
- apply Forall_forall. intros c Hc. apply In'.
  revert Hc. cbn. tauto.
- apply Forall_join.
  + apply Forall_forall. intros c Hc. apply In'. revert Hc. cbn. tauto.
  + apply header_initializers_chars; try assumption; apply In'; cbn; tauto.
- apply Forall_forall. intros c Hc. apply In'. revert Hc. cbn. tauto.
Qed.

Lemma remove_id (a : ascii) (s : str) :
  Forall (fun c => c <> a) s -> remove a s = s.
Proof.
unfold remove. induction 1 as [|x s Hx _ IH]; simpl; [reflexivity|].
destruct (Ascii.eqb x a) eqn:E.
- apply Ascii.eqb_eq in E. contradiction.
- simpl. rewrite IH. reflexivity.
Qed.

Lemma header_stmt_ok (tag : str) :
  Forall (fun c => c <> ";"%char /\ c <> LF /\ c <> CR) tag ->
  Forall (fun c => c <> "{"%char /\ c <> "}"%char) tag ->
  stmt_ok (header_stmt tag).
Proof.
intros Hch Hbr. unfold stmt_ok.
split; [|split; [|split; [|split]]].
- unfold header_stmt. cbn [lit list_ascii_of_string app].
  eexists; eexists. split; reflexivity.
- unfold header_stmt. change (lit "}") with ["}"%char].
  rewrite app_assoc. apply rstrip_snoc. reflexivity.
- reflexivity.
- apply header_stmt_chars; [|exact Hch].
  repeat constructor; discriminate.
- assert (Z : forall b, b = "{"%char \/ b = "}"%char ->
            count b (join (lit ", ") (header_initializers tag)) = 0%Z).
  { intros b Hb. apply count_free, Forall_join.
    - repeat constructor; destruct Hb; subst; discriminate.
    - apply header_initializers_chars;
        try (destruct Hb; subst; discriminate).
      eapply Forall_impl; [|exact Hbr]. intros a [A1 A2].
      destruct Hb; congruence. }
  unfold header_stmt. rewrite !count_app.
  rewrite (Z "{"%char (or_introl eq_refl)), (Z "}"%char (or_intror eq_refl)).
  reflexivity.
Qed.

(** Reading the statement of the header member gives the tag back, and
    a field for the member. *)
Lemma parse_statement_header_stmt (s : StructDef.t) (off : Z) (tag : str) :
  Forall (fun c => c <> QUOTE /\ c <> NUL /\ c <> LF) tag ->
  parse_statement (s, off) (header_stmt tag)
  = (StructDef.mk (StructDef.name s)
       (StructDef.fields s ++ [Field.mk (lit "header") (lit "char") true 4%Z off])
       tag (StructDef.size s),
     (off + 4)%Z).
Proof.
intros Ht.
assert (Hne : is_empty (header_stmt tag) = false) by reflexivity.
assert (Hlf : Forall (fun a => a <> LF) (header_stmt tag)).
{ apply header_stmt_chars; [repeat constructor; discriminate|].
  eapply Forall_impl; [|exact Ht]. intros a Ha; apply Ha. }
assert (Hrep : replace LF SP (header_stmt tag) = header_stmt tag)
  by (apply replace_free, Hlf).
assert (Hhdr : sets_header (header_stmt tag) = true).
{ unfold sets_header. rewrite Hrep, Hne. cbn [negb andb].
  unfold header_stmt.
  rewrite (contains_app_l (lit "header[")) by reflexivity.
  rewrite (contains_app_l (lit "=")) by reflexivity. reflexivity. }
assert (Htag : tag_of (header_stmt tag) = tag).
{ unfold tag_of. rewrite Hrep. unfold header_stmt.
  rewrite findall_prefix by (apply Forall_neq; reflexivity).
  unfold header_initializers.
  rewrite findall_initializers.
  - apply remove_id. eapply Forall_impl; [|exact Ht]. intros a Ha; apply Ha.
  - lia.
  - eapply Forall_impl; [|exact Ht]. intros a Ha; apply Ha. }
assert (Hdecl : declarator (header_stmt tag) = lit "char header[4] ").
{ unfold declarator. rewrite Hrep. unfold header_stmt.
  change (lit "char header[4] = {")
    with (lit "char header[4] " ++ "="%char :: lit " {").
  rewrite <- app_assoc. cbn [app].
  rewrite split_app_sep by (apply Forall_neq; reflexivity).
  reflexivity. }
rewrite (parse_statement_eq _ _ _ Hne). cbv zeta.
rewrite Hhdr, Htag, Hdecl.
reflexivity.
Qed.

End Blocks.

Section Generated.

Lemma struct_lines_block (s : StructDef.t) :
  concat (struct_lines s)
  = concat (block_lines (StructDef.name s) (members s)).
Proof.
unfold struct_lines, block_lines, members, header_lines.
rewrite !concat_app.
assert (Ef : forall l,
           concat (map (fun field => lit "    " ++ Field.type_name field
                          ++ [SP] ++ Field.name field ++ lit ";" ++ [LF]) l)
           = concat (map stmt_line (map decl_stmt l))).
{ induction l as [|f l IH]; [reflexivity|]. cbn [map concat].
  rewrite IH. unfold stmt_line, decl_stmt.
  rewrite <- !app_assoc. reflexivity. }
rewrite Ef.
destruct (_ && _); cbn [app map concat]; rewrite ?map_app, ?concat_app;
  unfold stmt_line, header_stmt, struct_line; cbn [map concat];
  rewrite <- ?app_assoc; cbn [lit list_ascii_of_string app];
  rewrite ?app_nil_r; reflexivity.
Qed.

Lemma generate_header_lines (structs : list StructDef.t) :
  generate_header structs = concat (generated_lines structs).
Proof.
unfold generate_header, generate_header_writes, generated_lines.
rewrite !concat_app.
change (concat [lit "#pragma once" ++ [LF]; lit "#include <cstdint>" ++ [LF; LF]])
  with (concat [lit "#pragma once" ++ [LF]; lit "#include <cstdint>" ++ [LF];
                [LF]]).
f_equal.
induction structs as [|s ss IH]; [reflexivity|].
cbn [flat_map]. rewrite !concat_app, IH, struct_lines_block. reflexivity.
Qed.

Lemma block_lines_ok (name : str) (stmts : list str) :
  name_parsed name -> Forall stmt_ok stmts ->
  Forall line_ok (block_lines name stmts).
Proof.
intros [_ Hn] Hs. unfold block_lines.
apply Forall_app. split; [|apply Forall_app; split].
- constructor; [|constructor; [|constructor]].
  + exists (lit "struct __attribute__((packed)) " ++ name).
    split; [unfold struct_line; rewrite app_assoc; reflexivity|].
    apply Forall_app. split; [repeat constructor; discriminate|].
    eapply Forall_impl; [|exact Hn].
    intros c Hc. split; intros ->; discriminate.
  + exists (lit "{"). split; [reflexivity|].
    repeat constructor; discriminate.
- apply Forall_map. eapply Forall_impl; [|exact Hs].
  intros x (_ & _ & _ & Hx & _).
  exists (lit "    " ++ x ++ lit ";").
  split; [unfold stmt_line; rewrite <- !app_assoc; reflexivity|].
  apply Forall_app. split; [repeat constructor; discriminate|].
  apply Forall_app. split; [|repeat constructor; discriminate].
  eapply Forall_impl; [|exact Hx].
  intros c (_ & H1 & H2). split; assumption.
- constructor; [|constructor; [|constructor]].
  + exists (lit "};"). split; [reflexivity|].
    repeat constructor; discriminate.
  + exists []. split; [reflexivity | constructor].
Qed.

Lemma blocks_parsed (ss : list StructDef.t) (p : parser) :
  in_struct p = false ->
  Forall (fun s => name_parsed (StructDef.name s)
                   /\ Forall stmt_ok (members s)) ss ->
  in_struct
    (fold_left parse_line
       (flat_map (fun s => block_lines (StructDef.name s) (members s)) ss) p)
  = false
  /\ structs
       (fold_left parse_line
          (flat_map (fun s => block_lines (StructDef.name s) (members s)) ss)
          p)
     = structs p ++ map reparsed ss.
Proof.
intros Hi H; revert p Hi; induction H as [|s ss [Hn Hs] _ IH]; intros p Hi.
- simpl. rewrite app_nil_r. split; [exact Hi | reflexivity].
- cbn [flat_map map]. rewrite fold_left_app.
  destruct (block_parsed p _ _ Hi Hn Hs) as (p' & -> & Hi' & Hs').
  destruct (IH p' Hi') as [E1 E2].
  split; [exact E1|].
  rewrite E2, Hs', <- app_assoc. reflexivity.
Qed.

(** Reading back the file [generate_header] writes. *)
Lemma parse_generated (ss : list StructDef.t) :
  Forall (fun s => name_parsed (StructDef.name s)
                   /\ Forall stmt_ok (members s)) ss ->
  parse_header_file (generate_header ss) = map reparsed ss.
Proof.
intros H. unfold parse_header_file, parse_lines.
rewrite generate_header_lines, readlines_lines.
- unfold generated_lines. rewrite fold_left_app.
  change (fold_left parse_line
            [lit "#pragma once" ++ [LF]; lit "#include <cstdint>" ++ [LF];
             [LF]] parser_init)
    with parser_init.
  apply (blocks_parsed ss parser_init eq_refl H).
- unfold generated_lines. apply Forall_app. split.
  + constructor; [|constructor; [|constructor; [|constructor]]].
    * exists (lit "#pragma once"). split; [reflexivity|].
      repeat constructor; discriminate.
    * exists (lit "#include <cstdint>"). split; [reflexivity|].
      repeat constructor; discriminate.
    * exists []. split; [reflexivity | constructor].
  + apply Forall_flat_map. eapply Forall_impl; [|exact H].
    intros s [Hn Hs]. apply block_lines_ok; assumption.
Qed.

Lemma brace_free_Forall (s : str) :
  brace_free s = true ->
  Forall (fun c => c <> "{"%char /\ c <> "}"%char) s.
Proof.
unfold brace_free. intros H. rewrite forallb_forall in H.
apply Forall_forall. intros c Hc. specialize (H c Hc).
apply andb_prop in H. destruct H as [H1 H2].
split; intros ->; discriminate.
Qed.

Lemma plain_field_spec (f : Field.t) :
  plain_field f = true ->
  Field.is_array f = false
  /\ is_header f = false
  /\ startswith (lit "//") (Field.type_name f) = false
  /\ Forall (fun c => c <> "{"%char /\ c <> "}"%char) (Field.type_name f)
  /\ Forall (fun c => c <> "{"%char /\ c <> "}"%char) (Field.name f).
Proof.
unfold plain_field. intros H.
repeat (apply andb_prop in H; destruct H as [H ?]).
repeat match goal with
       | X : negb _ = true |- _ => apply negb_true_iff in X
       end.
repeat split; try assumption; apply brace_free_Forall; assumption.
Qed.

Lemma plain_fields_ok (l : list Field.t) :
  Forall field_parsed l -> forallb plain_field l = true ->
  Forall stmt_ok (map decl_stmt l).
Proof.
intros Hp Hl. rewrite forallb_forall in Hl.
apply Forall_map. rewrite Forall_forall in *. intros f Hf.
destruct (plain_field_spec f (Hl f Hf)) as (H1 & _ & H3 & H4 & H5).
apply decl_stmt_ok; auto.
Qed.

(** Reading the statements of plain fields gives the fields back, each
    where it was. *)
Lemma parse_statements_fields (l : list Field.t) (s : StructDef.t) (off : Z) :
  Forall field_parsed l -> forallb plain_field l = true ->
  packed_from off l ->
  fold_left parse_statement (map decl_stmt l) (s, off)
  = (StructDef.mk (StructDef.name s) (StructDef.fields s ++ l)
                  (StructDef.header_string s) (StructDef.size s),
     (off + sum_sizes l)%Z).
Proof.
intros Hp; revert s off; induction Hp as [|f l Hf _ IH]; intros s off Hl Hk.
- simpl. rewrite app_nil_r. destruct s. unfold sum_sizes. simpl.
  rewrite Z.add_0_r. reflexivity.
- cbn [forallb] in Hl. apply andb_prop in Hl. destruct Hl as [Hpf Hl].
  destruct Hk as [Ho Hk].
  destruct (plain_field_spec f Hpf) as (Harr & _).
  cbn [map fold_left].
  rewrite (parse_statement_field _ _ _ Hf Harr). cbv zeta.
  assert (Eg : Field.mk (Field.name f) (Field.type_name f) false 0%Z off = f).
  { destruct Hf as (_ & _ & _ & Hna). destruct (Hna Harr) as (_ & _ & Ez).
    destruct f; simpl in *; subst; reflexivity. }
  rewrite Eg, (IH _ _ Hl Hk).
  cbn [StructDef.name StructDef.fields StructDef.header_string
       StructDef.size].
  rewrite <- app_assoc. unfold sum_sizes at 2. cbn [fold_right app].
  fold (sum_sizes l). f_equal. lia.
Qed.

Lemma reparsed_eq (s : StructDef.t) :
  Forall stmt_ok (members s) ->
  reparsed s
  = let (s', off) :=
      fold_left parse_statement (members s)
                (StructDef.init (StructDef.name s), 0%Z) in
    StructDef.mk (StructDef.name s') (StructDef.fields s')
                 (StructDef.header_string s') off.
Proof.
intros H. unfold reparsed, parse_body.
rewrite (statements_of_block _ H). reflexivity.
Qed.

(** A written struct without header member reads back with its fields
    and no tag. *)
Lemma reparsed_plain (name tag : str) (l : list Field.t) :
  Forall field_parsed l -> forallb plain_field l = true ->
  packed_from 0 l ->
  let s := StructDef.mk name l tag 0%Z in
  Forall stmt_ok (members s)
  /\ reparsed s = StructDef.mk name l [] (sum_sizes l).
Proof.
intros Hp Hl Hk s.
assert (Hh : header_lines s = []).
{ unfold header_lines, s. cbn [StructDef.fields].
  destruct l as [|f l']; [reflexivity|].
  destruct Hk as [-> _]. reflexivity. }
assert (Hm : members s = map decl_stmt l).
{ unfold members. rewrite Hh. reflexivity. }
assert (Hok : Forall stmt_ok (members s)).
{ rewrite Hm. apply plain_fields_ok; assumption. }
split; [exact Hok|].
rewrite (reparsed_eq _ Hok), Hm.
rewrite (parse_statements_fields _ _ _ Hp Hl Hk). reflexivity.
Qed.

(** A written struct with its header member reads back with the tag, a
    [header] field of 4 bytes, and its fields. *)
Lemma reparsed_tagged (name tag : str) (l : list Field.t) :
  Forall field_parsed l -> forallb plain_field l = true ->
  packed_from 4 l -> l <> [] ->
  tag <> [] -> tag_parsed tag -> brace_free tag = true ->
  let s := StructDef.mk name l tag 0%Z in
  Forall stmt_ok (members s)
  /\ reparsed s
     = StructDef.mk name
         (Field.mk (lit "header") (lit "char") true 4%Z 0%Z :: l)
         tag (4 + sum_sizes l)%Z.
Proof.
intros Hp Hl Hk Hne Htne Htag Hbr s.
assert (Hm : members s = header_stmt tag :: map decl_stmt l).
{ unfold members, header_lines, s.
  cbn [StructDef.fields StructDef.header_string].
  destruct l as [|f l']; [congruence|].
  destruct Hk as [-> _]. destruct tag; [congruence|]. reflexivity. }
assert (Hok : Forall stmt_ok (members s)).
{ rewrite Hm. constructor; [|apply plain_fields_ok; assumption].
  apply header_stmt_ok; [|apply brace_free_Forall, Hbr].
  eapply Forall_impl; [|exact Htag]. intros c Hc. cbv beta in *. tauto. }
split; [exact Hok|].
rewrite (reparsed_eq _ Hok), Hm. cbn [fold_left].
rewrite parse_statement_header_stmt.
- rewrite (parse_statements_fields _ _ _ Hp Hl Hk). reflexivity.
- eapply Forall_impl; [|exact Htag]. intros c Hc. cbv beta in *. tauto.
Qed.

Lemma sorted_of_packed (l : list Field.t) (o : Z) :
  packed_from o l -> Forall (fun f => (0 <= Field.size f)%Z) l ->
  Sorted le_offset l.
Proof.
revert o; induction l as [|f l IH]; intros o Hk Hz; [constructor|].
destruct Hk as [Ho Hk]. inversion Hz as [|? ? Hf Hz']; subst.
constructor; [apply (IH _ Hk Hz')|].
destruct l as [|g l]; constructor.
destruct Hk as [Hg _]. unfold le_offset. lia.
Qed.

Lemma sort_sorted_id (l : list Field.t) :
  Sorted le_offset l -> sort_by_offset l = l.
Proof.
induction 1 as [|f l Hs IH Hh]; [reflexivity|].
cbn [sort_by_offset fold_right]. fold (sort_by_offset l). rewrite IH.
destruct Hh as [|g l' Hfg]; [reflexivity|].
cbn [insert_by_offset]. apply Z.leb_le in Hfg. rewrite Hfg. reflexivity.
Qed.

Lemma plain_fields_normal (l : list Field.t) :
  Forall field_parsed l -> forallb plain_field l = true ->
  map (fun f => Field.mk (Field.name f) (Field.type_name f) false 0%Z
                         (Field.offset f)) l = l.
Proof.
intros Hp Hl. rewrite forallb_forall in Hl. rewrite Forall_forall in Hp.
rewrite <- (map_id l) at 2. apply map_ext_in. intros f Hf.
destruct (plain_field_spec f (Hl f Hf)) as (Harr & _).
destruct (Hp f Hf) as (_ & _ & _ & Hna).
destruct (Hna Harr) as (_ & _ & Ez).
destruct f; simpl in *; subst; reflexivity.
Qed.

Lemma through_schema_eq (s : StructDef.t) (l : list Field.t) :
  endswith (lit "Data") (StructDef.name s) = true ->
  filter (fun f => negb (is_header f)) (StructDef.fields s) = l ->
  Forall field_parsed l -> forallb plain_field l = true ->
  Sorted le_offset l ->
  through_schema s
  = StructDef.mk (StructDef.name s) l
      (if is_empty (StructDef.header_string s)
       then pkt_id_of (StructDef.name s)
       else StructDef.header_string s) 0%Z.
Proof.
intros Hd Hf Hp Hl Hs. unfold through_schema.
rewrite Hf, (plain_fields_normal _ Hp Hl), (sort_sorted_id _ Hs).
rewrite pkt_id_of_Data, Hd. reflexivity.
Qed.

Lemma plain_fields_not_header (l : list Field.t) :
  forallb plain_field l = true ->
  filter (fun f => negb (is_header f)) l = l
  /\ filter (fun f => negb (Field.is_array f)) l = l.
Proof.
intros Hl.
split; apply forallb_filter_id; rewrite forallb_forall in *; intros f Hf;
  destruct (plain_field_spec f (Hl f Hf)) as (H1 & H2 & _);
  [rewrite H2 | rewrite H1]; reflexivity.
Qed.

(** A struct that is ready for the round trip comes back with the same
    layout. *)
Lemma ready_round_trip (s : StructDef.t) :
  struct_parsed s -> round_trip_ready s = true ->
  name_parsed (StructDef.name (through_schema s))
  /\ Forall stmt_ok (members (through_schema s))
  /\ same_layout s (reparsed (through_schema s)).
Proof.
intros (Hn & Hp & Htag & Hk & Hsz & Hz) Hr.
unfold round_trip_ready in Hr. apply andb_prop in Hr.
destruct Hr as [Hd Hr].
destruct (is_empty (StructDef.header_string s)) eqn:Et.
- destruct (plain_fields_not_header _ Hr) as [Hnh Hna].
  pose proof (through_schema_eq s _ Hd Hnh Hp Hr
                (sorted_of_packed _ _ Hk Hz)) as E.
  rewrite Et in E. rewrite E.
  destruct (reparsed_plain (StructDef.name s)
              (pkt_id_of (StructDef.name s)) _ Hp Hr Hk) as [Hok Hre].
  split; [exact Hn|]. split; [exact Hok|].
  rewrite Hre. unfold same_layout, plain_keys.
  cbn [StructDef.name StructDef.fields StructDef.header_string
       StructDef.size].
  destruct (StructDef.header_string s); [|discriminate]. auto.
- destruct (StructDef.fields s) as [|h rest] eqn:Ef; [discriminate|].
  repeat (apply andb_prop in Hr; destruct Hr as [Hr ?]).
  unfold leading_header in Hr.
  repeat (apply andb_prop in Hr; destruct Hr as [Hr ?]).
  match goal with X : (Field.size h =? 4)%Z = true |- _ =>
    apply Z.eqb_eq in X; rename X into Hh4 end.
  match goal with X : forallb plain_field rest = true |- _ =>
    rename X into Hrest end.
  match goal with X : brace_free _ = true |- _ => rename X into Hbr end.
  match goal with X : Field.is_array h = true |- _ => rename X into Harr end.
  match goal with X : negb _ = true |- _ => rename X into Hne end.
  inversion Hp as [|? ? Hph Hprest]; subst.
  inversion Hz as [|? ? Hzh Hzrest]; subst.
  destruct Hk as [Hoh Hk]. rewrite Hh4 in Hk. cbn in Hk.
  destruct (plain_fields_not_header _ Hrest) as [Hnh Hna].
  assert (Hfil : filter (fun f => negb (is_header f)) (StructDef.fields s)
                 = rest).
  { rewrite Ef. cbn [filter]. rewrite Hr. cbn [negb]. exact Hnh. }
  pose proof (through_schema_eq s _ Hd Hfil Hprest Hrest
                (sorted_of_packed _ _ Hk Hzrest)) as E.
  rewrite Et in E. rewrite E.
  assert (Hrne : rest <> []) by (destruct rest; [discriminate | discriminate]).
  assert (Htne : StructDef.header_string s <> [])
    by (destruct (StructDef.header_string s); [discriminate | discriminate]).
  destruct (reparsed_tagged (StructDef.name s) (StructDef.header_string s)
              _ Hprest Hrest Hk Hrne Htne Htag Hbr) as [Hok Hre].
  split; [exact Hn|]. split; [exact Hok|].
  rewrite Hre. unfold same_layout, plain_keys.
  cbn [StructDef.name StructDef.fields StructDef.header_string
       StructDef.size].
  rewrite Ef. cbn [filter Field.is_array negb]. rewrite Harr. cbn [negb].
  repeat split.
  rewrite Hsz. unfold sum_sizes at 1. cbn [fold_right].
  fold (sum_sizes rest). rewrite Hh4. reflexivity.
Qed.

End Generated.

(** ** Lemmas on the literals of a header statement *)

Section HeaderLiterals.

Lemma replace_join (a b : ascii) (sep : str) (l : list str) :
  replace a b (join sep l)
  = join (replace a b sep) (map (replace a b) l).
Proof.
induction l as [|x l IH]; [reflexivity|].
destruct l as [|y l]; [reflexivity|].
change (join sep (x :: y :: l)) with (x ++ sep ++ join sep (y :: l)).
change (join (replace a b sep) (map (replace a b) (x :: y :: l)))
  with (replace a b x ++ replace a b sep
        ++ join (replace a b sep) (map (replace a b) (y :: l))).
rewrite <- IH. unfold replace. rewrite !map_app. reflexivity.
Qed.

Lemma replace_keeps_free (q a b : ascii) (s : str) :
  b <> q -> Forall (fun c => c <> q) s ->
  Forall (fun c => c <> q) (replace a b s).
Proof.
intros Hb H. unfold replace. apply Forall_map.
eapply Forall_impl; [|exact H]. intros c Hc. cbv beta.
destruct (Ascii.eqb c a); assumption.
Qed.

(** The literals of a list of one-character literals. *)
Lemma findall_literals (sep post cs : str) :
  Forall (fun c => c <> QUOTE) sep ->
  Forall (fun c => c <> QUOTE) post ->
  Forall (fun c => c <> QUOTE) cs ->
  Re.findall_char_literals
    (join sep (map (fun c => [QUOTE; c; QUOTE]) cs) ++ post)
  = cs.
Proof.
intros Hsep Hpost Hcs.
assert (Hp : Re.findall_char_literals post = []).
{ rewrite <- (app_nil_r post). rewrite (findall_prefix _ _ Hpost).
  reflexivity. }
induction Hcs as [|c cs Hc Hcs IH]; [exact Hp|].
assert (Ec : Ascii.eqb c QUOTE = false).
{ destruct (Ascii.eqb c QUOTE) eqn:E; [|reflexivity].
  apply Ascii.eqb_eq in E. contradiction. }
destruct cs as [|d cs].
- cbn [map join app]. rewrite findall_step.
  change (Ascii.eqb QUOTE QUOTE) with true. rewrite Ec. cbn [negb andb].
  rewrite Hp. reflexivity.
- change (join sep (map (fun c => [QUOTE; c; QUOTE]) (c :: d :: cs)) ++ post)
    with (QUOTE :: c :: QUOTE
          :: (sep ++ join sep (map (fun c => [QUOTE; c; QUOTE]) (d :: cs)))
             ++ post).
  rewrite findall_step.
  change (Ascii.eqb QUOTE QUOTE) with true. rewrite Ec. cbn [negb andb].
  rewrite <- app_assoc, (findall_prefix _ _ Hsep), IH. reflexivity.
Qed.

(** The tag of a statement whose quotes are those of a list of
    one-character literals: the characters between the quotes, a line
    feed as a space, the null characters left out. *)
Lemma tag_of_literals (pre sep post cs : str) :
  Forall (fun c => c <> QUOTE) pre ->
  Forall (fun c => c <> QUOTE) sep ->
  Forall (fun c => c <> QUOTE) post ->
  Forall (fun c => c <> QUOTE) cs ->
  tag_of (pre ++ join sep (map (fun c => [QUOTE; c; QUOTE]) cs) ++ post)
  = filter (fun c => negb (Ascii.eqb c NUL))
           (map (fun c => if Ascii.eqb c LF then SP else c) cs).
Proof.
intros Hpre Hsep Hpost Hcs. unfold tag_of.
assert (E : replace LF SP
              (pre ++ join sep (map (fun c => [QUOTE; c; QUOTE]) cs) ++ post)
            = replace LF SP pre
              ++ join (replace LF SP sep)
                   (map (fun c => [QUOTE; c; QUOTE]) (replace LF SP cs))
              ++ replace LF SP post).
{ unfold replace at 1. rewrite !map_app.
  fold (replace LF SP pre). fold (replace LF SP post).
  fold (replace LF SP (join sep (map (fun c => [QUOTE; c; QUOTE]) cs))).
  rewrite replace_join. f_equal. f_equal. f_equal.
  unfold replace. rewrite !map_map. reflexivity. }
rewrite E.
assert (Hsp : SP <> QUOTE) by discriminate.
rewrite (findall_prefix _ _ (replace_keeps_free _ _ _ _ Hsp Hpre)).
rewrite (findall_literals _ _ _
           (replace_keeps_free _ _ _ _ Hsp Hsep)
           (replace_keeps_free _ _ _ _ Hsp Hpost)
           (replace_keeps_free _ _ _ _ Hsp Hcs)).
reflexivity.
Qed.

End HeaderLiterals.

(** ** Lemmas on the parser with the error of [int] *)

Section Checked.

(** The statement step raises exactly on a member whose name token
    matches [name[digits]] with more than [max_str_digits] digits. *)
Lemma parse_statement_checked_none (s : StructDef.t) (off : Z) (stmt : str) :
  parse_statement_checked (s, off) stmt = None <->
  is_empty stmt = false
  /\ (2 <= List.length (split_ws (strip (declarator stmt))))%nat
  /\ contains (lit "[") (last (split_ws (strip (declarator stmt))) []) = true
  /\ exists g1 g2,
       Re.array_name_search (last (split_ws (strip (declarator stmt))) [])
       = Some (g1, g2)
       /\ (max_str_digits < List.length g2)%nat.
Proof.
unfold parse_statement_checked, int_checked, declarator.
destruct (is_empty stmt).
{ split; [discriminate | intros [H _]; discriminate]. }
cbv zeta.
set (parts := split_ws (strip (hd [] (split "="%char (replace LF SP stmt))))).
destruct (List.length parts <? 2)%nat eqn:El.
{ apply Nat.ltb_lt in El.
  split; [discriminate | intros (_ & H & _); lia]. }
apply Nat.ltb_ge in El.
destruct (contains (lit "[") (last parts [])) eqn:Eb.
- destruct (Re.array_name_search (last parts [])) as [[g1 g2]|] eqn:Em.
  + destruct (List.length g2 <=? max_str_digits)%nat eqn:Eg.
    * apply Nat.leb_le in Eg.
      split; [discriminate|].
      intros (_ & _ & _ & h1 & h2 & E & Hlt). inversion E; subst. lia.
    * apply Nat.leb_gt in Eg.
      split; [|reflexivity]. intros _.
      split; [reflexivity|]. split; [exact El|]. split; [reflexivity|].
      exists g1, g2. split; [reflexivity | exact Eg].
  + split; [discriminate|].
    intros (_ & _ & _ & h1 & h2 & E & _). discriminate.
- split; [discriminate|]. intros (_ & _ & H & _). discriminate.
Qed.

(** Where the checked statement step returns, it returns what the total
    one does. *)
Lemma parse_statement_checked_some (acc r : StructDef.t * Z) (stmt : str) :
  parse_statement_checked acc stmt = Some r -> r = parse_statement acc stmt.
Proof.
destruct acc as [s off].
unfold parse_statement_checked, parse_statement, int_checked.
destruct (is_empty stmt); [congruence|].
cbv zeta.
destruct (List.length _ <? 2)%nat; [congruence|].
destruct (contains (lit "[") _).
- destruct (Re.array_name_search _) as [[g1 g2]|].
  + destruct (List.length g2 <=? max_str_digits)%nat; [congruence|].
    discriminate.
  + congruence.
- congruence.
Qed.

Lemma parse_statements_checked_some (stmts : list str)
      (acc r : StructDef.t * Z) :
  parse_statements_checked stmts acc = Some r ->
  r = fold_left parse_statement stmts acc.
Proof.
revert acc; induction stmts as [|st stmts IH]; intros acc; simpl.
- congruence.
- destruct (parse_statement_checked acc st) as [acc'|] eqn:E; [|discriminate].
  apply parse_statement_checked_some in E. subst acc'. apply IH.
Qed.

Lemma parse_body_checked_some (name body : str) (s : StructDef.t) :
  parse_body_checked name body = Some s -> s = parse_body name body.
Proof.
unfold parse_body_checked, parse_body. cbv zeta.
destruct (parse_statements_checked _ _) as [[s' off]|] eqn:E; [|discriminate].
apply parse_statements_checked_some in E. rewrite <- E. congruence.
Qed.

Lemma parse_line_checked_some (p q : parser) (line : str) :
  parse_line_checked p line = Some q -> q = parse_line p line.
Proof.
unfold parse_line_checked, parse_line. cbv zeta.
destruct (is_empty (stripped_of line)); [congruence|].
set (p' := if negb (in_struct p) then _ else p).
destruct (in_struct p'); [|congruence].
destruct (_ && _); [|congruence].
destruct (find _ _) as [start|]; [|congruence].
destruct (rfind _ _) as [end_|]; [|congruence].
destruct (parse_body_checked _ _) as [s|] eqn:E; [|discriminate].
apply parse_body_checked_some in E. rewrite <- E. congruence.
Qed.

(** A turn that ends inside a declaration closes none, so it reads no
    body and cannot raise. *)
Lemma parse_line_checked_inside (p : parser) (line : str) :
  in_struct (parse_line p line) = true ->
  parse_line_checked p line = Some (parse_line p line).
Proof.
unfold parse_line_checked, parse_line. cbv zeta.
destruct (is_empty (stripped_of line)); [reflexivity|].
set (p' := if negb (in_struct p) then _ else p).
destruct (in_struct p') eqn:Ei; [|reflexivity].
destruct (_ && _); [|reflexivity].
cbn [in_struct]. discriminate.
Qed.

Lemma parse_lines_from_some (lines : list str) (p q : parser) :
  parse_lines_from lines p = Some q -> q = fold_left parse_line lines p.
Proof.
revert p; induction lines as [|l lines IH]; intros p; simpl.
- congruence.
- destruct (parse_line_checked p l) as [p'|] eqn:E; [|discriminate].
  apply parse_line_checked_some in E. subst p'. apply IH.
Qed.

Lemma parse_lines_from_app (l1 l2 : list str) (p : parser) :
  parse_lines_from (l1 ++ l2) p
  = match parse_lines_from l1 p with
    | Some q => parse_lines_from l2 q
    | None => None
    end.
Proof.
revert p; induction l1 as [|l l1 IH]; intros p; simpl; [reflexivity|].
destruct (parse_line_checked p l); [apply IH | reflexivity].
Qed.

(** Lines that all end inside a declaration raise nothing. *)
Lemma parse_lines_from_inside (lines : list str) (p : parser) :
  (forall k, in_struct (fold_left parse_line (firstn (S k) lines) p) = true) ->
  lines <> [] ->
  parse_lines_from lines p = Some (fold_left parse_line lines p).
Proof.
revert p; induction lines as [|l lines IH]; intros p H Hne; [congruence|].
cbn [parse_lines_from fold_left].
pose proof (H 0%nat) as H0. cbn [firstn fold_left] in H0.
rewrite (parse_line_checked_inside _ _ H0).
destruct lines as [|l2 lines2]; [reflexivity|].
apply IH; [|discriminate].
intros k. exact (H (S k)).
Qed.

(** When the loop ends inside a declaration, the lines split before the
    last line at which it entered one: it is outside before that line
    and inside after it and after every later line. *)
Lemma open_at_end_inside (lines : list str) :
  in_struct (parse_lines lines) = true ->
  exists before opening rest,
    lines = before ++ opening :: rest
    /\ in_struct (parse_lines before) = false
    /\ Re.struct_start_search opening <> None
    /\ (forall k,
          in_struct (parse_lines (before ++ opening :: firstn k rest)) = true)
    /\ structs (parse_lines lines) = structs (parse_lines before).
Proof.
unfold parse_lines.
induction lines as [|line lines IH] using rev_ind; simpl.
- discriminate.
- rewrite fold_parse_line_snoc. intros H.
  pose proof (parse_line_open _ _ H) as Hs.
  destruct (in_struct (fold_left parse_line lines parser_init)) eqn:Hin.
  + destruct (IH eq_refl) as (b & o & r & -> & Hb & Ho & Hk & Hst).
    exists b, o, (r ++ [line]).
    rewrite <- app_assoc. cbn [app].
    split; [reflexivity|]. split; [exact Hb|]. split; [exact Ho|].
    split; [|congruence].
    intros k. rewrite firstn_app.
    destruct (Nat.le_gt_cases k (List.length r)) as [Hle | Hgt].
    * replace (k - List.length r)%nat with 0%nat by lia.
      cbn [firstn]. rewrite app_nil_r. apply Hk.
    * rewrite firstn_all2 by lia.
      destruct (k - List.length r)%nat as [|n] eqn:En; [lia|].
      cbn [firstn]. rewrite firstn_nil.
      change (b ++ o :: r ++ [line]) with (b ++ (o :: r) ++ [line]).
      rewrite app_assoc, fold_parse_line_snoc. exact H.
  + exists lines, line, [].
    split; [reflexivity|]. split; [exact Hin|].
    split; [|split; [|exact Hs]].
    * intros Hnone. revert H.
      set (q := fold_left parse_line lines parser_init) in *.
      unfold parse_line.
      rewrite Hin, Hnone. cbn [negb]. rewrite ?Hin.
      destruct (is_empty (stripped_of line)); congruence.
    * intros k. rewrite firstn_nil, fold_parse_line_snoc. exact H.
Qed.

Lemma prefix_firstn {A : Type} (b c : list A) :
  firstn (List.length b) (b ++ c) = b.
Proof.
rewrite firstn_app, firstn_all, Nat.sub_diag. cbn [firstn]. apply app_nil_r.
Qed.

Lemma longer_prefix {A : Type} (b b' : list A) (o o' : A) (r r' : list A) :
  b ++ o :: r = b' ++ o' :: r' ->
  (List.length b < List.length b')%nat ->
  exists k, b' = b ++ o :: firstn k r.
Proof.
intros E Hlt.
exists (List.length b' - List.length b - 1)%nat.
rewrite <- (prefix_firstn b' (o' :: r')) at 1.
rewrite <- E, firstn_app, firstn_all2 by lia.
destruct (List.length b' - List.length b)%nat as [|n] eqn:En; [lia|].
cbn [firstn]. replace (S n - 1)%nat with n by lia. reflexivity.
Qed.

(** The line that opened the declaration the input ends in is
    determined: there is one way to split the lines so that the loop is
    outside before the opening line and inside from it to the end. *)
Lemma opening_line_unique (b b' : list str) (o o' : str) (r r' : list str) :
  b ++ o :: r = b' ++ o' :: r' ->
  in_struct (parse_lines b) = false ->
  in_struct (parse_lines b') = false ->
  (forall k, in_struct (parse_lines (b ++ o :: firstn k r)) = true) ->
  (forall k, in_struct (parse_lines (b' ++ o' :: firstn k r')) = true) ->
  b = b' /\ o = o' /\ r = r'.
Proof.
intros E Hb Hb' Hk Hk'.
assert (Hlen : List.length b = List.length b').
{ destruct (Nat.lt_trichotomy (List.length b) (List.length b'))
    as [Hlt | [Heq | Hgt]]; [|exact Heq|].
  - destruct (longer_prefix _ _ _ _ _ _ E Hlt) as [k Ek].
    rewrite Ek, Hk in Hb'. discriminate.
  - destruct (longer_prefix _ _ _ _ _ _ (eq_sym E) Hgt) as [k Ek].
    rewrite Ek, Hk' in Hb. discriminate. }
assert (Eb : b = b').
{ rewrite <- (prefix_firstn b (o :: r)), E, Hlen. apply prefix_firstn. }
subst b'. apply app_inv_head in E. inversion E. repeat split.
Qed.

(** Where the checked parser returns, it returns what the total one
    does. *)
Lemma parse_header_file_checked_some (content : str)
      (ss : list StructDef.t) :
  parse_header_file_checked content = Some ss ->
  ss = parse_header_file content.
Proof.
unfold parse_header_file_checked, parse_lines_checked, parse_header_file,
  parse_lines.
destruct (parse_lines_from _ _) as [q|] eqn:E; [|discriminate].
apply parse_lines_from_some in E. subst q.
cbn [option_map]. congruence.
Qed.

End Checked.

(** ** The properties *)

(** C1, as stated, fails: [parse_header_file] keeps the [header] member
    of the IMU declaration, with its initializer, among the fields. *)
Lemma header_member_is_kept :
  exists s f,
    In s (parse_header_file imu_header)
    /\ In f (StructDef.fields s)
    /\ Field.name f = lit "header".
Proof.
  eexists; eexists. split; [|split].
  - vm_compute. left; reflexivity.
  - cbn [StructDef.fields]. left; reflexivity.
  - reflexivity.
Qed.

(** C1, amended: it is [generate_yaml] that leaves the [header] member
    out.  No packet it writes lists a field named [header], and so no
    struct [parse_yaml_file] reads back from its document has one. *)
Theorem generate_yaml_drops_header (structs : list StructDef.t) :
  (forall pkt d,
      In pkt (get (Yaml.packets (generate_yaml structs)) []) ->
      In d (get (Yaml.fields pkt) []) ->
      Yaml.name d <> Some (lit "header"))
  /\ exists ss,
       parse_yaml_file (generate_yaml structs) = Some ss
       /\ forall s f, In s ss -> In f (StructDef.fields s) ->
                      Field.name f <> lit "header".
Proof.
  split.
  - cbn [generate_yaml Yaml.packets get]. intros pkt d Hp Hd.
    apply in_map_iff in Hp. destruct Hp as (s & <- & _).
    cbn [packet_of Yaml.fields get] in Hd.
    apply in_map_iff in Hd. destruct Hd as (f & <- & Hf).
    apply filter_In in Hf. destruct Hf as [_ Hf].
    cbn [Yaml.name]. intros E. inversion E as [E'].
    rewrite E' in Hf. vm_compute in Hf. discriminate.
  - exists (map through_schema structs). split; [apply parse_yaml_generate|].
    intros s f Hs Hf. apply in_map_iff in Hs. destruct Hs as (s0 & <- & _).
    cbn [through_schema StructDef.fields] in Hf.
    apply (Permutation_in _ (Permutation_sym (sort_by_offset_perm _))) in Hf.
    apply in_map_iff in Hf. destruct Hf as (f0 & <- & Hf).
    apply filter_In in Hf. destruct Hf as [_ Hf].
    cbn [Field.name]. intros E.
    unfold is_header in Hf. rewrite E in Hf. vm_compute in Hf. discriminate.
Qed.

(** C3, as stated, fails: a [header] member without initializer leaves
    the tag empty, and its 4 bytes are still in the size. *)
Lemma total_size_counts_header_without_tag :
  exists s,
    parse_header_file ping_header = [s]
    /\ StructDef.header_string s = []
    /\ StructDef.size s = 8%Z
    /\ spec_total_size s = 4%Z
    /\ StructDef.size s <> spec_total_size s.
Proof.
eexists. split; [vm_compute; reflexivity|].
repeat (split; [vm_compute; reflexivity|]).
vm_compute. discriminate.
Qed.

(** C3, amended: the size of a parsed record is the sum of the sizes of
    all its fields, the members named [header] counted with the size they
    declare and the others as they are, with or without a tag. *)
Theorem total_size_is_sum_of_fields (content : str) (s : StructDef.t) :
  In s (parse_header_file content) ->
  StructDef.size s
  = (sum_sizes (filter is_header (StructDef.fields s))
     + sum_sizes (filter (fun f => negb (is_header f)) (StructDef.fields s)))%Z.
Proof.
  intros H. apply parse_header_file_structs in H.
  destruct H as (name & body & ->).
  rewrite <- sum_sizes_partition. apply parse_body_inv.
Qed.

Lemma total_size_is_sum_of_fields_witness :
  In imu_struct (parse_header_file imu_header)
  /\ StructDef.size imu_struct
     = (sum_sizes (filter is_header (StructDef.fields imu_struct))
        + sum_sizes (filter (fun f => negb (is_header f))
                            (StructDef.fields imu_struct)))%Z.
Proof.
  assert (H : In imu_struct (parse_header_file imu_header))
    by (vm_compute; left; reflexivity).
  split; [exact H | exact (total_size_is_sum_of_fields imu_header _ H)].
Defined.

(** C4, as stated, fails: the GPS packet has [size_check] 16 and the
    struct read from it has size 0. *)
Lemma size_check_is_not_read :
  option_map (map StructDef.size) (parse_yaml_file gps_document) = Some [0%Z]
  /\ option_map (map Yaml.size_check) (Yaml.packets gps_document)
     = Some [Some 16%Z].
Proof. split; vm_compute; reflexivity. Qed.

(** C4, amended: [parse_yaml_file] does not read [size_check].  The size
    of every struct it returns is the 0 that [StructDef] starts with; it
    is not computed from the field sizes either. *)
Theorem parse_yaml_file_size_is_initial (data : Yaml.document)
        (ss : list StructDef.t) (s : StructDef.t) :
  parse_yaml_file data = Some ss -> In s ss -> StructDef.size s = 0%Z.
Proof.
  unfold parse_yaml_file. intros H Hs.
  apply for_each_Forall2 in H.
  induction H as [|pkt s' pkts ss' Hp _ IH]; [destruct Hs|].
  destruct Hs as [<- | Hs]; [|apply IH; assumption].
  unfold struct_of_packet in Hp.
  destruct (Yaml.id pkt); [|discriminate].
  destruct (for_each field_of_def _); [|discriminate].
  inversion Hp; reflexivity.
Qed.

Lemma parse_yaml_file_size_is_initial_witness :
  parse_yaml_file gps_document = Some [gps_struct]
  /\ In gps_struct [gps_struct]
  /\ StructDef.size gps_struct = 0%Z.
Proof.
  assert (H1 : parse_yaml_file gps_document = Some [gps_struct])
    by (vm_compute; reflexivity).
  assert (H2 : In gps_struct [gps_struct]) by (left; reflexivity).
  split; [exact H1 | split; [exact H2|]].
  exact (parse_yaml_file_size_is_initial gps_document _ _ H1 H2).
Defined.

(** C5, as stated, fails: the input ends inside the declaration of
    [BData], and the parser returns the struct of [AData]. *)
Lemma unterminated_is_dropped :
  unterminated open_header
  /\ brace_count (parse_lines (readlines open_header)) = 1%Z
  /\ map StructDef.name (parse_header_file open_header) = [lit "AData"].
Proof. repeat split; vm_compute; reflexivity. Qed.

(** C5, amended: there is no parse error.  When the input ends inside a
    declaration, the line that opened it is the last line at which the
    parser entered a declaration: the parser is outside before that line
    and inside after it and after every later line, and no other line
    is so.  The parser returns
    exactly the structs of the lines before that line: the records
    completed earlier are kept and the open one is dropped.  The open
    declaration raises nothing: with the error of [int], the parser
    raises exactly when the lines before the opening line raise, and
    returns their structs otherwise. *)
Theorem unterminated_returns_earlier_structs (content : str) :
  unterminated content ->
  exists before opening rest,
    readlines content = before ++ opening :: rest
    /\ in_struct (parse_lines before) = false
    /\ Re.struct_start_search opening <> None
    /\ (forall k,
          in_struct (parse_lines (before ++ opening :: firstn k rest)) = true)
    /\ (forall before' opening' rest',
          readlines content = before' ++ opening' :: rest' ->
          in_struct (parse_lines before') = false ->
          (forall k,
             in_struct (parse_lines (before' ++ opening' :: firstn k rest'))
             = true) ->
          before' = before /\ opening' = opening /\ rest' = rest)
    /\ parse_header_file content = structs (parse_lines before)
    /\ parse_header_file_checked content
       = option_map structs (parse_lines_checked before).
Proof.
intros H. unfold unterminated in H.
destruct (open_at_end_inside _ H) as (b & o & r & E & Hb & Ho & Hk & Hs).
exists b, o, r.
split; [exact E|]. split; [exact Hb|]. split; [exact Ho|].
split; [exact Hk|].
split.
{ intros b' o' r' E' Hb' Hk'. rewrite E in E'.
  exact (opening_line_unique _ _ _ _ _ _ (eq_sym E') Hb' Hb Hk' Hk). }
split; [exact Hs|].
unfold parse_header_file_checked, parse_lines_checked.
rewrite E, parse_lines_from_app.
destruct (parse_lines_from b parser_init) as [q|] eqn:Eq; [|reflexivity].
apply parse_lines_from_some in Eq. subst q.
rewrite parse_lines_from_inside; [|intros k|discriminate].
- cbn [option_map]. f_equal.
  rewrite E in Hs. unfold parse_lines in Hs.
  rewrite fold_left_app in Hs. exact Hs.
- specialize (Hk k). unfold parse_lines in Hk.
  rewrite fold_left_app in Hk. exact Hk.
Qed.

Lemma unterminated_returns_earlier_structs_witness :
  unterminated open_header
  /\ map StructDef.name (parse_header_file open_header) = [lit "AData"]
  /\ parse_header_file_checked open_header
     = Some (parse_header_file open_header)
  /\ exists before opening rest,
       readlines open_header = before ++ opening :: rest
       /\ in_struct (parse_lines before) = false
       /\ Re.struct_start_search opening <> None
       /\ (forall k,
             in_struct (parse_lines (before ++ opening :: firstn k rest))
             = true)
       /\ (forall before' opening' rest',
             readlines open_header = before' ++ opening' :: rest' ->
             in_struct (parse_lines before') = false ->
             (forall k,
                in_struct
                  (parse_lines (before' ++ opening' :: firstn k rest'))
                = true) ->
             before' = before /\ opening' = opening /\ rest' = rest)
       /\ parse_header_file open_header = structs (parse_lines before)
       /\ parse_header_file_checked open_header
          = option_map structs (parse_lines_checked before).
Proof.
  assert (H : unterminated open_header) by (vm_compute; reflexivity).
  split; [exact H|]. split; [vm_compute; reflexivity|].
  split; [vm_compute; reflexivity|].
  exact (unterminated_returns_earlier_structs open_header H).
Defined.


(** C6, as stated, fails: [GPS] does not end in [Data] and comes back as
    [GPSData]. *)
Lemma name_without_suffix_gains_it :
  endswith (lit "Data") (lit "GPS") = false
  /\ option_map (map StructDef.name)
       (parse_yaml_file (generate_yaml [StructDef.init (lit "GPS")]))
     = Some [lit "GPSData"].
Proof. split; vm_compute; reflexivity. Qed.

(** C6, amended: the names that round-trip exactly are those that end
    in [Data]; a name that does not end in it comes back with [Data]
    appended. *)
Theorem record_name_round_trip (structs : list StructDef.t) :
  option_map (map StructDef.name) (parse_yaml_file (generate_yaml structs))
  = Some (map (fun s => if endswith (lit "Data") (StructDef.name s)
                        then StructDef.name s
                        else StructDef.name s ++ lit "Data") structs).
Proof.
  rewrite parse_yaml_generate. cbn [option_map]. f_equal.
  rewrite map_map. apply map_ext. intros s.
  cbn [through_schema StructDef.name]. apply pkt_id_of_Data.
Qed.

(** C7 holds but for the number of slots.  [generate_header] writes the
    [char header[4]] member, right after the opening brace and before
    the fields, if and only if the first field's offset is at least 4 and
    the tag is not empty.  For a tag of at most 4 characters its
    initializer has exactly 4 slots: the characters of the tag, each
    between single quotes, then null-character literals. *)
Lemma header_member_emitted (s : StructDef.t) :
  let tag := StructDef.header_string s in
  (exists field_lines,
      struct_lines s
      = [lit "struct __attribute__((packed)) " ++ StructDef.name s ++ [LF];
         lit "{" ++ [LF]]
        ++ header_lines s ++ field_lines ++ [lit "};" ++ [LF; LF]]
      /\ List.length field_lines = List.length (StructDef.fields s))
  /\ (header_lines s <> [] <-> first_offset_ge_4 s /\ tag <> [])
  /\ ((List.length tag <= 4)%nat -> header_lines s <> [] ->
      exists slots,
        header_lines s
        = [lit "    char header[4] = {" ++ join (lit ", ") slots
           ++ lit "};" ++ [LF]]
        /\ List.length slots = 4%nat
        /\ slots = map (fun c => [QUOTE; c; QUOTE]) tag
                   ++ repeat (lit "'\0'") (4 - List.length tag)).
Proof.
  intros tag. split; [|split].
  - eexists. split; [reflexivity|]. apply length_map.
  - unfold header_lines, first_offset_ge_4. fold tag.
    destruct (StructDef.fields s) as [|f rest].
    + change (4 <=? 0)%Z with false. cbn [andb]. split; [congruence|].
      intros [(f & rest & E & _) _]. discriminate.
    + destruct (4 <=? Field.offset f)%Z eqn:Ho; cbn [andb].
      * destruct tag as [|c tag']; cbn [is_empty negb].
        -- split; [congruence | intros [_ H]; congruence].
        -- split; [|discriminate]. intros _. split; [|discriminate].
           exists f, rest. split; [reflexivity|]. apply Z.leb_le, Ho.
      * split; [congruence|]. intros [(g & r & E & Hg) _].
        inversion E; subst. apply Z.leb_gt in Ho. lia.
  - intros Hlen. unfold header_lines. fold tag.
    destruct (_ && _); [|congruence]. intros _.
    exists (header_initializers tag). split; [reflexivity|].
    unfold header_initializers. split; [|reflexivity].
    rewrite length_app, length_map, repeat_length. lia.
Qed.

(** C7, where the code misses it: a tag longer than 4 characters is
    neither cut nor refused.  [SensorData] declares its header member
    without initializer, so its schema carries the header string
    [Sensor]; read back, [generate_header] writes six initializers for
    [header[4]], with no padding, where exactly 4 slots are due. *)
Theorem long_tag_overflows_initializer :
  parse_yaml_file (generate_yaml (parse_header_file sensor_header))
  = Some [sensor_struct]
  /\ first_offset_ge_4 sensor_struct
  /\ header_lines sensor_struct
     = [lit "    char header[4] = {'S', 'e', 'n', 's', 'o', 'r'};" ++ [LF]]
  /\ List.length (header_initializers (StructDef.header_string sensor_struct))
     = 6%nat.
Proof.
  split; [vm_compute; reflexivity|]. split.
  - eexists; eexists. split; [reflexivity|]. vm_compute. discriminate.
  - split; vm_compute; reflexivity.
Qed.

(** C8: in every struct [parse_header_file] returns, the first field is
    at offset 0, every later field is at the offset of the field before
    it plus that field's size, and the offsets do not decrease. *)
Theorem parsed_offsets_are_packed (content : str) (s : StructDef.t) :
  In s (parse_header_file content) ->
  (forall f, nth_error (StructDef.fields s) 0 = Some f ->
             Field.offset f = 0%Z)
  /\ (forall i f g,
         nth_error (StructDef.fields s) i = Some f ->
         nth_error (StructDef.fields s) (S i) = Some g ->
         Field.offset g = (Field.offset f + Field.size f)%Z
         /\ (Field.offset f <= Field.offset g)%Z).
Proof.
  intros H. apply parse_header_file_structs in H.
  destruct H as (name & body & ->).
  destruct (parse_body_inv name body) as (Hp & _ & Hs).
  split.
  - intros f Hf. exact (packed_from_first _ _ _ Hp Hf).
  - intros i f g Hf Hg.
    pose proof (packed_from_next _ _ _ _ _ Hp Hf Hg) as E.
    split; [exact E|].
    rewrite Forall_forall in Hs.
    pose proof (Hs f (nth_error_In _ _ Hf)). lia.
Qed.

Lemma parsed_offsets_are_packed_witness :
  In imu_struct (parse_header_file imu_header)
  /\ (forall f, nth_error (StructDef.fields imu_struct) 0 = Some f ->
                Field.offset f = 0%Z)
  /\ (forall i f g,
         nth_error (StructDef.fields imu_struct) i = Some f ->
         nth_error (StructDef.fields imu_struct) (S i) = Some g ->
         Field.offset g = (Field.offset f + Field.size f)%Z
         /\ (Field.offset f <= Field.offset g)%Z).
Proof.
  assert (H : In imu_struct (parse_header_file imu_header))
    by (vm_compute; left; reflexivity).
  split; [exact H | exact (parsed_offsets_are_packed imu_header _ H)].
Defined.

(** C9: the fields of every struct [parse_yaml_file] returns are those
    of its packet, sorted by offset ascending, and the fields at one
    offset are in the order the document lists them. *)
Theorem parsed_schema_fields_sorted (data : Yaml.document)
        (ss : list StructDef.t) :
  parse_yaml_file data = Some ss ->
  Forall2
    (fun pkt s =>
       exists fs,
         for_each field_of_def (get (Yaml.fields pkt) []) = Some fs
         /\ Sorted le_offset (StructDef.fields s)
         /\ Permutation fs (StructDef.fields s)
         /\ forall o, at_offset o (StructDef.fields s) = at_offset o fs)
    (get (Yaml.packets data) []) ss.
Proof.
  unfold parse_yaml_file. intros H. apply for_each_Forall2 in H.
  induction H as [|pkt s pkts ss' Hp _ IH]; constructor; [|exact IH].
  unfold struct_of_packet in Hp.
  destruct (Yaml.id pkt); [|discriminate].
  destruct (for_each field_of_def _) as [fs|]; [|discriminate].
  inversion Hp; subst. exists fs. cbn [StructDef.fields].
  split; [reflexivity|]. split; [apply sort_by_offset_sorted|].
  split; [apply sort_by_offset_perm|].
  intros o. apply sort_by_offset_stable.
Qed.

Lemma parsed_schema_fields_sorted_witness :
  parse_yaml_file shuffled_document = Some [shuffled_struct]
  /\ Forall2
       (fun pkt s =>
          exists fs,
            for_each field_of_def (get (Yaml.fields pkt) []) = Some fs
            /\ Sorted le_offset (StructDef.fields s)
            /\ Permutation fs (StructDef.fields s)
            /\ forall o, at_offset o (StructDef.fields s) = at_offset o fs)
       (get (Yaml.packets shuffled_document) []) [shuffled_struct].
Proof.
  assert (H : parse_yaml_file shuffled_document = Some [shuffled_struct])
    by (vm_compute; reflexivity).
  split; [exact H | exact (parsed_schema_fields_sorted _ _ H)].
Defined.

(** C10 holds but for what is taken as a literal.  A statement that
    contains [header[] and an [=] sets the tag of the struct to
    [tag_of] of the statement, whatever the name of the member; the last
    such statement of the body decides.  The fields and the offset after
    the statement are those after its declarator alone, which does not
    pass the header test: the member is read as any field is. *)
Theorem header_test_sets_tag (acc : StructDef.t * Z)
        (before after : list str) (stmt : str) :
  sets_header stmt = true ->
  forallb (fun st => negb (sets_header st)) after = true ->
  StructDef.header_string
    (fst (fold_left parse_statement (before ++ stmt :: after) acc))
  = tag_of stmt
  /\ sets_header (declarator stmt) = false
  /\ forall acc',
       StructDef.fields (fst (parse_statement acc' stmt))
       = StructDef.fields (fst (parse_statement acc' (declarator stmt)))
       /\ snd (parse_statement acc' stmt)
          = snd (parse_statement acc' (declarator stmt)).
Proof.
  intros Hs Ha. split; [|split].
  - rewrite fold_left_app. cbn [fold_left].
    rewrite (parse_statements_header _ _ Ha), parse_statement_header, Hs.
    reflexivity.
  - unfold sets_header.
    destruct (declarator_fixed stmt) as (Hr & Hc & _).
    rewrite Hr, Hc. apply andb_false_r.
  - intros acc'. apply parse_statement_declarator.
Qed.

Lemma header_test_sets_tag_witness :
  let acc := (StructDef.init (lit "T"), 0%Z) in
  let before := [lit "char header[4] = {'X'}"] in
  let stmt := lit "char my_header[2] = {'A','B'}" in
  let after := [lit "int x"] in
  sets_header stmt = true
  /\ forallb (fun st => negb (sets_header st)) after = true
  /\ StructDef.header_string
       (fst (fold_left parse_statement (before ++ stmt :: after) acc))
     = tag_of stmt
  /\ tag_of stmt = lit "AB"
  /\ StructDef.fields (fst (parse_statement (StructDef.init (lit "T"), 4%Z)
                                            stmt))
     = [Field.mk (lit "my_header") (lit "char") true 2%Z 4%Z].
Proof.
intros acc before stmt after.
assert (H1 : sets_header stmt = true) by (vm_compute; reflexivity).
assert (H2 : forallb (fun st => negb (sets_header st)) after = true)
  by (vm_compute; reflexivity).
pose proof (header_test_sets_tag acc before after stmt H1 H2) as (Ht & _ & Hf).
split; [exact H1|]. split; [exact H2|]. split; [exact Ht|].
split; [vm_compute; reflexivity|].
rewrite (proj1 (Hf (StructDef.init (lit "T"), 4%Z))).
vm_compute. reflexivity.
Defined.

(** C10, on a statement whose quotes are those of a list of
    one-character literals, whatever stands before, between and after
    them: the tag is the characters between the quotes, in order, a
    line feed read as a space and every null character left out. *)
Lemma header_literals_set_tag (acc : StructDef.t * Z)
      (before after : list str) (pre sep post cs : str) :
  let stmt :=
    pre ++ join sep (map (fun c => [QUOTE; c; QUOTE]) cs) ++ post in
  Forall (fun c => c <> QUOTE) pre ->
  Forall (fun c => c <> QUOTE) sep ->
  Forall (fun c => c <> QUOTE) post ->
  Forall (fun c => c <> QUOTE) cs ->
  sets_header stmt = true ->
  forallb (fun st => negb (sets_header st)) after = true ->
  StructDef.header_string
    (fst (fold_left parse_statement (before ++ stmt :: after) acc))
  = filter (fun c => negb (Ascii.eqb c NUL))
           (map (fun c => if Ascii.eqb c LF then SP else c) cs).
Proof.
intros stmt Hpre Hsep Hpost Hcs Hs Ha.
transitivity (tag_of stmt).
- exact (proj1 (header_test_sets_tag acc before after stmt Hs Ha)).
- apply tag_of_literals; assumption.
Qed.

(** C10, and where the code misses it.  On a statement whose quotes are
    those of a list of one-character literals the tag is as claimed:
    the characters between the quotes, in order, every null character
    left out.  But the pattern takes any two quotes with one character
    between them as a literal.  A null-character literal is written
    with a backslash, four characters, and is no match; the closing
    quote of one, a comma, and the opening quote of the next are a
    match.  The header member of [ABData] holds the one-character
    literals of [A] and [B] and two null-character literals, and the
    parser gives it the tag [AB,], where the tag [AB] is due. *)
Theorem escaped_nul_literals_leave_separator :
  (forall (acc : StructDef.t * Z) (before after : list str)
          (pre sep post cs : str),
      Forall (fun c => c <> QUOTE) pre ->
      Forall (fun c => c <> QUOTE) sep ->
      Forall (fun c => c <> QUOTE) post ->
      Forall (fun c => c <> QUOTE) cs ->
      sets_header
        (pre ++ join sep (map (fun c => [QUOTE; c; QUOTE]) cs) ++ post)
      = true ->
      forallb (fun st => negb (sets_header st)) after = true ->
      StructDef.header_string
        (fst (fold_left parse_statement
                (before
                 ++ (pre ++ join sep (map (fun c => [QUOTE; c; QUOTE]) cs)
                         ++ post)
                 :: after) acc))
      = filter (fun c => negb (Ascii.eqb c NUL))
               (map (fun c => if Ascii.eqb c LF then SP else c) cs))
  /\ sets_header (lit "char header[4] = {'A','B','\0','\0'}") = true
  /\ tag_of (lit "char header[4] = {'A','B','\0','\0'}") = lit "AB,"
  /\ parse_header_file escaped_nul_header
     = [StructDef.mk (lit "ABData")
          [ Field.mk (lit "header") (lit "char") true 4%Z 0%Z;
            Field.mk (lit "x") (lit "float") false 0%Z 4%Z ]
          (lit "AB,") 8%Z]
  /\ parse_header_file_checked escaped_nul_header
     = Some (parse_header_file escaped_nul_header).
Proof.
split.
{ intros acc before after pre sep post cs Hpre Hsep Hpost Hcs Hs Ha.
  exact (header_literals_set_tag acc before after pre sep post cs
           Hpre Hsep Hpost Hcs Hs Ha). }
split; [vm_compute; reflexivity|].
split; [vm_compute; reflexivity|].
split; vm_compute; reflexivity.
Qed.

(** A null character between quotes is left out of the tag. *)
Lemma escaped_nul_literals_leave_separator_witness :
  let stmt := lit "char my_header[3] = {'A','" ++ [NUL] ++ lit "','B'}" in
  sets_header stmt = true
  /\ StructDef.header_string
       (fst (fold_left parse_statement
               ([lit "char header[4] = {'X'}"] ++ stmt :: [lit "int x"])
               (StructDef.init (lit "T"), 0%Z)))
     = lit "AB".
Proof.
intros stmt.
assert (Hs : sets_header stmt = true) by (vm_compute; reflexivity).
split; [exact Hs|].
assert (Hq : forall l : str,
           forallb (fun c => negb (Ascii.eqb c QUOTE)) l = true ->
           Forall (fun c => c <> QUOTE) l).
{ intros l H. rewrite forallb_forall in H. apply Forall_forall.
  intros c Hc ->. specialize (H _ Hc).
  rewrite Ascii.eqb_refl in H. discriminate. }
exact (proj1 escaped_nul_literals_leave_separator
         (StructDef.init (lit "T"), 0%Z)
         [lit "char header[4] = {'X'}"] [lit "int x"]
         (lit "char my_header[3] = {") (lit ",") (lit "}")
         ["A"%char; NUL; "B"%char]
         (Hq (lit "char my_header[3] = {") eq_refl)
         (Hq (lit ",") eq_refl) (Hq (lit "}") eq_refl)
         (Hq ["A"%char; NUL; "B"%char] eq_refl)
         Hs eq_refl).
Defined.

(** The same on a whole declaration: the tag is [AB], the tag of the
    last member that passes the header test, and all three members are
    fields. *)
Example my_header_parsed :
  parse_header_file my_header_header
  = [StructDef.mk (lit "TagData")
       [Field.mk (lit "header") (lit "char") true 4%Z 0%Z;
        Field.mk (lit "my_header") (lit "char") true 2%Z 4%Z;
        Field.mk (lit "x") (lit "int") false 0%Z 6%Z]
       (lit "AB") 10%Z].
Proof. vm_compute. reflexivity. Qed.

(** C2, as stated, fails: [Frame] comes back as [FrameData], its array
    member [payload] as a one-byte field, and so [crc] at offset 5
    instead of 12 and the size 9 instead of 16. *)
Lemma round_trip_changes_layout :
  exists s s',
    parse_header_file frame_header = [s]
    /\ round_trip frame_header = Some [s']
    /\ StructDef.name s = lit "Frame"
    /\ StructDef.name s' = lit "FrameData"
    /\ plain_keys s = [(lit "crc", lit "uint32_t", 12%Z)]
    /\ plain_keys s' = [(lit "payload", lit "uint8_t", 4%Z);
                       (lit "crc", lit "uint32_t", 5%Z)]
    /\ StructDef.size s = 16%Z
    /\ StructDef.size s' = 9%Z
    /\ ~ same_layout s s'.
Proof.
eexists; eexists.
split; [vm_compute; reflexivity|].
split; [vm_compute; reflexivity|].
repeat (split; [vm_compute; reflexivity|]).
intros (_ & _ & _ & H). vm_compute in H. discriminate.
Qed.

(** C2, amended: the round trip keeps the name, the tag, the name, type
    and offset of every field that is not an array, and the size, of the
    structs that are ready for it: the name ends in [Data]; no member is
    an array or is named [header], but for a first array member [header]
    of 4 bytes that has a tag and is followed by a member; without that
    member there is no tag; no brace is in the tag, a type or a name, and
    no type starts with [//]. *)
Theorem header_round_trip (content : str) :
  forallb round_trip_ready (parse_header_file content) = true ->
  exists ss',
    round_trip content = Some ss'
    /\ Forall2 same_layout (parse_header_file content) ss'.
Proof.
intros Hr. unfold round_trip. rewrite parse_yaml_generate.
pose proof (parse_header_file_parsed content) as Hp.
set (ss := parse_header_file content) in *.
assert (H : Forall (fun s => name_parsed (StructDef.name (through_schema s))
                    /\ Forall stmt_ok (members (through_schema s))
                    /\ same_layout s (reparsed (through_schema s))) ss).
{ rewrite forallb_forall in Hr. rewrite Forall_forall in *.
  intros s Hs. apply ready_round_trip; auto. }
eexists. split; [reflexivity|].
rewrite parse_generated.
- clear Hr Hp. induction H as [|s l (_ & _ & Hs) _ IH]; simpl; constructor;
    assumption.
- apply Forall_map. eapply Forall_impl; [|exact H].
  intros s (H1 & H2 & _). split; assumption.
Qed.

Lemma header_round_trip_witness :
  forallb round_trip_ready (parse_header_file imu_header) = true
  /\ exists ss',
       round_trip imu_header = Some ss'
       /\ Forall2 same_layout (parse_header_file imu_header) ss'.
Proof.
assert (H : forallb round_trip_ready (parse_header_file imu_header) = true)
  by (vm_compute; reflexivity).
split; [exact H | exact (header_round_trip imu_header H)].
Defined.

(** A file of two declarations, one with a header member, comes back as
    it was parsed. *)
Example two_structs_round_trip :
  forallb round_trip_ready (parse_header_file two_structs_header) = true
  /\ round_trip two_structs_header
     = Some (parse_header_file two_structs_header)
  /\ map StructDef.name (parse_header_file two_structs_header)
     = [lit "IMUData"; lit "GPSData"].
Proof. repeat split; vm_compute; reflexivity. Qed.

(** Each condition of the amended C2 is there for a reason.  A comment
    after a member is read into the type of the next member, whose line
    then reads back as a comment. *)
Example comment_breaks_round_trip :
  map plain_keys (parse_header_file comment_header)
  = [[(lit "x", lit "float", 0%Z); (lit "y", lit "// first float", 4%Z)]]
  /\ option_map (map plain_keys) (round_trip comment_header)
     = Some [[(lit "x", lit "float", 0%Z)]]
  /\ forallb round_trip_ready (parse_header_file comment_header) = false.
Proof. repeat split; vm_compute; reflexivity. Qed.

(** A header member that no member follows is not written back. *)
Example lone_header_breaks_round_trip :
  map StructDef.header_string (parse_header_file lone_header_header)
  = [lit "T"]
  /\ option_map (map StructDef.header_string) (round_trip lone_header_header)
     = Some [[]]
  /\ forallb round_trip_ready (parse_header_file lone_header_header) = false.
Proof. repeat split; vm_compute; reflexivity. Qed.

(** ** The examples of the specification *)

(** The IMU declaration: the fields the specification lists, after the
    [header] member that the parser keeps. *)
Example imu_parsed :
  parse_header_file imu_header
  = [StructDef.mk (lit "IMUData")
       [Field.mk (lit "header") (lit "char") true 4%Z 0%Z;
        Field.mk (lit "accel_x") (lit "float") false 0%Z 4%Z;
        Field.mk (lit "accel_y") (lit "float") false 0%Z 8%Z;
        Field.mk (lit "timestamp") (lit "uint32_t") false 0%Z 12%Z]
       (lit "IMU") 16%Z].
Proof. vm_compute. reflexivity. Qed.

Example imu_schema :
  generate_yaml (parse_header_file imu_header)
  = Yaml.mk_document (Some [
      Yaml.mk_packet (Some (lit "IMU")) (Some (lit "IMU")) (Some 16%Z)
        (Some (lit "time"))
        (Some [ Yaml.mk_field_def (Some (lit "accel_x")) (Some (lit "float"))
                                  (Some 4%Z);
                Yaml.mk_field_def (Some (lit "accel_y")) (Some (lit "float"))
                                  (Some 8%Z);
                Yaml.mk_field_def (Some (lit "timestamp"))
                                  (Some (lit "uint32_t")) (Some 12%Z) ]) ]).
Proof. vm_compute. reflexivity. Qed.

(** The GPS packet: a declaration named [GPSData], no header member. *)
Example gps_emitted :
  option_map generate_header (parse_yaml_file gps_document)
  = Some (lit "#pragma once" ++ [LF]
          ++ lit "#include <cstdint>" ++ [LF; LF]
          ++ lit "struct __attribute__((packed)) GPSData" ++ [LF]
          ++ lit "{" ++ [LF]
          ++ lit "    double lat;" ++ [LF]
          ++ lit "    double lon;" ++ [LF]
          ++ lit "};" ++ [LF; LF]).
Proof. vm_compute. reflexivity. Qed.

(** The braces of the line that opens a declaration are counted twice,
    at lines 68-70 and again at lines 84-91: a declaration with its
    opening brace on that line never closes. *)
Example brace_on_struct_line_never_closes :
  parse_header_file brace_on_struct_line_header = []
  /\ unterminated brace_on_struct_line_header
  /\ brace_count (parse_lines (readlines brace_on_struct_line_header)) = 1%Z.
Proof. repeat split; vm_compute; reflexivity. Qed.

(** ** Further properties of the converter *)

Section MoreOnParsing.

Lemma parse_body_name (name body : str) :
  StructDef.name (parse_body name body) = name.
Proof.
unfold parse_body.
assert (G : forall stmts acc,
           StructDef.name (fst (fold_left parse_statement stmts acc))
           = StructDef.name (fst acc)).
{ induction stmts as [|st stmts IH]; intros acc; simpl; [reflexivity|].
  rewrite IH. destruct acc as [s off].
  destruct (is_empty st) eqn:Ee.
  - destruct st; [reflexivity | discriminate].
  - rewrite (parse_statement_eq _ _ _ Ee). cbv zeta.
    destruct (_ <? _)%nat; reflexivity. }
specialize (G (statements_of body) (StructDef.init name, 0%Z)).
destruct (fold_left parse_statement _ _) as [s off]. exact G.
Qed.

Lemma names_from_more (seen : list str) (line : str) (p : parser) :
  names_from seen p -> names_from (seen ++ [line]) p.
Proof.
intros [H1 H2]. split.
- intros s Hs. destruct (H1 s Hs) as (l & Hl & E).
  exists l. split; [apply in_or_app; left; exact Hl | exact E].
- intros Hi. destruct (H2 Hi) as (l & Hl & E).
  exists l. split; [apply in_or_app; left; exact Hl | exact E].
Qed.

Lemma parse_line_names (seen : list str) (p : parser) (line : str) :
  names_from seen p -> names_from (seen ++ [line]) (parse_line p line).
Proof.
intros Hp. pose proof (names_from_more seen line p Hp) as Hp'.
unfold parse_line.
destruct (is_empty (stripped_of line)); [exact Hp'|].
set (p1 := if negb (in_struct p) then _ else p).
assert (H1 : names_from (seen ++ [line]) p1).
{ unfold p1. destruct (negb (in_struct p)); [|exact Hp'].
  destruct (Re.struct_start_search line) as [name|] eqn:Em; [|exact Hp'].
  split; [apply Hp'|]. cbn [in_struct current_struct_name].
  intros _. exists line. split; [|exact Em].
  apply in_or_app. right. left. reflexivity. }
clearbody p1. destruct H1 as [Hs1 Hin1].
destruct (in_struct p1) eqn:Ei1; [|split; [exact Hs1 | congruence]].
destruct (_ && _).
- split; [|cbn [in_struct]; discriminate]. cbn [structs].
  destruct (find _ _); [|exact Hs1].
  destruct (rfind _ _); [|exact Hs1].
  intros s Hs. apply in_app_or in Hs. destruct Hs as [Hs | [<- | []]].
  + apply Hs1, Hs.
  + rewrite parse_body_name. apply Hin1. reflexivity.
- split; [exact Hs1|]. cbn [in_struct current_struct_name]. intros _.
  apply Hin1. reflexivity.
Qed.

Lemma parse_lines_names (lines seen : list str) (p : parser) :
  names_from seen p ->
  names_from (seen ++ lines) (fold_left parse_line lines p).
Proof.
revert seen p; induction lines as [|l lines IH]; intros seen p Hp.
- rewrite app_nil_r. exact Hp.
- cbn [fold_left].
  replace (seen ++ l :: lines) with ((seen ++ [l]) ++ lines)
    by (rewrite <- app_assoc; reflexivity).
  apply IH, parse_line_names, Hp.
Qed.

Lemma parse_line_outside (p : parser) (line : str) :
  in_struct p = false -> Re.struct_start_search line = None ->
  parse_line p line = p.
Proof.
intros Hi Hm. unfold parse_line. rewrite Hi, Hm. cbn [negb]. rewrite Hi.
destruct (is_empty _); reflexivity.
Qed.

Lemma packed_from_bounds (l : list Field.t) (o : Z) :
  packed_from o l -> Forall (fun f => (0 <= Field.size f)%Z) l ->
  forall f, In f l ->
    (o <= Field.offset f)%Z
    /\ (Field.offset f + Field.size f <= o + sum_sizes l)%Z.
Proof.
revert o; induction l as [|g l IH]; intros o Hk Hz f Hf; [destruct Hf|].
destruct Hk as [Ho Hk]. inversion Hz as [|? ? Hg Hz']; subst.
assert (Hsum : (0 <= sum_sizes l)%Z).
{ clear -Hz'. induction Hz' as [|x l Hx _ IH]; [reflexivity|].
  unfold sum_sizes in *. cbn [fold_right]. lia. }
unfold sum_sizes. cbn [fold_right]. fold (sum_sizes l).
destruct Hf as [<- | Hf].
- lia.
- destruct (IH _ Hk Hz' f Hf) as [H1 H2]. lia.
Qed.

Lemma packed_from_disjoint (l1 l2 l3 : list Field.t) (f g : Field.t) (o : Z) :
  packed_from o (l1 ++ f :: l2 ++ g :: l3) ->
  Forall (fun f => (0 <= Field.size f)%Z) (l1 ++ f :: l2 ++ g :: l3) ->
  (Field.offset f + Field.size f <= Field.offset g)%Z.
Proof.
intros Hk Hz.
apply packed_from_app in Hk. destruct Hk as [_ Hk].
destruct Hk as [Hf Hk].
apply packed_from_app in Hk. destruct Hk as [_ [Hg _]].
apply Forall_app in Hz. destruct Hz as [_ Hz].
inversion Hz as [|? ? _ Hz']; subst.
apply Forall_app in Hz'. destruct Hz' as [Hz2 _].
assert (Hsum : (0 <= sum_sizes l2)%Z).
{ clear -Hz2. induction Hz2 as [|x l Hx _ IH]; [reflexivity|].
  unfold sum_sizes in *. cbn [fold_right]. lia. }
lia.
Qed.

Lemma dict_get_in {V : Type} (P : V -> Prop) (d : list (str * V)) (k : str)
      (default : V) :
  Forall (fun kv => P (snd kv)) d -> P default -> P (dict_get d k default).
Proof.
intros H Hd; induction H as [|[k' v] d Hv _ IH]; simpl.
- exact Hd.
- destruct (eqs k' k); [exact Hv | exact IH].
Qed.

Lemma type_sizes_values :
  Forall (fun kv : str * Z => In (snd kv) [1; 2; 4; 8]%Z) TYPE_SIZES.
Proof.
unfold TYPE_SIZES.
repeat (apply Forall_cons;
        [cbn [snd In];
         first [ left; reflexivity
               | right; left; reflexivity
               | do 2 right; left; reflexivity
               | do 3 right; left; reflexivity ]|]).
apply Forall_nil.
Qed.

Lemma field_width (f : Field.t) :
  Field.is_array f = false -> In (Field.size f) [1; 2; 4; 8]%Z.
Proof.
intros Ha. unfold Field.size. rewrite Ha, Z.mul_1_r.
apply (dict_get_in (fun v => In v [1; 2; 4; 8]%Z) _ _ _ type_sizes_values).
cbn [In]. left. reflexivity.
Qed.

End MoreOnParsing.

(** X1: every record [parse_header_file] returns is named by a line of
    the input: its name is what the start pattern captures in that line,
    so it is not empty and made of word characters. *)
Theorem parsed_names_come_from_lines (content : str) (s : StructDef.t) :
  In s (parse_header_file content) ->
  name_parsed (StructDef.name s)
  /\ exists line,
       In line (readlines content)
       /\ Re.struct_start_search line = Some (StructDef.name s).
Proof.
intros H. split.
- pose proof (parse_header_file_parsed content) as Hp.
  rewrite Forall_forall in Hp. apply (Hp s H).
- assert (H0 : names_from [] parser_init)
    by (split; [intros ? [] | discriminate]).
  destruct (parse_lines_names (readlines content) [] parser_init H0)
    as [Hn _].
  apply Hn, H.
Qed.

Lemma parsed_names_come_from_lines_witness :
  In imu_struct (parse_header_file imu_header)
  /\ name_parsed (StructDef.name imu_struct)
  /\ exists line,
       In line (readlines imu_header)
       /\ Re.struct_start_search line = Some (StructDef.name imu_struct).
Proof.
assert (H : In imu_struct (parse_header_file imu_header))
  by (vm_compute; left; reflexivity).
split; [exact H | exact (parsed_names_come_from_lines imu_header _ H)].
Defined.

(** X2: in every record [parse_header_file] returns, the type of a field
    is one or more tokens joined by single spaces, and neither the type
    nor the name holds a [;] or an [=]; the name of a field that is not
    an array is one token without white space and without [[], and its
    array size is 0. *)
Theorem parsed_fields_are_tokens (content : str) (s : StructDef.t)
        (f : Field.t) :
  In s (parse_header_file content) -> In f (StructDef.fields s) ->
  type_ok (Field.type_name f)
  /\ Forall (fun c => c <> ";"%char /\ c <> "="%char) (Field.type_name f)
  /\ Forall (fun c => c <> ";"%char /\ c <> "="%char) (Field.name f)
  /\ (Field.is_array f = false ->
      token_ok (Field.name f)
      /\ contains (lit "[") (Field.name f) = false
      /\ Field.array_size f = 0%Z).
Proof.
intros Hs Hf.
pose proof (parse_header_file_parsed content) as Hp.
rewrite Forall_forall in Hp. destruct (Hp s Hs) as (_ & Hfs & _).
rewrite Forall_forall in Hfs. exact (Hfs f Hf).
Qed.

Lemma parsed_fields_are_tokens_witness :
  let f := Field.mk (lit "accel_x") (lit "float") false 0%Z 4%Z in
  In imu_struct (parse_header_file imu_header)
  /\ In f (StructDef.fields imu_struct)
  /\ type_ok (Field.type_name f)
  /\ token_ok (Field.name f).
Proof.
intros f.
assert (H1 : In imu_struct (parse_header_file imu_header))
  by (vm_compute; left; reflexivity).
assert (H2 : In f (StructDef.fields imu_struct))
  by (vm_compute; right; left; reflexivity).
pose proof (parsed_fields_are_tokens imu_header _ _ H1 H2)
  as (Ht & _ & _ & Hn).
split; [exact H1|]. split; [exact H2|]. split; [exact Ht|].
exact (proj1 (Hn eq_refl)).
Defined.

(** X3: the tag of every record [parse_header_file] returns holds no
    single quote, no null character, no [;] and no line end. *)
Theorem parsed_tag_characters (content : str) (s : StructDef.t) :
  In s (parse_header_file content) ->
  Forall (fun c => c <> QUOTE /\ c <> NUL /\ c <> ";"%char
                   /\ c <> LF /\ c <> CR) (StructDef.header_string s).
Proof.
intros Hs.
pose proof (parse_header_file_parsed content) as Hp.
rewrite Forall_forall in Hp. destruct (Hp s Hs) as (_ & _ & Ht & _).
exact Ht.
Qed.

Lemma parsed_tag_characters_witness :
  In imu_struct (parse_header_file imu_header)
  /\ Forall (fun c => c <> QUOTE /\ c <> NUL /\ c <> ";"%char
                      /\ c <> LF /\ c <> CR)
       (StructDef.header_string imu_struct).
Proof.
assert (H : In imu_struct (parse_header_file imu_header))
  by (vm_compute; left; reflexivity).
split; [exact H | exact (parsed_tag_characters imu_header _ H)].
Defined.

(** X4: in every record [parse_header_file] returns, each field lies
    inside the record (its offset is not negative and its end is not
    past the total size), a field ends before any later field starts,
    and a field that is not an array is 1, 2, 4 or 8 bytes wide. *)
Theorem parsed_fields_fit (content : str) (s : StructDef.t) :
  In s (parse_header_file content) ->
  (forall f, In f (StructDef.fields s) ->
     (0 <= Field.offset f)%Z
     /\ (0 <= Field.size f)%Z
     /\ (Field.offset f + Field.size f <= StructDef.size s)%Z
     /\ (Field.is_array f = false ->
         In (Field.size f) [1; 2; 4; 8]%Z))
  /\ (forall l1 f l2 g l3,
        StructDef.fields s = l1 ++ f :: l2 ++ g :: l3 ->
        (Field.offset f + Field.size f <= Field.offset g)%Z).
Proof.
intros H. apply parse_header_file_structs in H.
destruct H as (name & body & ->).
destruct (parse_body_inv name body) as (Hk & Hsz & Hz).
split.
- intros f Hf.
  destruct (packed_from_bounds _ _ Hk Hz f Hf) as [H1 H2].
  rewrite Forall_forall in Hz.
  split; [exact H1|]. split; [exact (Hz f Hf)|].
  split; [rewrite Hsz; lia|].
  exact (field_width f).
- intros l1 f l2 g l3 E. rewrite E in Hk, Hz.
  exact (packed_from_disjoint _ _ _ _ _ _ Hk Hz).
Qed.

Lemma parsed_fields_fit_witness :
  In imu_struct (parse_header_file imu_header)
  /\ forall f, In f (StructDef.fields imu_struct) ->
       (0 <= Field.offset f)%Z
       /\ (0 <= Field.size f)%Z
       /\ (Field.offset f + Field.size f <= StructDef.size imu_struct)%Z
       /\ (Field.is_array f = false ->
           In (Field.size f) [1; 2; 4; 8]%Z).
Proof.
assert (H : In imu_struct (parse_header_file imu_header))
  by (vm_compute; left; reflexivity).
split; [exact H | exact (proj1 (parsed_fields_fit imu_header _ H))].
Defined.

(** X5: a file in which no line matches the start pattern
    [struct __attribute__((packed)) <name>] gives no record: a struct
    that is not declared packed is not read. *)
Theorem no_start_line_no_record (content : str) :
  (forall line, In line (readlines content) ->
                Re.struct_start_search line = None) ->
  parse_header_file content = [].
Proof.
intros H. unfold parse_header_file, parse_lines.
assert (G : forall lines p,
           (forall line, In line lines ->
                         Re.struct_start_search line = None) ->
           in_struct p = false -> fold_left parse_line lines p = p).
{ induction lines as [|l lines IH]; intros p Hl Hi; [reflexivity|].
  cbn [fold_left].
  rewrite (parse_line_outside p l Hi (Hl l (or_introl eq_refl))).
  apply IH; [|exact Hi]. intros line Hin. apply Hl. right. exact Hin. }
rewrite (G _ parser_init H eq_refl). reflexivity.
Qed.

Lemma no_start_line_no_record_witness :
  (forall line, In line (readlines plain_struct_header) ->
                Re.struct_start_search line = None)
  /\ parse_header_file plain_struct_header = [].
Proof.
assert (H : forall line, In line (readlines plain_struct_header) ->
                         Re.struct_start_search line = None).
{ intros line Hl. vm_compute in Hl.
  repeat (destruct Hl as [<- | Hl]; [vm_compute; reflexivity|]).
  destruct Hl. }
split; [exact H | exact (no_start_line_no_record plain_struct_header H)].
Defined.

Section Lines.

Lemma lstrip_first (line : str) (c : ascii) (t : str) :
  lstrip line = c :: t -> isspace c = false.
Proof.
induction line as [|x line IH]; simpl; [discriminate|].
destruct (isspace x) eqn:E; [exact IH|].
intros H; inversion H; subst. exact E.
Qed.

Lemma lstrip_blank (line : str) :
  lstrip line = [] <-> forallb isspace line = true.
Proof.
induction line as [|x line IH]; simpl; [tauto|].
destruct (isspace x); cbn [andb]; [exact IH|].
split; discriminate.
Qed.

(** The lines the loop passes over are the blank lines and the comment
    lines. *)
Lemma stripped_of_empty (line : str) :
  is_empty (stripped_of line) = blank_or_comment line.
Proof.
unfold blank_or_comment.
destruct (lstrip line) as [|c t] eqn:El.
- assert (Hb : forallb isspace line = true) by (apply lstrip_blank, El).
  rewrite Hb. unfold stripped_of, strip. rewrite El. reflexivity.
- assert (Hc : isspace c = false) by (eapply lstrip_first, El).
  assert (Hb : forallb isspace line = false).
  { destruct (forallb isspace line) eqn:E; [|reflexivity].
    apply lstrip_blank in E. congruence. }
  rewrite Hb. cbn [orb].
  destruct (startswith (lit "//") (c :: t)) eqn:Es.
  + apply startswith_app in Es. destruct Es as [r Er].
    cbn [lit list_ascii_of_string app] in Er. inversion Er; subst.
    unfold stripped_of, strip. rewrite El.
    rewrite !rstrip_cons by reflexivity.
    reflexivity.
  + apply (stripped_nonempty line c t El Hc Es).
Qed.

Lemma splitlines_nonempty (x : str) : x <> [] -> splitlines x <> [].
Proof.
destruct x as [|c x]; [congruence|]. intros _. simpl.
destruct (Ascii.eqb c LF); [discriminate|].
destruct (splitlines x); discriminate.
Qed.

Lemma ends_with_newline_tail (c : ascii) (x : str) :
  ends_with_newline (c :: x) ->
  ends_with_newline x /\ (x = [] -> c = LF).
Proof.
unfold ends_with_newline. destruct x as [|d x]; simpl.
- intros ->. split; [reflexivity | reflexivity].
- intros H. split; [exact H | discriminate].
Qed.

Lemma splitlines_app (x y : str) :
  ends_with_newline x ->
  splitlines (x ++ y) = splitlines x ++ splitlines y.
Proof.
induction x as [|c x IH]; intros H; [reflexivity|].
destruct (ends_with_newline_tail _ _ H) as [Hx Hc].
cbn [app splitlines]. rewrite (IH Hx).
destruct (Ascii.eqb c LF) eqn:E; [reflexivity|].
destruct x as [|d x'].
- rewrite (Hc eq_refl) in E. discriminate.
- destruct (splitlines (d :: x')) as [|l ls] eqn:Es.
  + exfalso. revert Es. apply splitlines_nonempty. discriminate.
  + reflexivity.
Qed.

Lemma universal_newlines_app_aux (n : nat) :
  forall a, (List.length a <= n)%nat -> ends_with_newline a ->
    (forall b, universal_newlines (a ++ b)
               = universal_newlines a ++ universal_newlines b)
    /\ ends_with_newline (universal_newlines a).
Proof.
induction n as [|n IH]; intros a Hn Ha.
- destruct a; [|simpl in Hn; lia]. split; reflexivity.
- destruct a as [|c a1]; [split; reflexivity|].
  simpl in Hn.
  destruct (ends_with_newline_tail _ _ Ha) as [Ha1 Hc].
  destruct (Ascii.eqb c CR) eqn:Ec.
  + destruct a1 as [|d a2].
    { apply Ascii.eqb_eq in Ec. rewrite (Hc eq_refl) in Ec. discriminate. }
    destruct (ends_with_newline_tail _ _ Ha1) as [Ha2 _].
    destruct (Ascii.eqb d LF) eqn:Ed.
    * destruct (IH a2 ltac:(simpl in Hn; lia) Ha2) as [E1 E2].
      split.
      -- intros b. cbn [app universal_newlines]. rewrite Ec, Ed, E1.
         reflexivity.
      -- cbn [universal_newlines]. rewrite Ec, Ed.
         unfold ends_with_newline in *. cbn [last].
         destruct (universal_newlines a2); [reflexivity | exact E2].
    * destruct (IH (d :: a2) ltac:(simpl in *; lia) Ha1) as [E1 E2].
      split.
      -- intros b. change ((c :: d :: a2) ++ b) with (c :: d :: a2 ++ b).
         change (universal_newlines (c :: d :: a2 ++ b))
           with (if Ascii.eqb c CR
                 then if Ascii.eqb d LF
                      then LF :: universal_newlines (a2 ++ b)
                      else LF :: universal_newlines (d :: a2 ++ b)
                 else c :: universal_newlines (d :: a2 ++ b)).
         change (universal_newlines (c :: d :: a2))
           with (if Ascii.eqb c CR
                 then if Ascii.eqb d LF
                      then LF :: universal_newlines a2
                      else LF :: universal_newlines (d :: a2)
                 else c :: universal_newlines (d :: a2)).
         rewrite Ec, Ed.
         change (d :: a2 ++ b) with ((d :: a2) ++ b). rewrite E1.
         reflexivity.
      -- change (universal_newlines (c :: d :: a2))
           with (if Ascii.eqb c CR
                 then if Ascii.eqb d LF
                      then LF :: universal_newlines a2
                      else LF :: universal_newlines (d :: a2)
                 else c :: universal_newlines (d :: a2)).
         rewrite Ec, Ed.
         unfold ends_with_newline in *. cbn [last].
         destruct (universal_newlines (d :: a2)); [reflexivity | exact E2].
  + destruct (IH a1 ltac:(lia) Ha1) as [E1 E2].
    split.
    * intros b. cbn [app universal_newlines]. rewrite Ec, E1. reflexivity.
    * cbn [universal_newlines]. rewrite Ec.
      unfold ends_with_newline in *. cbn [last].
      destruct (universal_newlines a1) eqn:Eu; [|exact E2].
      destruct a1 as [|d a2]; [exact (Hc eq_refl)|].
      exfalso. revert Eu. cbn [universal_newlines].
      destruct (Ascii.eqb d CR); [destruct a2 as [|e a3];
        [|destruct (Ascii.eqb e LF)]|]; discriminate.
Qed.

Lemma readlines_app (a b : str) :
  ends_with_newline a -> readlines (a ++ b) = readlines a ++ readlines b.
Proof.
intros Ha. unfold readlines.
destruct (universal_newlines_app_aux (List.length a) a (le_n _) Ha)
  as [E1 E2].
rewrite E1. apply splitlines_app, E2.
Qed.

Lemma readlines_one_line (c : str) :
  Forall (fun x => x <> LF /\ x <> CR) c ->
  readlines (c ++ [LF]) = [c ++ [LF]].
Proof.
intros H.
replace (c ++ [LF]) with (concat [c ++ [LF]]) at 1
  by (cbn [concat]; apply app_nil_r).
apply (readlines_lines [c ++ [LF]]).
constructor; [|constructor]. exists c. split; [reflexivity | exact H].
Qed.

End Lines.

(** X6: the loop passes over a blank line and over a line whose first
    character that is not white space starts a [//] comment, also inside
    a declaration: putting such a line between two lines of a file does
    not change the records read. *)
Theorem blank_and_comment_lines_ignored (a c b : str) :
  ends_with_newline a ->
  Forall (fun x => x <> LF /\ x <> CR) c ->
  blank_or_comment (c ++ [LF]) = true ->
  parse_header_file (a ++ (c ++ [LF]) ++ b) = parse_header_file (a ++ b).
Proof.
intros Ha Hc Hb. unfold parse_header_file, parse_lines.
assert (Hcl : ends_with_newline (c ++ [LF])).
{ unfold ends_with_newline. rewrite last_last. reflexivity. }
rewrite !(readlines_app a) by exact Ha.
rewrite (readlines_app (c ++ [LF]) b Hcl), (readlines_one_line c Hc).
rewrite !fold_left_app. cbn [fold_left].
rewrite parse_line_skip; [reflexivity|].
rewrite stripped_of_empty. exact Hb.
Qed.

Lemma blank_and_comment_lines_ignored_witness :
  let a := lit "struct __attribute__((packed)) AData" ++ [LF]
           ++ lit "{" ++ [LF] in
  let c := lit "    // the only member {" in
  let b := lit "    int x;" ++ [LF] ++ lit "};" ++ [LF] in
  ends_with_newline a
  /\ Forall (fun x => x <> LF /\ x <> CR) c
  /\ blank_or_comment (c ++ [LF]) = true
  /\ parse_header_file (a ++ (c ++ [LF]) ++ b) = parse_header_file (a ++ b).
Proof.
intros a c b.
assert (H1 : ends_with_newline a) by reflexivity.
assert (H2 : Forall (fun x => x <> LF /\ x <> CR) c)
  by (repeat constructor; discriminate).
assert (H3 : blank_or_comment (c ++ [LF]) = true) by reflexivity.
split; [exact H1|]. split; [exact H2|]. split; [exact H3|].
exact (blank_and_comment_lines_ignored a c b H1 H2 H3).
Defined.

Section BraceOnStructLine.







End BraceOnStructLine.



(** X8: a member whose name holds a [[] but no [name[digits]], such as
    an array sized by a constant, is read as an array field of length 0:
    its size is 0 and the offset does not advance, so the member takes
    no bytes in the layout. *)
Theorem unsized_array_takes_no_bytes (s : StructDef.t) (off : Z)
        (stmt : str) :
  let parts := split_ws (strip (declarator stmt)) in
  let full := last parts [] in
  is_empty stmt = false ->
  (2 <= List.length parts)%nat ->
  contains (lit "[") full = true ->
  Re.array_name_search full = None ->
  StructDef.fields (fst (parse_statement (s, off) stmt))
  = StructDef.fields s
    ++ [Field.mk full (join [SP] (removelast parts)) true 0%Z off]
  /\ Field.size (Field.mk full (join [SP] (removelast parts)) true 0%Z off)
     = 0%Z
  /\ snd (parse_statement (s, off) stmt) = off.
Proof.
intros parts full Hne Hlen Hb Hm.
rewrite (parse_statement_eq _ _ _ Hne). cbv zeta. fold parts.
apply Nat.ltb_ge in Hlen. rewrite Hlen.
unfold field_of_parts. fold full. rewrite Hb, Hm.
cbn [fst snd StructDef.fields].
assert (Ez : Field.size (Field.mk full (join [SP] (removelast parts)) true
                                  0%Z off) = 0%Z).
{ unfold Field.size. cbn [Field.is_array Field.array_size]. lia. }
split; [reflexivity|]. split; [exact Ez|]. rewrite Ez. lia.
Qed.

Lemma unsized_array_takes_no_bytes_witness :
  let stmt := lit "char buf[BUF_LEN]" in
  let s := StructDef.init (lit "T") in
  is_empty stmt = false
  /\ (2 <= List.length (split_ws (strip (declarator stmt))))%nat
  /\ contains (lit "[") (last (split_ws (strip (declarator stmt))) []) = true
  /\ Re.array_name_search (last (split_ws (strip (declarator stmt))) [])
     = None
  /\ StructDef.fields (fst (parse_statement (s, 4%Z) stmt))
     = [Field.mk (lit "buf[BUF_LEN]") (lit "char") true 0%Z 4%Z]
  /\ snd (parse_statement (s, 4%Z) stmt) = 4%Z.
Proof.
intros stmt s.
assert (H1 : is_empty stmt = false) by reflexivity.
assert (H2 : (2 <= List.length (split_ws (strip (declarator stmt))))%nat)
  by (vm_compute; lia).
assert (H3 : contains (lit "[")
               (last (split_ws (strip (declarator stmt))) []) = true)
  by (vm_compute; reflexivity).
assert (H4 : Re.array_name_search
               (last (split_ws (strip (declarator stmt))) []) = None)
  by (vm_compute; reflexivity).
pose proof (unsized_array_takes_no_bytes s 4%Z stmt H1 H2 H3 H4)
  as (E1 & _ & E2).
split; [exact H1|]. split; [exact H2|]. split; [exact H3|].
split; [exact H4|]. split; [|exact E2].
rewrite E1. vm_compute. reflexivity.
Defined.

Section MoreOnSchema.

Lemma for_each_none {A B : Type} (f : A -> option B) (l : list A) (a : A) :
  In a l -> f a = None -> for_each f l = None.
Proof.
induction l as [|x l IH]; simpl; intros Hin Ha; [destruct Hin|].
destruct Hin as [-> | Hin].
- rewrite Ha. reflexivity.
- destruct (f x); [|reflexivity]. rewrite (IH Hin Ha). reflexivity.
Qed.

Lemma pkt_id_of_app_Data (id : str) : pkt_id_of (id ++ lit "Data") = id.
Proof.
unfold pkt_id_of.
assert (E : endswith (lit "Data") (id ++ lit "Data") = true)
  by (apply endswith_app; exists id; reflexivity).
rewrite E, length_app. simpl List.length.
replace (List.length id + 4 - 4)%nat with (List.length id + 0)%nat by lia.
rewrite firstn_app_2. simpl. apply app_nil_r.
Qed.

Lemma struct_of_packet_spec (pkt : Yaml.packet) (s : StructDef.t) :
  struct_of_packet pkt = Some s ->
  exists id fs,
    Yaml.id pkt = Some id
    /\ for_each field_of_def (get (Yaml.fields pkt) []) = Some fs
    /\ s = StructDef.mk (id ++ lit "Data") (sort_by_offset fs)
             (get (Yaml.header_string pkt) []) 0%Z.
Proof.
unfold struct_of_packet.
destruct (Yaml.id pkt) as [id|]; [|discriminate].
destruct (for_each field_of_def _) as [fs|]; [|discriminate].
intros H; inversion H; subst. exists id, fs. repeat split.
Qed.

Lemma field_of_def_spec (d : Yaml.field_def) (f : Field.t) :
  field_of_def d = Some f ->
  Field.is_array f = false /\ Field.array_size f = 0%Z
  /\ Yaml.name d = Some (Field.name f)
  /\ Yaml.type d = Some (Field.type_name f)
  /\ Yaml.offset d = Some (Field.offset f).
Proof.
unfold field_of_def.
destruct (Yaml.name d), (Yaml.type d), (Yaml.offset d); try discriminate.
intros H; inversion H; subst. repeat split.
Qed.

End MoreOnSchema.

(** X9: [parse_yaml_file] returns if and only if every packet has the
    key [id] and every field of every packet has the keys [name], [type]
    and [offset]; the keys [packets], [fields] and [header_string] may
    be absent.  Without one of the four it raises [KeyError]. *)
Theorem parse_yaml_file_key_errors (data : Yaml.document) :
  parse_yaml_file data <> None <-> well_keyed data.
Proof.
split; [|apply parse_yaml_file_returns].
intros H pkt Hp.
destruct (struct_of_packet pkt) as [s|] eqn:Es.
- destruct (struct_of_packet_spec _ _ Es) as (id & fs & Hid & Hfs & _).
  split; [congruence|]. intros d Hd.
  destruct (field_of_def d) as [f|] eqn:Ef.
  + destruct (field_of_def_spec _ _ Ef) as (_ & _ & H1 & H2 & H3).
    repeat split; congruence.
  + rewrite (for_each_none _ _ d Hd Ef) in Hfs. discriminate.
- exfalso. apply H. unfold parse_yaml_file.
  apply (for_each_none _ _ pkt Hp Es).
Qed.

(** X10: [parse_yaml_file] returns one record for each packet, in the
    order of the document: its name is the packet's [id] with [Data]
    appended, its tag the packet's [header_string] or the empty string,
    and it has one field for each field of the packet; no field is an
    array, so each is 1, 2, 4 or 8 bytes wide. *)
Theorem parse_yaml_file_records (data : Yaml.document)
        (ss : list StructDef.t) :
  parse_yaml_file data = Some ss ->
  Forall2
    (fun pkt s =>
       (exists id, Yaml.id pkt = Some id
                   /\ StructDef.name s = id ++ lit "Data")
       /\ StructDef.header_string s = get (Yaml.header_string pkt) []
       /\ List.length (StructDef.fields s)
          = List.length (get (Yaml.fields pkt) [])
       /\ Forall (fun f => Field.is_array f = false
                           /\ Field.array_size f = 0%Z
                           /\ In (Field.size f) [1; 2; 4; 8]%Z)
                 (StructDef.fields s))
    (get (Yaml.packets data) []) ss.
Proof.
unfold parse_yaml_file. intros H. apply for_each_Forall2 in H.
induction H as [|pkt s pkts ss' Hp _ IH]; constructor; [|exact IH].
destruct (struct_of_packet_spec _ _ Hp) as (id & fs & Hid & Hfs & ->).
cbn [StructDef.name StructDef.header_string StructDef.fields].
split; [exists id; split; [exact Hid | reflexivity]|].
split; [reflexivity|].
apply for_each_Forall2 in Hfs.
split.
- rewrite <- (Permutation_length (sort_by_offset_perm fs)).
  symmetry. clear -Hfs. induction Hfs; simpl; congruence.
- assert (Hall : Forall (fun f => Field.is_array f = false
                                  /\ Field.array_size f = 0%Z
                                  /\ In (Field.size f) [1; 2; 4; 8]%Z) fs).
  { clear -Hfs. induction Hfs as [|d f ds fs' Hd _ IH]; constructor;
      [|exact IH].
    destruct (field_of_def_spec _ _ Hd) as (Ha & Hz & _).
    split; [exact Ha|]. split; [exact Hz|]. exact (field_width f Ha). }
  rewrite Forall_forall in *. intros f Hf. apply Hall.
  apply (Permutation_in _ (Permutation_sym (sort_by_offset_perm fs))), Hf.
Qed.

Lemma parse_yaml_file_records_witness :
  parse_yaml_file gps_document = Some [gps_struct]
  /\ Forall2
       (fun pkt s =>
          (exists id, Yaml.id pkt = Some id
                      /\ StructDef.name s = id ++ lit "Data")
          /\ StructDef.header_string s = get (Yaml.header_string pkt) []
          /\ List.length (StructDef.fields s)
             = List.length (get (Yaml.fields pkt) [])
          /\ Forall (fun f => Field.is_array f = false
                              /\ Field.array_size f = 0%Z
                              /\ In (Field.size f) [1; 2; 4; 8]%Z)
                    (StructDef.fields s))
       (get (Yaml.packets gps_document) []) [gps_struct].
Proof.
assert (H : parse_yaml_file gps_document = Some [gps_struct])
  by (vm_compute; reflexivity).
split; [exact H | exact (parse_yaml_file_records _ _ H)].
Defined.

(** X11: a schema that is read and written again, [generate_yaml] after
    [parse_yaml_file], keeps the [id] of every packet, for any [id]; it
    loses [size_check], which is written as 0, writes [time_field] as
    [time], and writes the [id] as [header_string] where there was
    none. *)
Theorem schema_rewritten (data : Yaml.document) (ss : list StructDef.t) :
  parse_yaml_file data = Some ss ->
  Forall2
    (fun pkt pkt' =>
       Yaml.id pkt' = Yaml.id pkt
       /\ Yaml.size_check pkt' = Some 0%Z
       /\ Yaml.time_field pkt' = Some (lit "time")
       /\ exists id,
            Yaml.id pkt = Some id
            /\ Yaml.header_string pkt'
               = Some (if is_empty (get (Yaml.header_string pkt) [])
                       then id else get (Yaml.header_string pkt) []))
    (get (Yaml.packets data) [])
    (get (Yaml.packets (generate_yaml ss)) []).
Proof.
unfold parse_yaml_file. intros H. apply for_each_Forall2 in H.
cbn [generate_yaml Yaml.packets get].
induction H as [|pkt s pkts ss' Hp _ IH]; cbn [map]; constructor;
  [|exact IH].
destruct (struct_of_packet_spec _ _ Hp) as (id & fs & Hid & _ & ->).
unfold packet_of.
cbn [StructDef.name StructDef.header_string StructDef.size
     Yaml.id Yaml.size_check Yaml.time_field Yaml.header_string].
rewrite pkt_id_of_app_Data.
split; [symmetry; exact Hid|]. split; [reflexivity|]. split; [reflexivity|].
exists id. split; [exact Hid | reflexivity].
Qed.

Lemma schema_rewritten_witness :
  parse_yaml_file gps_document = Some [gps_struct]
  /\ option_map (map Yaml.size_check) (Yaml.packets gps_document)
     = Some [Some 16%Z]
  /\ option_map (map Yaml.size_check)
       (Yaml.packets (generate_yaml [gps_struct]))
     = Some [Some 0%Z]
  /\ Forall2
       (fun pkt pkt' => Yaml.id pkt' = Yaml.id pkt)
       (get (Yaml.packets gps_document) [])
       (get (Yaml.packets (generate_yaml [gps_struct])) []).
Proof.
assert (H : parse_yaml_file gps_document = Some [gps_struct])
  by (vm_compute; reflexivity).
split; [exact H|]. split; [reflexivity|]. split; [reflexivity|].
eapply Forall2_impl; [|exact (schema_rewritten _ _ H)].
intros pkt pkt' (E & _). exact E.
Defined.

(** X12: reading back the schema [generate_yaml] writes never raises,
    for any structs.  Each struct comes back with [Data] appended to its
    packet identifier as name, with its fields not named [header],
    stably sorted by offset and none an array, with its tag or, where
    it has none, the packet identifier as tag, and with size 0. *)
Theorem schema_read_back (structs : list StructDef.t) :
  parse_yaml_file (generate_yaml structs)
  = Some (map (fun s =>
                 StructDef.mk
                   (pkt_id_of (StructDef.name s) ++ lit "Data")
                   (sort_by_offset
                      (map (fun f => Field.mk (Field.name f)
                                       (Field.type_name f) false 0%Z
                                       (Field.offset f))
                           (filter (fun f => negb (is_header f))
                                   (StructDef.fields s))))
                   (if is_empty (StructDef.header_string s)
                    then pkt_id_of (StructDef.name s)
                    else StructDef.header_string s)
                   0%Z) structs).
Proof. apply parse_yaml_generate. Qed.

(** X13: [generate_header] reads neither the array shape of a field nor
    the size of a struct: the file it writes is the same when all fields
    are made scalars and all sizes 0.  An array member is written
    without its brackets. *)
Theorem generate_header_forgets_arrays (structs : list StructDef.t) :
  generate_header (map forget_arrays structs) = generate_header structs.
Proof.
unfold generate_header, generate_header_writes. f_equal. f_equal.
induction structs as [|s ss IH]; [reflexivity|].
cbn [map flat_map]. rewrite IH. f_equal.
unfold struct_lines, header_lines, forget_arrays.
cbn [StructDef.name StructDef.fields StructDef.header_string].
rewrite map_map. cbn [Field.name Field.type_name].
destruct (StructDef.fields s) as [|f l]; reflexivity.
Qed.

Section WrittenHeader.

Lemma none_of_spec (cs : list ascii) (s : str) :
  none_of cs s = true -> Forall (fun c => ~ In c cs) s.
Proof.
unfold none_of. intros H. rewrite forallb_forall in H.
apply Forall_forall. intros c Hc Hin.
specialize (H c Hc). apply negb_true_iff in H.
assert (E : existsb (Ascii.eqb c) cs = true).
{ apply existsb_exists. exists c. split; [exact Hin | apply Ascii.eqb_refl]. }
congruence.
Qed.

Lemma field_writable_spec (f : Field.t) (o : Z) :
  field_writable f = true ->
  let g := Field.mk (Field.name f) (Field.type_name f) false 0%Z o in
  field_parsed g /\ stmt_ok (decl_stmt g).
Proof.
unfold field_writable. cbv zeta. intros H.
repeat (apply andb_prop in H; destruct H as [H ?]).
repeat match goal with
       | X : negb _ = true |- _ => apply negb_true_iff in X
       end.
match goal with X : eqs _ _ = true |- _ => apply eqs_eq in X; rename X into Ej end.
match goal with
| X : none_of _ (Field.type_name f) = true |- _ =>
    apply none_of_spec in X; rename X into Hty
end.
match goal with
| X : none_of _ (Field.name f) = true |- _ =>
    apply none_of_spec in X; rename X into Hn
end.
match goal with
| X : forallb _ (Field.name f) = true |- _ => rename X into Hsp
end.
match goal with
| X : startswith _ _ = false |- _ => rename X into Hcm
end.
match goal with
| X : is_empty (Field.name f) = false |- _ => rename X into Hne
end.
assert (Hg : field_parsed
               (Field.mk (Field.name f) (Field.type_name f) false 0%Z o)).
{ unfold field_parsed.
  cbn [Field.name Field.type_name Field.is_array Field.array_size].
  split; [|split; [|split]].
  - exists (split_ws (Field.type_name f)).
    split; [|split; [apply split_ws_tokens | symmetry; exact Ej]].
    intros E. rewrite E in Ej. cbn [join] in Ej.
    rewrite <- Ej in H. discriminate.
  - eapply Forall_impl; [|exact Hty]. intros c Hc.
    split; intros ->; apply Hc; cbn [In]; tauto.
  - eapply Forall_impl; [|exact Hn]. intros c Hc.
    split; intros ->; apply Hc; cbn [In]; tauto.
  - intros _. split; [|split; [|reflexivity]].
    + split; [intros E; rewrite E in Hne; discriminate|].
      rewrite forallb_forall in Hsp. apply Forall_forall.
      intros c Hc. apply negb_true_iff, Hsp, Hc.
    + change (lit "[") with ["["%char]. apply contains_free.
      eapply Forall_impl; [|exact Hn]. intros c Hc.
      intros ->; apply Hc; cbn [In]; tauto. }
split; [exact Hg|].
apply decl_stmt_ok; cbn [Field.name Field.type_name Field.is_array].
- exact Hg.
- reflexivity.
- exact Hcm.
- eapply Forall_impl; [|exact Hty]. intros c Hc.
  split; intros ->; apply Hc; cbn [In]; tauto.
- eapply Forall_impl; [|exact Hn]. intros c Hc.
  split; intros ->; apply Hc; cbn [In]; tauto.
Qed.

Lemma fields_writable_ok (l : list Field.t) :
  forallb field_writable l = true -> Forall stmt_ok (map decl_stmt l).
Proof.
intros H. rewrite forallb_forall in H. apply Forall_map, Forall_forall.
intros f Hf. exact (proj2 (field_writable_spec f 0%Z (H f Hf))).
Qed.

(** Reading the statements of written fields lays them out again. *)
Lemma parse_statements_repack (l : list Field.t) :
  forallb field_writable l = true ->
  forall (s : StructDef.t) (off : Z),
    fold_left parse_statement (map decl_stmt l) (s, off)
    = (StructDef.mk (StructDef.name s) (StructDef.fields s ++ repack off l)
                    (StructDef.header_string s) (StructDef.size s),
       (off + sum_sizes (repack off l))%Z).
Proof.
induction l as [|f l IH]; intros Hl s off.
- simpl. rewrite app_nil_r. destruct s. unfold sum_sizes. simpl.
  rewrite Z.add_0_r. reflexivity.
- cbn [forallb] in Hl. apply andb_prop in Hl. destruct Hl as [Hf Hl].
  destruct (field_writable_spec f off Hf) as [Hg _].
  cbn [map fold_left].
  change (decl_stmt f)
    with (decl_stmt (Field.mk (Field.name f) (Field.type_name f) false 0%Z
                              off)).
  rewrite (parse_statement_field s off _ Hg eq_refl). cbv zeta.
  cbn [Field.name Field.type_name].
  rewrite (IH Hl).
  cbn [StructDef.name StructDef.fields StructDef.header_string
       StructDef.size repack].
  rewrite <- app_assoc. unfold sum_sizes at 2. cbn [fold_right app].
  fold (sum_sizes (repack
    (off + Field.size (Field.mk (Field.name f) (Field.type_name f) false
                                0%Z off)) l)).
  f_equal. lia.
Qed.

Lemma read_back_reparsed (s : StructDef.t) :
  struct_writable s = true ->
  name_parsed (StructDef.name s)
  /\ Forall stmt_ok (members s)
  /\ reparsed s = read_back s.
Proof.
unfold struct_writable. intros H.
repeat (apply andb_prop in H; destruct H as [H ?]).
match goal with
| X : forallb isword _ = true |- _ => rename X into Hw
end.
match goal with
| X : forallb field_writable _ = true |- _ => rename X into Hl
end.
match goal with
| X : match header_lines s with [] => _ | _ :: _ => _ end = true |- _ =>
    rename X into Ht
end.
apply negb_true_iff in H.
assert (Hn : name_parsed (StructDef.name s)).
{ split; [intros E; rewrite E in H; discriminate|].
  rewrite forallb_forall in Hw. apply Forall_forall. exact Hw. }
split; [exact Hn|].
unfold read_back.
destruct (header_lines s) as [|h hs] eqn:Eh.
- assert (Hm : members s = map decl_stmt (StructDef.fields s))
    by (unfold members; rewrite Eh; reflexivity).
  assert (Hok : Forall stmt_ok (members s))
    by (rewrite Hm; apply fields_writable_ok, Hl).
  split; [exact Hok|].
  rewrite (reparsed_eq _ Hok), Hm, (parse_statements_repack _ Hl).
  reflexivity.
- assert (Hm : members s
               = header_stmt (StructDef.header_string s)
                 :: map decl_stmt (StructDef.fields s))
    by (unfold members; rewrite Eh; reflexivity).
  apply none_of_spec in Ht.
  assert (Hok : Forall stmt_ok (members s)).
  { rewrite Hm. constructor; [|apply fields_writable_ok, Hl].
    apply header_stmt_ok.
    - eapply Forall_impl; [|exact Ht]. intros c Hc.
      repeat split; intros ->; apply Hc; cbn [In]; tauto.
    - eapply Forall_impl; [|exact Ht]. intros c Hc.
      split; intros ->; apply Hc; cbn [In]; tauto. }
  split; [exact Hok|].
  rewrite (reparsed_eq _ Hok), Hm. cbn [fold_left].
  rewrite parse_statement_header_stmt.
  + rewrite (parse_statements_repack _ Hl). reflexivity.
  + eapply Forall_impl; [|exact Ht]. intros c Hc.
    repeat split; intros ->; apply Hc; cbn [In]; tauto.
Qed.

End WrittenHeader.

(** X14: what [parse_header_file] reads from the file [generate_header]
    writes, for structs that can be written.  Such a struct has a name
    that is not empty and made of word characters.  Each of its fields
    has a type that is not empty, is words with one space between them
    and none around them, does not start with [//] and holds no [;],
    [=] or brace; and a name that is not empty and holds no white
    space, [;], [=], brace or opening bracket.  Where the header member
    is written, its tag holds no quote, null character, [;], line
    break or brace.  What is read is, struct by struct: the name; the
    fields by name and type in their order, but no field is an array
    and the offsets are laid out again, each field after the one
    before, from 0 or, after the header member, from 4; the tag where
    the header member was written and no tag where it was not; and as
    size the sum of the new widths. *)
Theorem written_header_read_back (structs : list StructDef.t) :
  forallb struct_writable structs = true ->
  parse_header_file (generate_header structs) = map read_back structs.
Proof.
intros H. rewrite forallb_forall in H.
rewrite parse_generated.
- apply map_ext_in. intros s Hs.
  exact (proj2 (proj2 (read_back_reparsed s (H s Hs)))).
- apply Forall_forall. intros s Hs.
  destruct (read_back_reparsed s (H s Hs)) as (H1 & H2 & _).
  split; [exact H1 | exact H2].
Qed.

Lemma written_header_read_back_witness :
  forallb struct_writable [gapped_struct] = true
  /\ parse_header_file (generate_header [gapped_struct])
     = [StructDef.mk (lit "GPSData")
          [ Field.mk (lit "header") (lit "char") true 4%Z 0%Z;
            Field.mk (lit "lat") (lit "double") false 0%Z 4%Z;
            Field.mk (lit "raw") (lit "unsigned char") false 0%Z 12%Z;
            Field.mk (lit "fix") (lit "int") false 0%Z 13%Z ]
          (lit "GPS") 17%Z].
Proof.
assert (H : forallb struct_writable [gapped_struct] = true)
  by (vm_compute; reflexivity).
split; [exact H|].
rewrite (written_header_read_back [gapped_struct] H).
vm_compute. reflexivity.
Defined.
